(** * isorter: a shallow embedding of the Sublime Text isort plugin

  The development follows the Python sources:
  - [isort_lib/utils.py]    : logging set-up, process killing, package discovery;
  - [isort_lib/settings.py] : the [IsortSettings] resolver;
  - [isort_cmd.py]          : [isort_file], the [IsortPythonCommand] text command
                              and the hooks of the plugin;
  - [isort_lib/sorter.py]   : the encoding declaration of a file.

  Python objects are modelled by explicit state passing in a small
  state-and-exception monad.  Everything the plugin reads from the editor,
  the operating system or the clock is an input of the model (the [Host]
  record), so that every statement quantifies over all host behaviours. *)

From Stdlib Require Import ZArith QArith Lia Ascii.
From stdpp Require Import gmap strings list fin_maps pretty.

Local Open Scope Z_scope.
Local Open Scope string_scope.
Local Open Scope list_scope.

(** ** Python values *)

#[local] Set Warnings "-register-all".

(** The values a settings file can hold (JSON), as Python sees them. *)
Inductive value : Type :=
| VNone
| VBool (b : bool)
| VInt (n : Z)
| VFloat (q : Q)
| VStr (s : string)
| VList (l : list value)
| VDict (d : gmap string value).

(** Python truthiness, as used by [self.settings.path or "isort"]. *)
Definition truthy (v : value) : bool :=
match v with
| VNone => false
| VBool b => b
| VInt n => negb (n =? 0)%Z
| VFloat q => negb (Qnum q =? 0)%Z
| VStr s => negb (String.eqb s "")
| VList l => match l with [] => false | _ => true end
| VDict d => negb (bool_decide (d = ∅))
end.

(** Exceptions: the class, and the message with its arguments. *)
Inductive exn_class : Type :=
| AttributeError | ValueError | TypeError | KeyError | IndexError | OSError
| ProcessLookupError | TimeoutExpired | RecursionError.

#[global] Instance exn_class_eq_dec : EqDecision exn_class.
Proof. solve_decision. Defined.

Record exn : Type := Exn { e_class : exn_class; e_msg : string; e_args : list value }.

(** ** Strings *)

Module Str.

(** [needle in hay]: substring test. *)
Fixpoint contains (needle hay : string) : bool :=
  String.prefix needle hay ||
  match hay with
  | EmptyString => false
  | String _ rest => contains needle rest
  end.

(** White space as [str.strip] sees it.  Text is held as its UTF-8 bytes, so
    a white space character is one, two or three bytes long: U+0009 to
    U+000D, U+001C to U+001F and U+0020; U+0085 and U+00A0; U+1680, U+2000
    to U+200A, U+2028, U+2029, U+202F, U+205F and U+3000. *)
Definition is_space (c : ascii) : bool :=
  let n := nat_of_ascii c in
  ((9 <=? n) && (n <=? 13) || (28 <=? n) && (n <=? 32))%nat.

Definition is_space2 (c d : ascii) : bool :=
  let m := nat_of_ascii c in
  let n := nat_of_ascii d in
  ((m =? 194) && ((n =? 133) || (n =? 160)))%nat.

Definition is_space3 (c d e : ascii) : bool :=
  let l := nat_of_ascii c in
  let m := nat_of_ascii d in
  let n := nat_of_ascii e in
  ((l =? 225) && (m =? 154) && (n =? 128)
   || (l =? 226) && (m =? 128)
      && ((128 <=? n) && (n <=? 138) || (n =? 168) || (n =? 169) || (n =? 175))
   || (l =? 226) && (m =? 129) && (n =? 159)
   || (l =? 227) && (m =? 128) && (n =? 128))%nat.

(** [s.lstrip()] *)
Fixpoint lstrip (s : string) : string :=
  match s with
  | String c rest =>
      if is_space c then lstrip rest
      else match rest with
           | String d rest' =>
               if is_space2 c d then lstrip rest'
               else match rest' with
                    | String e rest'' => if is_space3 c d e then lstrip rest'' else s
                    | EmptyString => s
                    end
           | EmptyString => s
           end
  | EmptyString => EmptyString
  end.

(** The same from the other end, on the reversed text: the last byte of a
    character comes first. *)
Fixpoint lstrip_rev (r : string) : string :=
  match r with
  | String e rest =>
      if is_space e then lstrip_rev rest
      else match rest with
           | String d rest' =>
               if is_space2 d e then lstrip_rev rest'
               else match rest' with
                    | String c rest'' => if is_space3 c d e then lstrip_rev rest'' else r
                    | EmptyString => r
                    end
           | EmptyString => r
           end
  | EmptyString => EmptyString
  end.

(** [s.rstrip()] *)
Definition rstrip (s : string) : string := String.rev (lstrip_rev (String.rev s)).

(** [s.strip()] *)
Definition strip (s : string) : string := rstrip (lstrip s).

(** [sep.join(parts)] *)
Definition join (sep : string) (parts : list string) : string :=
  String.concat sep parts.

(** [s.split(".")[-1]]: what follows the last dot (all of [s] without one). *)
Fixpoint last_field_go (acc : string) (s : string) : string :=
  match s with
  | EmptyString => String.rev acc
  | String c rest =>
      if Ascii.eqb c "."%char then last_field_go EmptyString rest
      else last_field_go (String c acc) rest
  end.
Definition last_field (s : string) : string := last_field_go EmptyString s.

Definition is_digit (c : ascii) : bool :=
  let n := nat_of_ascii c in ((48 <=? n) && (n <=? 57))%nat.

(** Digits with single underscores between them, as [int] accepts. *)
Fixpoint digits_go (acc : Z) (after_digit : bool) (s : string) : option Z :=
  match s with
  | EmptyString => if after_digit then Some acc else None
  | String c rest =>
      if is_digit c
      then digits_go (10 * acc + (Z.of_nat (nat_of_ascii c) - 48)) true rest
      else if Ascii.eqb c "_"%char && after_digit
           then match rest with
                | String d _ => if is_digit d then digits_go acc false rest else None
                | EmptyString => None
                end
           else None
  end.

(** [int(s)] for text whose digits are the ASCII digits; [None] stands for
    [ValueError].  Which other characters [int] reads as decimal digits
    depends on the Unicode tables of the interpreter: the function [int] of an
    interpreter is a component of the host ([int_of_str] below), and this one
    is the [int] of the hosts of the examples. *)
Definition ascii_int (s : string) : option Z :=
  match strip s with
  | String "+" rest => digits_go 0 false rest
  | String "-" rest => Z.opp <$> digits_go 0 false rest
  | t => digits_go 0 false t
  end.

End Str.

(** ** Paths ([posixpath])

    [os.path.join] and the layout [find_package] looks for
    ([lib/python3.N/site-packages]) are those of a POSIX system.
    [os.path.dirname] is called on the file of the view, on every platform:
    it is a component of the host ([os_path_dirname] below), and [dirname]
    here is what it is on a POSIX system. *)

Module Path.

Definition ends_with_slash (s : string) : bool :=
  match String.rev s with
  | String "/" _ => true
  | _ => false
  end.

(** [os.path.join(a, b)] *)
Definition join2 (a b : string) : string :=
  if String.prefix "/" b then b
  else if String.eqb a "" || ends_with_slash a then a +:+ b
  else a +:+ "/" +:+ b.

(** [os.path.join] of [a] and further components *)
Definition join (a : string) (ps : list string) : string := foldl join2 a ps.

Fixpoint rstrip_slash_rev (r : string) : string :=
  match r with
  | String "/" rest => rstrip_slash_rev rest
  | _ => r
  end.

Fixpoint drop_to_slash_rev (r : string) : string :=
  match r with
  | String "/" _ => r
  | String _ rest => drop_to_slash_rev rest
  | EmptyString => EmptyString
  end.

(** [posixpath.dirname(p)]: the head up to the last slash, without its
    trailing slashes unless it consists of slashes only. *)
Definition dirname (p : string) : string :=
  let head_rev := drop_to_slash_rev (String.rev p) in
  match rstrip_slash_rev head_rev with
  | EmptyString => String.rev head_rev
  | stripped => String.rev stripped
  end.

End Path.


(** ** The [logging] module, as far as the plugin uses it *)

Module Logging.

Definition NOTSET : Z := 0.
Definition DEBUG : Z := 10.
Definition INFO : Z := 20.
Definition WARNING : Z := 30.
Definition ERROR : Z := 40.
Definition CRITICAL : Z := 50.
Definition FATAL : Z := CRITICAL.

(** [logging._nameToLevel] *)
Definition _nameToLevel : list (string * Z) :=
  [ ("CRITICAL", CRITICAL); ("FATAL", FATAL); ("ERROR", ERROR); ("WARN", WARNING);
    ("WARNING", WARNING); ("INFO", INFO); ("DEBUG", DEBUG); ("NOTSET", NOTSET) ].

Definition name_to_level (name : string) : option Z :=
  (list_to_map _nameToLevel : gmap string Z) !! name.

(** [logging._checkLevel]: an [int] (hence also a [bool]) is taken as it is,
    a string must be a level name ([ValueError] otherwise), anything else is
    a [TypeError]. *)
Definition _checkLevel (level : value) : exn + Z :=
  match level with
  | VInt n => inr n
  | VBool b => inr (if b then 1 else 0)
  | VStr s =>
      match name_to_level s with
      | Some n => inr n
      | None => inl (Exn ValueError "Unknown level: %r" [level])
      end
  | _ => inl (Exn TypeError "Level not an integer or a valid string: %r" [level])
  end.

Record Formatter : Type :=
  { fmt : string; style : string; datefmt : string }.

Inductive handler_class : Type := StreamHandler | OtherHandler (name : string).

Record Handler : Type :=
  { h_class : handler_class; formatter : option Formatter }.

(** What a logging call hands over: the message is a format string or an
    exception object, the arguments are kept apart as in [LogRecord]. *)
Inductive message : Type := Text (s : string) | OfExn (e : exn).

Record LogRecord : Type :=
  { levelno : Z; msg : message; args : list value }.

(** A logger: its own level, the effective level of its parent chain, its
    handlers, and the records that passed its level check, oldest first. *)
Record Logger : Type :=
  { level : Z; parent_level : Z; propagate : bool;
    handlers : list Handler; records : list LogRecord }.

Definition getEffectiveLevel (log : Logger) : Z :=
  if (level log =? 0)%Z then parent_level log else level log.

Definition isEnabledFor (log : Logger) (lvl : Z) : bool :=
  (getEffectiveLevel log <=? lvl)%Z.

(** [log.log(lvl, msg, *args)] *)
Definition log (lvl : Z) (m : message) (a : list value) (lg : Logger) : Logger :=
  if isEnabledFor lg lvl
  then {| level := level lg; parent_level := parent_level lg;
          propagate := propagate lg; handlers := handlers lg;
          records := records lg ++ [ {| levelno := lvl; msg := m; args := a |} ] |}
  else lg.

Definition set_level (n : Z) (lg : Logger) : Logger :=
  {| level := n; parent_level := parent_level lg; propagate := propagate lg;
     handlers := handlers lg; records := records lg |}.

Definition set_propagate (b : bool) (lg : Logger) : Logger :=
  {| level := level lg; parent_level := parent_level lg; propagate := b;
     handlers := handlers lg; records := records lg |}.

Definition set_handlers (hs : list Handler) (lg : Logger) : Logger :=
  {| level := level lg; parent_level := parent_level lg; propagate := propagate lg;
     handlers := hs; records := records lg |}.

(** [log.setLevel(level)] *)
Definition setLevel (lvl : value) (lg : Logger) : exn + Logger :=
  match _checkLevel lvl with
  | inl e => inl e
  | inr n => inr (set_level n lg)
  end.

(** [handler.setFormatter(f)] *)
Definition setFormatter (f : Formatter) (h : Handler) : Handler :=
  {| h_class := h_class h; formatter := Some f |}.

(** [log.addHandler(h)] for a handler object that was just created, which
    is therefore not in the list yet: it is appended. *)
Definition addHandler (h : Handler) (lg : Logger) : Logger :=
  set_handlers (handlers lg ++ [h]) lg.

End Logging.

(** ** Processes *)

(** What [Popen.terminate()] and [Popen.kill()] send to a process: the two
    signals of a POSIX system (on Windows both calls end the process, and
    the two names tell the calls apart). *)
Inductive signal : Type := SIGTERM | SIGKILL.

(** The arguments of one [subprocess.Popen(args, **kw)] call. *)
Record PopenCall : Type :=
  { pc_args : list string; pc_cwd : string;
    pc_universal_newlines : bool;
    pc_stdin_pipe : bool; pc_stdout_pipe : bool; pc_stderr_pipe : bool }.

(** A [Popen] object. *)
Record Popen : Type :=
  { p_call : PopenCall; pid : nat; returncode : option Z }.

(** What [proc.communicate(input, timeout)] can do. *)
Inductive communicate_result : Type :=
| Completed (stdout stderr : string) (code : Z)
| TimedOut
| CommunicateRaises (e : exn).

(** ** The host: editor, operating system, clock *)

(** Everything the plugin reads from its surroundings during one command.
    [NAME] is the constant of [isort_lib/consts.py], a file that is not among
    the sources: it is kept as a parameter here.

    Three components are what the interpreter and the platform make of a
    library call, where that differs from one to the other:
    - [poll pid]: what [Popen.poll()] finds when [send_signal] calls it
      before it signals, as it does from Python 3.9 on: the exit code of a
      process that has exited, [None] for one that still runs.  Where
      [send_signal] does not poll (Python 3.8), [poll] is [None] for every
      process.  From 3.9 on [send_signal] also swallows [ProcessLookupError]:
      there [terminate_lookup_error] is [false] for every process;
    - [poll_after_wait pid]: the same for the poll that [send_signal] makes
      when [kill_proc] calls [kill], after the wait has run out: a process
      can have exited in between;
    - [int_of_str]: the function [int] on text, [None] for [ValueError];
    - [os_path_dirname]: [os.path.dirname], which is [posixpath.dirname] or
      [ntpath.dirname]. *)
Record Host : Type :=
  { NAME : string;
    (* sublime *)
    load_settings : string -> gmap string value;
    view_settings : nat -> gmap string value;
    view_window : nat -> option (gmap string string);
    expand_variables : value -> option (gmap string string) -> value;
    the_view : nat;
    view_file_name : option string;
    view_match_python : bool;
    view_is_read_only : bool;
    (* os, subprocess, time *)
    environ : gmap string string;
    isdir : string -> bool;
    listdir : string -> list string;
    popen : PopenCall -> exn + nat;
    communicate : nat -> string -> value -> communicate_result;
    poll : nat -> option Z;
    terminate_lookup_error : nat -> bool;
    wait_result : nat -> option Z;
    poll_after_wait : nat -> option Z;
    perf_counter_run : Q;
    perf_counter_done : Q;
    id_self : Z;
    id_settings : Z;
    (* the interpreter and the platform *)
    int_of_str : string -> option Z;
    os_path_dirname : string -> string }.

(** ** The state of the plugin *)

(** An [IsortSettings] object.  [_settings] is the handle returned by
    [sublime.load_settings] (the name of the settings file), [on_change] the
    tags under which a change listener is registered on it. *)
Record IsortSettings : Type :=
  { _settings : option string;
    current_settings : gmap string value;
    view : option nat;
    on_change : gset string }.

(** The mutable attributes of an [IsortPythonCommand]. *)
Record Command : Type :=
  { proc : option Popen; killed : bool; start_time : option Q }.

(** The command's view: its text and its status entries. *)
Record View : Type :=
  { buffer : string; status : gmap string string }.

Record World : Type :=
  { settings : IsortSettings;
    logger : Logging.Logger;
    self : Command;
    the_buffer : View;
    console : list string;
    signals : list (nat * signal);
    timeouts : list Z;
    sys_path : list string }.

Definition with_settings (f : IsortSettings -> IsortSettings) (w : World) : World :=
  {| settings := f (settings w); logger := logger w; self := self w;
     the_buffer := the_buffer w; console := console w; signals := signals w;
     timeouts := timeouts w; sys_path := sys_path w |}.

Definition with_logger (f : Logging.Logger -> Logging.Logger) (w : World) : World :=
  {| settings := settings w; logger := f (logger w); self := self w;
     the_buffer := the_buffer w; console := console w; signals := signals w;
     timeouts := timeouts w; sys_path := sys_path w |}.

Definition with_self (f : Command -> Command) (w : World) : World :=
  {| settings := settings w; logger := logger w; self := f (self w);
     the_buffer := the_buffer w; console := console w; signals := signals w;
     timeouts := timeouts w; sys_path := sys_path w |}.

Definition with_view (f : View -> View) (w : World) : World :=
  {| settings := settings w; logger := logger w; self := self w;
     the_buffer := f (the_buffer w); console := console w; signals := signals w;
     timeouts := timeouts w; sys_path := sys_path w |}.

Definition with_console (f : list string -> list string) (w : World) : World :=
  {| settings := settings w; logger := logger w; self := self w;
     the_buffer := the_buffer w; console := f (console w); signals := signals w;
     timeouts := timeouts w; sys_path := sys_path w |}.

Definition with_signals (f : list (nat * signal) -> list (nat * signal)) (w : World) : World :=
  {| settings := settings w; logger := logger w; self := self w;
     the_buffer := the_buffer w; console := console w; signals := f (signals w);
     timeouts := timeouts w; sys_path := sys_path w |}.

Definition with_timeouts (f : list Z -> list Z) (w : World) : World :=
  {| settings := settings w; logger := logger w; self := self w;
     the_buffer := the_buffer w; console := console w; signals := signals w;
     timeouts := f (timeouts w); sys_path := sys_path w |}.

Definition with_sys_path (f : list string -> list string) (w : World) : World :=
  {| settings := settings w; logger := logger w; self := self w;
     the_buffer := the_buffer w; console := console w; signals := signals w;
     timeouts := timeouts w; sys_path := f (sys_path w) |}.

(** ** A state-and-exception monad over [World] *)

Inductive result (A : Type) : Type :=
| Ok (a : A)
| Raise (e : exn).
Arguments Ok {A} a.
Arguments Raise {A} e.

Definition M (A : Type) : Type := World -> result A * World.

Definition ret {A} (a : A) : M A := fun w => (Ok a, w).

Definition raise {A} (e : exn) : M A := fun w => (Raise e, w).

Definition bind {A B} (m : M A) (k : A -> M B) : M B :=
  fun w =>
    match m w with
    | (Ok a, w') => k a w'
    | (Raise e, w') => (Raise e, w')
    end.

Definition gets {A} (f : World -> A) : M A := fun w => (Ok (f w), w).

Definition modify (f : World -> World) : M unit := fun w => (Ok tt, f w).

(** [try: m except cls: h] *)
Definition try_except {A} (m : M A) (cls : exn_class) (h : exn -> M A) : M A :=
  fun w =>
    match m w with
    | (Raise e, w') =>
        if bool_decide (e_class e = cls) then h e w' else (Raise e, w')
    | r => r
    end.

Declare Scope py_scope.
Delimit Scope py_scope with py.
Notation "x <- m ;; k" := (bind m (fun x => k))
  (at level 100, m at next level, right associativity) : py_scope.
Notation "m ;;; k" := (bind m (fun _ => k))
  (at level 100, right associativity) : py_scope.

(** [for x in xs: body(x)] *)
Fixpoint for_each {A} (xs : list A) (body : A -> M unit) : M unit :=
  match xs with
  | [] => ret tt
  | x :: rest => bind (body x) (fun _ => for_each rest body)
  end.

Local Open Scope py_scope.

(** Calls on the shared logger [utils.logger]. *)
Definition log_call (lvl : Z) (fmt : string) (a : list value) : M unit :=
  modify (with_logger (Logging.log lvl (Logging.Text fmt) a)).

Definition log_debug := log_call Logging.DEBUG.
Definition log_info := log_call Logging.INFO.
Definition log_warning := log_call Logging.WARNING.
Definition log_error := log_call Logging.ERROR.

(** [print(s)] *)
Definition print (s : string) : M unit := modify (with_console (fun c => c ++ [s])).

(** [l.insert(i, x)] with Python's treatment of negative and large indices. *)
Definition list_insert_py {A} (i : Z) (x : A) (l : list A) : list A :=
  let n := Z.of_nat (length l) in
  let j := if (i <? 0)%Z then Z.max 0 (i + n) else Z.min i n in
  take (Z.to_nat j) l ++ x :: drop (Z.to_nat j) l.

(** ** [isort_lib/utils.py] *)

Module utils.


Definition SETTINGS_NAME (h : Host) : string := NAME h +:+ ".sublime-settings".

(** [merge] of several dictionaries: a copy of the first dictionary updated with the others
    in turn; [None] without arguments. *)
Definition merge (dicts : list (gmap string string)) : option (gmap string string) :=
  match dicts with
  | [] => None
  | dest :: rest => Some (foldl (fun res d => d ∪ res) dest rest)
  end.

(** [expand(value, view)] for a view or [None]. *)
Definition expand (h : Host) (v : value) (vw : option nat) : value :=
  let window := match vw with
                | Some i => view_window h i
                | None => None
                end in
  let variables := match vw, window with
                   | Some _, Some vars => vars
                   | _, _ => ∅
                   end in
  expand_variables h v (merge [variables; environ h]).

(** The process object after a poll that finds [found]: the exit code of a
    process that has exited is stored, unless the object holds one. *)
Definition poll_stores (found : option Z) (p : Popen) : Popen :=
  match returncode p with
  | Some _ => p
  | None =>
      match found with
      | Some rc => {| p_call := p_call p; pid := pid p; returncode := Some rc |}
      | None => p
      end
  end.

(** The process object after the poll of [send_signal].  The command keeps
    in [self.proc] the object as it last stored it: the next command polls
    again, and its host tells what that poll finds. *)
Definition polled (h : Host) (p : Popen) : Popen := poll_stores (poll h (pid p)) p.

(** The same after the poll that comes once the wait has run out. *)
Definition polled_after_wait (h : Host) (p : Popen) : Popen :=
  poll_stores (poll_after_wait h (pid p)) p.

(** [proc.terminate()]: nothing for a process whose exit code is known, or
    is found by the poll; otherwise the signal is sent, which can fail with
    [ProcessLookupError]. *)
Definition terminate (h : Host) (p : Popen) : M unit :=
  match returncode (polled h p) with
  | Some _ => ret tt
  | None =>
      modify (with_signals (fun s => s ++ [(pid p, SIGTERM)])) ;;;
      if terminate_lookup_error h (pid p)
      then raise (Exn ProcessLookupError "" [])
      else ret tt
  end.

(** [proc.kill()], which [kill_proc] calls when the wait has run out:
    nothing for a process whose exit code is known, or is found by the poll;
    otherwise the signal is sent. *)
Definition kill (h : Host) (p : Popen) : M unit :=
  match returncode (polled_after_wait h p) with
  | Some _ => ret tt
  | None => modify (with_signals (fun s => s ++ [(pid p, SIGKILL)]))
  end.

(** [proc.wait(timeout)]: the process object with its exit code, or
    [TimeoutExpired]. *)
Definition wait (h : Host) (p : Popen) : M Popen :=
  match returncode p with
  | Some _ => ret p
  | None =>
      match wait_result h (pid p) with
      | Some rc => ret {| p_call := p_call p; pid := pid p; returncode := Some rc |}
      | None => raise (Exn TimeoutExpired "" [])
      end
  end.

(** [kill_proc(proc)]; the result is the process object as the call leaves
    it: [terminate] and [kill] have stored the exit code their poll has
    found, and [wait] the one it has waited for. *)
Definition kill_proc (h : Host) (p : Popen) : M Popen :=
  terminated <- try_except (terminate h p ;;; ret true) ProcessLookupError
                           (fun _ => ret false) ;;
  let p := polled h p in
  if terminated : bool
  then try_except (wait h p) TimeoutExpired
                  (fun _ => kill h p ;;; ret (polled_after_wait h p))
  else ret p.

Definition logger_format (h : Host) : string :=
  "[{asctime}] [{levelname:7}] " +:+ NAME h +:+ ":{filename} {message}".

(** [configure_logger(log)] *)
Definition configure_logger (h : Host) (log : Logging.Logger) : exn + Logging.Logger :=
  let log := Logging.set_level Logging.INFO log in
  let log := Logging.set_propagate false log in
  let formatter := {| Logging.fmt := logger_format h; Logging.style := "{";
                      Logging.datefmt := "%Y-%m-%d %H:%M:%S" |} in
  let log :=
    match Logging.handlers log with
    | [] =>
        let handler := {| Logging.h_class := Logging.StreamHandler;
                          Logging.formatter := None |} in
        let handler := Logging.setFormatter formatter handler in
        Logging.addHandler handler log
    | _ => log
    end in
  let log :=
    if (1 <? length (Logging.handlers log))%nat
    then Logging.set_handlers (take 1 (Logging.handlers log)) log
    else log in
  match Logging.handlers log with
  | [] => inl (Exn IndexError "list index out of range" [])
  | h0 :: rest =>
      let log := Logging.set_handlers (Logging.setFormatter formatter h0 :: rest) log in
      inr (Logging.log Logging.DEBUG (Logging.Text "Configured %r")
             [VStr ("<Logger " +:+ NAME h +:+ " (INFO)>")] log)
  end.

(** [unconfigure_logger(log)] *)
Definition unconfigure_logger (log : Logging.Logger) : Logging.Logger :=
  match Logging.handlers log with
  | [] => log
  | _ :: rest => Logging.set_handlers rest log
  end.

(** The version numbers read off the entries of a [lib] directory. *)
Definition scan_versions (h : Host) (names : list string) : list Z :=
  foldl (fun versions name =>
           if String.prefix "python3" name
           then match int_of_str h (Str.last_field name) with
                | Some n => versions ++ [n]
                | None => versions
                end
           else versions) [] names.

(** [find_package(root, pkg_name)] *)
Definition find_package (h : Host) (root : string) (pkg_name : string) : option string :=
  let lib := Path.join root ["lib"] in
  if negb (isdir h lib) then None else
  let versions := scan_versions h (listdir h lib) in
  match versions with
  | [] => None
  | v :: vs =>
      let ver := foldl Z.max v vs in
      let version_path := Path.join lib ["python3." +:+ pretty ver] in
      if negb (isdir h version_path) then None else
      let pkg_path := Path.join version_path ["site-packages"; pkg_name] in
      if negb (isdir h pkg_path) then None else
      Some pkg_path
  end.

(** The roots [patch_path] looks into, in order. *)
Definition patch_roots (h : Host) : list (option string) :=
  let HOME := environ h !! "HOME" in
  let roots := [environ h !! "VIRTUAL_ENV"; environ h !! "PYENV_VIRTUAL_ENV"] in
  let pipx_home :=
    match environ h !! "PIPX_HOME" with
    | Some d => Some d
    | None =>
        match HOME with
        | Some home => Some (Path.join home [".local"; "pipx"])
        | None => None
        end
    end in
  match pipx_home with
  | Some d =>
      let pipx_isort := Path.join d ["venvs"; "isort"] in
      if isdir h pipx_isort then roots ++ [Some pipx_isort] else roots
  | None => roots
  end.

(** The second loop of [patch_path]: the package of the first root that has one. *)
Fixpoint first_package (h : Host) (roots : list (option string)) : option string :=
  match roots with
  | [] => None
  | root :: rest =>
      match root with
      | Some r =>
          if isdir h r
          then match find_package h r "isort" with
               | Some isort_path => Some isort_path
               | None => first_package h rest
               end
          else first_package h rest
      | None => first_package h rest
      end
  end.

(** [patch_path()] *)
Definition patch_path (h : Host) : M bool :=
  paths <- gets sys_path ;;
  match List.find (Str.contains "isort") paths with
  | Some path =>
      log_debug "Already in path (%s)" [VStr path] ;;;
      ret true
  | None =>
      match first_package h (patch_roots h) with
      | Some isort_path =>
          print isort_path ;;;
          modify (with_sys_path (list_insert_py (-1) isort_path)) ;;;
          ret true
      | None => ret false
      end
  end.

(** [WHITE_RE], the bytes pattern [\s]: the six ASCII white space bytes. *)
Definition WHITE_RE (c : ascii) : bool :=
  let n := nat_of_ascii c in ((9 <=? n) && (n <=? 13) || (n =? 32))%nat.

(** [WHITE_RE.sub(b"", data)] *)
Fixpoint white_sub (data : string) : string :=
  match data with
  | EmptyString => EmptyString
  | String c rest => if WHITE_RE c then white_sub rest else String c (white_sub rest)
  end.

(** [strip_file(file)]; [read_file_cts] is what [open(file, "rb").read()]
    gives: the bytes of the file, or the exception [open] raises. *)
Definition strip_file (read_file_cts : string -> exn + string) (file : string)
  : exn + string :=
  match read_file_cts file with
  | inl e => inl e
  | inr data => inr (white_sub data)
  end.

End utils.

(** ** [isort_lib/settings.py] *)

Module settings_py.

Definition _UNSET : string := "__UNSET_SETTINGS_KEY__".

(** [value != _UNSET]: only a string can be equal to the sentinel. *)
Definition is_set (v : value) : bool :=
  match v with
  | VStr s => negb (String.eqb s _UNSET)
  | _ => true
  end.

Definition settings_attrs : list string :=
  ["verbose"; "timeout"; "path"; "log_level"; "on_save"; "encoding"].

(** The class attribute [default_settings], in the order of its keys. *)
Definition default_settings_items : list (string * value) :=
  [ ("verbose", VBool false); ("timeout", VFloat 1%Q); ("path", VNone);
    ("log_level", VStr "INFO"); ("on_save", VBool false); ("encoding", VStr "utf-8") ].

Definition default_settings : gmap string value := list_to_map default_settings_items.

(** [for key in self.default_settings] *)
Definition default_keys : list string := default_settings_items.*1.

Definition set__settings (x : option string) (s : IsortSettings) : IsortSettings :=
  {| _settings := x; current_settings := current_settings s; view := view s;
     on_change := on_change s |}.

Definition set_current_settings (m : gmap string value) (s : IsortSettings) : IsortSettings :=
  {| _settings := _settings s; current_settings := m; view := view s;
     on_change := on_change s |}.

Definition set_view (v : option nat) (s : IsortSettings) : IsortSettings :=
  {| _settings := _settings s; current_settings := current_settings s; view := v;
     on_change := on_change s |}.

Definition set_on_change (t : gset string) (s : IsortSettings) : IsortSettings :=
  {| _settings := _settings s; current_settings := current_settings s; view := view s;
     on_change := t |}.

(** [IsortSettings(view)] *)
Definition __init__ (vw : option nat) : IsortSettings :=
  {| _settings := None; current_settings := default_settings; view := vw;
     on_change := ∅ |}.

Definition global_key (key : string) : string := Str.join "_" ["isort"; key].

Definition flat_key (h : Host) (key : string) : string := Str.join "." [NAME h; key].

(** [d.get(key, dflt)] on a dictionary or a [sublime.Settings] object. *)
Definition dict_get (d : gmap string value) (key : string) (dflt : value) : value :=
  default dflt (d !! key).

(** [obj.get(key, dflt)] on an arbitrary value: only a dictionary has [get]. *)
Definition value_get (obj : value) (key : string) (dflt : value) : M value :=
  match obj with
  | VDict d => ret (dict_get d key dflt)
  | _ => raise (Exn AttributeError "object has no attribute 'get'" [obj])
  end.

(** [self.current_settings[key] = expand(value, self.view)] *)
Definition assign (h : Host) (key : string) (v : value) : M unit :=
  modify (with_settings (fun s =>
    set_current_settings (<[key := utils.expand h v (view s)]> (current_settings s)) s)).

(** The body of the loop of [update_settings]. *)
Definition update_key (h : Host) (flat : gmap string value) (nested : value)
    (store : gmap string value) (key : string) : M unit :=
  let flat_key := flat_key h key in
  let global_key := global_key key in
  let v := dict_get flat flat_key (VStr _UNSET) in
  if is_set v then
    log_debug "Got %r from flat settings (%s=%r)" [VStr key; VStr flat_key; v] ;;;
    assign h key v
  else
    v <- value_get nested key (VStr _UNSET) ;;
    if is_set v then
      log_debug "Got %r from nested settings (%r)" [VStr key; v] ;;;
      assign h key v
    else
      let v := dict_get store global_key (VStr _UNSET) in
      if is_set v then
        log_debug "Got %r from global settings (%s=%r)" [VStr key; VStr global_key; v] ;;;
        assign h key v
      else ret tt.

(** [logger.setLevel(level)] on the shared logger. *)
Definition logger_setLevel (lvl : value) : M unit :=
  lg <- gets logger ;;
  match Logging.setLevel lvl lg with
  | inl e => raise e
  | inr lg' => modify (with_logger (fun _ => lg'))
  end.

(** [self.current_settings[key]], with the [AttributeError] of a missing key. *)
Definition lookup_current (key : string) : M value :=
  s <- gets settings ;;
  match current_settings s !! key with
  | Some v => ret v
  | None => raise (Exn AttributeError "object has no attribute" [VStr key])
  end.

(** [__getattr__(key)]; [reload] stands for the call [self.load()]. *)
Definition getattr_with (reload : M unit) (key : string) : M value :=
  s <- gets settings ;;
  (match _settings s, view s with
   | None, Some _ => reload
   | _, _ => ret tt
   end) ;;;
  lookup_current key.

Definition set_log_level_with (reload : M unit) : M unit :=
  lvl <- getattr_with reload "log_level" ;;
  match lvl with
  | VNone => ret tt
  | _ =>
      try_except (logger_setLevel lvl) ValueError
        (fun e =>
           modify (with_logger (Logging.log Logging.ERROR (Logging.OfExn e) [])) ;;;
           logger_setLevel (VInt Logging.WARNING) ;;;
           log_error "Falling back to level=WARNING" [])
  end.

Definition update_settings_with (reload : M unit) (h : Host) : M unit :=
  log_debug "Updating settings" [] ;;;
  s <- gets settings ;;
  handle <- match _settings s with
            | Some name => ret name
            | None =>
                log_debug "Loading settings (%r)" [VStr (utils.SETTINGS_NAME h)] ;;;
                ret (utils.SETTINGS_NAME h)
            end ;;
  let flat := match view s with
              | Some vw => view_settings h vw
              | None => ∅
              end in
  let nested := match view s with
                | Some vw => dict_get flat (NAME h) (VDict ∅)
                | None => VDict ∅
                end in
  for_each default_keys (update_key h flat nested (load_settings h handle)) ;;;
  set_log_level_with reload.

(** [_load()] *)
Definition _load (h : Host) : M unit :=
  modify (with_settings (fun s =>
    let s := set__settings (Some (utils.SETTINGS_NAME h)) s in
    let tags := on_change s ∖ {[NAME h]} in
    let tags := {[NAME h]} ∪ tags in
    set_on_change (foldl (fun t key => t ∖ {[global_key key]}) tags default_keys) s)).

Definition load_with (reload : M unit) (h : Host) (vw : option nat) (force : bool)
  : M (option string) :=
  (match vw with
   | Some _ => modify (with_settings (set_view vw))
   | None => ret tt
   end) ;;;
  s <- gets settings ;;
  (if force || bool_decide (is_Some vw) || bool_decide (_settings s = None)
   then _load h ;;; update_settings_with reload h
   else ret tt) ;;;
  s <- gets settings ;;
  log_debug "Settings %r" [VDict (current_settings s)] ;;;
  ret (_settings s).

(** [load(view, force)].  The attribute look-up inside [load] never calls
    [load] again, because [_load] has set [_settings] by then (lemma
    [load_with_reload] below): the inner call is cut by an exception that
    cannot be raised. *)
Definition load (h : Host) (vw : option nat) (force : bool) : M (option string) :=
  load_with (raise (Exn RecursionError "maximum recursion depth exceeded" [])) h vw force.

Definition reload (h : Host) : M unit := load h None false ;;; ret tt.

(** [__getattr__(key)] *)
Definition __getattr__ (h : Host) (key : string) : M value :=
  getattr_with (reload h) key.

(** [set_log_level()] *)
Definition set_log_level (h : Host) : M unit := set_log_level_with (reload h).

(** [update_settings()] *)
Definition update_settings (h : Host) : M unit := update_settings_with (reload h) h.

(** [as_dict()] *)
Definition as_dict (h : Host) : M (list (string * value)) :=
  (fix go (keys : list string) : M (list (string * value)) :=
     match keys with
     | [] => ret []
     | k :: rest =>
         v <- __getattr__ h k ;;
         tl <- go rest ;;
         ret ((k, v) :: tl)
     end) default_keys.

End settings_py.

(** ** [isort_cmd.py] *)

Module isort_cmd.

(** [sublime.Region(a, b)] *)
Record Region : Type := { a : nat; b : nat }.

Definition begin (r : Region) : nat := Nat.min (a r) (b r).
Definition end_ (r : Region) : nat := Nat.max (a r) (b r).

(** [view.size()] *)
Definition size (v : View) : nat := String.length (buffer v).

(** [view.substr(region)] *)
Definition substr (r : Region) (v : View) : string :=
  String.substring (begin r) (end_ r - begin r) (buffer v).

(** [view.replace(edit, region, text)] *)
Definition replace (r : Region) (text : string) (v : View) : View :=
  {| buffer := String.substring 0 (begin r) (buffer v) +:+ text +:+
               String.substring (end_ r) (String.length (buffer v) - end_ r) (buffer v);
     status := status v |}.

(** [view.set_status(key, text)] and [view.erase_status(key)] *)
Definition view_set_status (key text : string) (v : View) : View :=
  {| buffer := buffer v; status := <[key := text]> (status v) |}.

Definition view_erase_status (key : string) (v : View) : View :=
  {| buffer := buffer v; status := delete key (status v) |}.

Definition set_proc (p : option Popen) (c : Command) : Command :=
  {| proc := p; killed := killed c; start_time := start_time c |}.

Definition set_killed (k : bool) (c : Command) : Command :=
  {| proc := proc c; killed := k; start_time := start_time c |}.

Definition set_start_time (t : option Q) (c : Command) : Command :=
  {| proc := proc c; killed := killed c; start_time := t |}.

(** The arguments [isort_file] hands to [subprocess.Popen]: the argument
    list and the keywords of [_default_kw] with [cwd] added. *)
Definition isort_file_call (h : Host) (exe file : string) (check : bool)
    (verbose : value) (cwd : option string) : PopenCall :=
  let args := [exe; "--stdout"] in
  let args := if check then args ++ ["-c"] else args in
  let args := args ++ ["--filename"; file; "-"] in
  let cwd := match cwd with
             | None => os_path_dirname h file
             | Some d => d
             end in
  {| pc_args := args; pc_cwd := cwd; pc_universal_newlines := true;
     pc_stdin_pipe := true; pc_stdout_pipe := true; pc_stderr_pipe := true |}.

(** [isort_file(exe, file, check, verbose, cwd)] *)
Definition isort_file (h : Host) (exe file : string) (check : bool) (verbose : value)
    (cwd : option string) : M Popen :=
  let call := isort_file_call h exe file check verbose cwd in
  match popen h call with
  | inl e => raise e
  | inr n => ret {| p_call := call; pid := n; returncode := None |}
  end.

(** [is_enabled()] *)
Definition is_enabled (h : Host) : bool :=
  negb (view_is_read_only h) && view_match_python h.

(** [kill()] *)
Definition kill (h : Host) : M unit :=
  c <- gets self ;;
  match proc c with
  | Some p =>
      modify (with_self (set_killed true)) ;;;
      utils.terminate h p
  | None => ret tt
  end.

(** [get_active_file()] *)
Definition get_active_file (h : Host) : M (option string) :=
  let file := view_file_name h in
  if negb (view_match_python h)
  then log_info "Selected file is not python" [] ;;; ret None
  else ret file.

(** [get_cwd()] *)
Definition get_cwd (h : Host) : option string :=
  match view_window h (the_view h) with
  | Some window_vars =>
      match window_vars !! "project_path" with
      | Some cwd => Some cwd
      | None => window_vars !! "file_path"
      end
  | None =>
      match view_file_name h with
      | Some file_name => Some (os_path_dirname h file_name)
      | None => None
      end
  end.

(** [set_status(status)] with the default delay of 1000 ms before
    [clear_status] is called back. *)
Definition set_status (text : string) : M unit :=
  modify (with_view (view_set_status "isort" text)) ;;;
  modify (with_timeouts (fun t => t ++ [1000])).

(** [clear_status()] *)
Definition clear_status : M unit := modify (with_view (view_erase_status "isort")).

Definition dquote : string := String (ascii_of_nat 34) EmptyString.

(** [str(returncode)] *)
Definition format_returncode (rc : option Z) : string :=
  match rc with
  | Some n => pretty n
  | None => "None"
  end.

(** What the [try] statement of [do_isort] leaves in the local variables. *)
Record Outcome : Type :=
  { stdout : option string; stderr : option string; timed_out : bool;
    out_msg : string; out_level : Z }.

(** [self.proc.communicate(input=cts, timeout=timeout)] *)
Definition proc_communicate (h : Host) (p : Popen) (cts : string) (timeout : value)
  : M (string * string) :=
  match communicate h (pid p) cts timeout with
  | Completed out err code =>
      modify (with_self (set_proc (Some {| p_call := p_call p; pid := pid p;
                                           returncode := Some code |}))) ;;;
      ret (out, err)
  | TimedOut => raise (Exn TimeoutExpired "" [])
  | CommunicateRaises e => raise e
  end.

(** [do_isort(edit, file, check)] *)
Definition do_isort (h : Host) (file : string) (check : bool) : M unit :=
  c <- gets self ;;
  match proc c with
  | None => ret tt
  | Some p =>
      log_debug ("cmd: " +:+ dquote +:+ "%s" +:+ dquote)
                [VStr (Str.join " " (pc_args (p_call p)))] ;;;
      timeout <- settings_py.__getattr__ h "timeout" ;;
      vw <- gets the_buffer ;;
      let sel := {| a := 0; b := size vw |} in
      let cts := substr sel vw in
      o <- try_except
             (r <- proc_communicate h p cts timeout ;;
              ret {| stdout := Some (fst r); stderr := Some (snd r); timed_out := false;
                     out_msg := "Finished"; out_level := Logging.DEBUG |})
             TimeoutExpired
             (fun _ =>
                p' <- utils.kill_proc h p ;;
                modify (with_self (set_proc (Some p'))) ;;;
                ret {| stdout := None; stderr := None; timed_out := true;
                       out_msg := "Cancelled"; out_level := Logging.INFO |}) ;;
      c <- gets self ;;
      elapsed <- match start_time c with
                 | Some t0 => ret (Qminus (perf_counter_done h) t0)
                 | None => raise (Exn TypeError "unsupported operand type(s) for -" [])
                 end ;;
      log_debug "Sorted %s in %.2f seconds" [VStr file; VFloat elapsed] ;;;
      log_call (out_level o) "[%s]" [VStr (out_msg o)] ;;;
      let rc := match proc c with
                | Some q => returncode q
                | None => Some 1
                end in
      (if negb (match rc with Some n => negb (n =? 0)%Z | None => false end)
          && negb (timed_out o)
       then set_status "isort(sorted)"
       else if timed_out o
       then set_status "isort(timeout)"
       else match stderr o with
            | Some err =>
                print (Str.strip err) ;;;
                log_warning ("isort exited with code " +:+ format_returncode rc) [] ;;;
                set_status ("isort(err, " +:+ format_returncode rc +:+ ")")
            | None => ret tt
            end) ;;;
      (match stdout o with
       | Some out =>
           if negb (String.eqb out cts) && negb check
           then log_debug "Replacing contents" [] ;;;
                modify (with_view (replace sel out))
           else ret tt
       | None => ret tt
       end) ;;;
      modify (with_self (set_proc None))
  end.

(** [run(edit, check, kill)] *)
Definition run (h : Host) (check : bool) (kill_flag : bool) : M unit :=
  settings_py.load h (Some (the_view h)) false ;;;
  log_debug "id(self) = 0x%x, id(settings) = 0x%x" [VInt (id_self h); VInt (id_settings h)] ;;;
  if kill_flag then kill h
  else
    let working_dir := get_cwd h in
    c <- gets self ;;
    (match proc c with
     | Some p => utils.kill_proc h p ;;; modify (with_self (set_proc None))
     | None => ret tt
     end) ;;;
    file <- get_active_file h ;;
    match file with
    | None => ret tt
    | Some file =>
        modify (with_self (set_killed false)) ;;;
        log_debug "Running isort on %s" [VStr file] ;;;
        verbose <- settings_py.__getattr__ h "verbose" ;;
        path <- settings_py.__getattr__ h "path" ;;
        let exe := if truthy path then path else VStr "isort" in
        modify (with_self (set_start_time (Some (perf_counter_run h)))) ;;;
        p <- match exe with
             | VStr exe => isort_file h exe file check verbose working_dir
             | _ =>
                 (* [Popen] refuses an executable that is not text *)
                 raise (Exn TypeError "expected str, bytes or os.PathLike object" [exe])
             end ;;
        modify (with_self (set_proc (Some p))) ;;;
        do_isort h file check
    end.

(** [plugin_loaded()]; [__name__] is the name under which the editor has
    loaded the module. *)
Definition plugin_loaded (h : Host) (__name__ : string) : M unit :=
  lg <- gets logger ;;
  match utils.configure_logger h lg with
  | inl e => raise e
  | inr lg' =>
      modify (with_logger (fun _ => lg')) ;;;
      log_info "Loaded isort plugin (%s)." [VStr __name__]
  end.

End isort_cmd.

(** ** Assertions about commands *)

(** [triple P m Q E]: from a world satisfying [P], the command [m] ends in a
    world satisfying [Q] on its result, or [E] on the exception it raises. *)
Definition triple {A} (P : World -> Prop) (m : M A)
    (Q : A -> World -> Prop) (E : exn -> World -> Prop) : Prop :=
  forall w, P w ->
    match m w with
    | (Ok x, w') => Q x w'
    | (Raise e, w') => E e w'
    end.

(** [inv I m]: [m] keeps [I], whether it returns or raises. *)
Definition inv {A} (I : World -> Prop) (m : M A) : Prop :=
  triple I m (fun _ => I) (fun _ => I).

(** Assertions that do not look at a component of the world. *)
Definition ignores_logger (I : World -> Prop) : Prop :=
  forall f w, I w -> I (with_logger f w).
Definition ignores_settings (I : World -> Prop) : Prop :=
  forall f w, I w -> I (with_settings f w).
Definition ignores_self (I : World -> Prop) : Prop :=
  forall f w, I w -> I (with_self f w).
Definition ignores_console (I : World -> Prop) : Prop :=
  forall f w, I w -> I (with_console f w).
Definition ignores_signals (I : World -> Prop) : Prop :=
  forall f w, I w -> I (with_signals f w).
Definition ignores_timeouts (I : World -> Prop) : Prop :=
  forall f w, I w -> I (with_timeouts f w).

(** Assertions that look at the settings through [current_settings] only. *)
Definition ignores_settings_handle (I : World -> Prop) : Prop :=
  forall f w,
    current_settings (f (settings w)) = current_settings (settings w) ->
    I w -> I (with_settings f w).

(** The text of the view is [b]. *)
Definition buffer_is (b : string) (w : World) : Prop := buffer (the_buffer w) = b.

(** The two dictionaries [update_settings] reads from the view of the
    settings object: the view's settings, and what they hold under [NAME]. *)
Definition flat_of (h : Host) (vw : option nat) : gmap string value :=
  match vw with
  | Some v => view_settings h v
  | None => ∅
  end.

Definition nested_of (h : Host) (vw : option nat) : value :=
  match vw with
  | Some v => settings_py.dict_get (view_settings h v) (NAME h) (VDict ∅)
  | None => VDict ∅
  end.

(** The formatter hands back the text [b] whenever it is given [b] and
    completes. *)
Definition formatter_echoes (h : Host) (b : string) : Prop :=
  forall n timeout out err code,
    communicate h n b timeout = Completed out err code -> out = b.

(** The logger after a sequence of logging calls. *)
Definition emit (calls : list Logging.LogRecord) (lg : Logging.Logger) : Logging.Logger :=
  foldl (fun lg r => Logging.log (Logging.levelno r) (Logging.msg r) (Logging.args r) lg)
        lg calls.

Definition call (lvl : Z) (fmt : string) (a : list value) : Logging.LogRecord :=
  {| Logging.levelno := lvl; Logging.msg := Logging.Text fmt; Logging.args := a |}.

(** The calls every completed [do_isort] makes first. *)
Definition cmd_call (p : Popen) : Logging.LogRecord :=
  call Logging.DEBUG ("cmd: " +:+ isort_cmd.dquote +:+ "%s" +:+ isort_cmd.dquote)
       [VStr (Str.join " " (pc_args (p_call p)))].

Definition sorted_call (h : Host) (file : string) (t0 : Q) : Logging.LogRecord :=
  call Logging.DEBUG "Sorted %s in %.2f seconds"
       [VStr file; VFloat (Qminus (perf_counter_done h) t0)].

(** ** Configuration sources *)

(** A source holds no value under [k]: nothing is stored there, or what is
    stored is the sentinel [_UNSET]. *)
Definition absent (d : gmap string value) (k : string) : Prop :=
  d !! k = None \/ d !! k = Some (VStr settings_py._UNSET).

(** A source provides the value [x] under [k]. *)
Definition provides (d : gmap string value) (k : string) (x : value) : Prop :=
  d !! k = Some x /\ x <> VStr settings_py._UNSET.

(** No source of the host has a value for the option [key]: no view has the
    flat key, no mapping stored under the plugin's name has the key, and no
    settings file has the prefixed key. *)
Definition no_source (h : Host) (key : string) : Prop :=
  (forall v, absent (view_settings h v) (settings_py.flat_key h key))
  /\ (forall v d, view_settings h v !! NAME h = Some (VDict d) -> absent d key)
  /\ (forall name, absent (load_settings h name) (settings_py.global_key key)).

(** The snapshot has exactly the six option keys. *)
Definition six_keys (w : World) : Prop :=
  dom (current_settings (settings w)) = list_to_set settings_py.settings_attrs.

(** The snapshot holds [x] (or nothing) under [key]. *)
Definition holds_value (key : string) (x : option value) (w : World) : Prop :=
  current_settings (settings w) !! key = x.

(** The worlds in which the settings object has been constructed and then
    loaded or updated any number of times, under any hosts. *)
Inductive settled : World -> Prop :=
| settled_init (w : World) (vw : option nat) :
    settings w = settings_py.__init__ vw -> settled w
| settled_load (h : Host) (vw : option nat) (force : bool) (w : World) :
    settled w -> settled (snd (settings_py.load h vw force w))
| settled_update (h : Host) (w : World) :
    settled w -> settled (snd (settings_py.update_settings h w)).

(** The value [update_key] stores for a key, if any: that of the first
    source that provides one. *)
Definition pick (h : Host) (flat nested store : gmap string value) (key : string)
  : option value :=
  let from d k := let v := settings_py.dict_get d k (VStr settings_py._UNSET) in
                  if settings_py.is_set v then Some v else None in
  match from flat (settings_py.flat_key h key) with
  | Some v => Some v
  | None =>
      match from nested key with
      | Some v => Some v
      | None => from store (settings_py.global_key key)
      end
  end.



(** ** The claims that fail, as they are worded *)


(** "The resolved value is taken from the flat dotted key on the buffer's
    local settings if present, otherwise from the nested mapping keyed by
    plugin name if present, otherwise from the prefixed key in the global
    store", for the snapshot [load] builds for the view [v]. *)
Definition precedence_claim (h : Host) (v : nat) (w : World) (key : string) : Prop :=
  let resolved :=
    current_settings (settings (snd (settings_py.load h (Some v) false w))) !! key in
  let flat := view_settings h v in
  let nested := match flat !! NAME h with
                | Some (VDict nd) => nd !! key
                | _ => None
                end in
  match flat !! settings_py.flat_key h key with
  | Some x => resolved = Some (utils.expand h x (Some v))
  | None =>
      match nested with
      | Some y => resolved = Some (utils.expand h y (Some v))
      | None =>
          match load_settings h (utils.SETTINGS_NAME h) !! settings_py.global_key key with
          | Some z => resolved = Some (utils.expand h z (Some v))
          | None => True
          end
      end
  end.

(** "Executable discovery prepends the package path to the module
    resolution search path": when the search path is not patched yet and a
    package is found, the search path afterwards is the package path followed
    by the old entries. *)
Definition prepend_claim (h : Host) (w : World) : Prop :=
  forall pkg,
    List.find (Str.contains "isort") (sys_path w) = None ->
    utils.first_package h (utils.patch_roots h) = Some pkg ->
    sys_path (snd (utils.patch_path h w)) = pkg :: sys_path w.

(** ** Example inputs *)

Definition settings_file : string := "isort.sublime-settings".

Definition example_file : string := "/home/u/proj/a.py".

(** A host whose view has the settings [flat], whose settings file holds
    [store], and whose formatter answers [answer input]. *)
Definition example_host (flat store : gmap string value)
    (answer : string -> communicate_result) : Host :=
  {| NAME := "isort";
     load_settings := fun _ => store;
     view_settings := fun _ => flat;
     view_window := fun _ => None;
     expand_variables := fun v _ => v;
     the_view := 0%nat;
     view_file_name := Some example_file;
     view_match_python := true;
     view_is_read_only := false;
     environ := ∅;
     isdir := fun _ => false;
     listdir := fun _ => [];
     popen := fun _ => inr 7%nat;
     communicate := fun _ input _ => answer input;
     poll := fun _ => None;
     poll_after_wait := fun _ => None;
     terminate_lookup_error := fun _ => false;
     wait_result := fun _ => Some (-15);
     perf_counter_run := 0%Q;
     perf_counter_done := 1%Q;
     id_self := 1;
     id_settings := 2;
     int_of_str := Str.ascii_int;
     os_path_dirname := Path.dirname |}.

Definition example_logger : Logging.Logger :=
  {| Logging.level := Logging.INFO; Logging.parent_level := Logging.WARNING;
     Logging.propagate := false; Logging.handlers := []; Logging.records := [] |}.

Definition example_proc : Popen :=
  {| p_call := isort_cmd.isort_file_call (example_host ∅ ∅ (fun _ => TimedOut)) "isort"
                 example_file false (VBool false) None;
     pid := 7%nat; returncode := None |}.

(** A world in which nothing has run yet. *)
Definition idle_world (text : string) : World :=
  {| settings := settings_py.__init__ (Some 0%nat);
     logger := example_logger;
     self := {| proc := None; killed := false; start_time := None |};
     the_buffer := {| buffer := text; status := ∅ |};
     console := []; signals := []; timeouts := []; sys_path := [] |}.

(** A world as [run] leaves it just before it calls [do_isort]. *)
Definition running_world (text : string) : World :=
  {| settings := settings_py.set__settings (Some settings_file)
                   (settings_py.__init__ (Some 0%nat));
     logger := example_logger;
     self := {| proc := Some example_proc; killed := false; start_time := Some 0%Q |};
     the_buffer := {| buffer := text; status := ∅ |};
     console := []; signals := []; timeouts := []; sys_path := [] |}.

(** A world whose settings are loaded and hold [lvl] as the log level. *)
Definition configured_world (lvl : value) : World :=
  with_settings
    (fun s => settings_py.set_current_settings
                (<["log_level" := lvl]> (current_settings s)) s)
    (running_world "import os").

(** View settings with all three forms of the option [timeout]. *)
Definition layered_flat : gmap string value :=
  {[ "isort.timeout" := VInt 5;
     "isort" := VDict {[ "timeout" := VInt 7 ]} ]}.

Definition layered_store : gmap string value := {[ "isort_timeout" := VInt 9 ]}.

(** View settings whose flat key for [path] holds the sentinel string. *)
Definition sentinel_flat : gmap string value :=
  {[ "isort.path" := VStr "__UNSET_SETTINGS_KEY__";
     "isort" := VDict {[ "path" := VStr "/opt/isort" ]} ]}.

(** A host with the environment [env], the directories [dirs] and the
    directory listings [entries]. *)
Definition fs_host (env : gmap string string) (dirs : list string)
    (entries : gmap string (list string)) : Host :=
  {| NAME := "isort";
     load_settings := fun _ => ∅;
     view_settings := fun _ => ∅;
     view_window := fun _ => None;
     expand_variables := fun v _ => v;
     the_view := 0%nat;
     view_file_name := Some example_file;
     view_match_python := true;
     view_is_read_only := false;
     environ := env;
     isdir := fun p => bool_decide (p ∈ dirs);
     listdir := fun p => default [] (entries !! p);
     popen := fun _ => inr 7%nat;
     communicate := fun _ _ _ => TimedOut;
     poll := fun _ => None;
     poll_after_wait := fun _ => None;
     terminate_lookup_error := fun _ => false;
     wait_result := fun _ => Some (-15);
     perf_counter_run := 0%Q;
     perf_counter_done := 1%Q;
     id_self := 1;
     id_settings := 2;
     int_of_str := Str.ascii_int;
     os_path_dirname := Path.dirname |}.

(** A virtual environment with two Python versions, the formatter being
    installed for the higher one. *)
Definition venv_host : Host :=
  fs_host {[ "VIRTUAL_ENV" := "/venv" ]}
    [ "/venv"; "/venv/lib"; "/venv/lib/python3.8"; "/venv/lib/python3.10";
      "/venv/lib/python3.10/site-packages/isort" ]
    {[ "/venv/lib" := ["python3.8"; "python3.10"; "python3"] ]}.

Definition path_world (paths : list string) : World :=
  with_sys_path (fun _ => paths) (idle_world "import os").


(** ** [isort_cmd.py]: the hooks of the plugin *)

Module hooks.

(** A block of code that works on a settings object of its own: the object
    [s0] takes the place of the command's settings object for the duration
    of [m], and is dropped afterwards. *)
Definition with_local_settings {A} (s0 : IsortSettings) (m : M A) : M A :=
  fun w =>
    let saved := settings w in
    match m (with_settings (fun _ => s0) w) with
    | (r, w') => (r, with_settings (fun _ => saved) w')
    end.

(** [IsortEventListener.on_pre_save(view)], for the view of the host. *)
Definition on_pre_save (h : Host) : M unit :=
  if negb (view_match_python h) then ret tt
  else
    with_local_settings (settings_py.__init__ (Some (the_view h)))
      (settings_py.load h None false ;;;
       on_save <- settings_py.__getattr__ h "on_save" ;;
       if negb (truthy on_save) then ret tt
       else print "Python and isorting on save.").

(** [sys.modules.pop(name)] *)
Definition modules_pop {A} (name : string) (modules : gmap string A)
  : exn + gmap string A :=
  match modules !! name with
  | Some _ => inr (delete name modules)
  | None => inl (Exn KeyError "" [VStr name])
  end.

(** [plugin_unloaded()], on the dictionary [sys.modules].  [LIB_NAME] is
    defined in [isort_lib/__init__.py], which is not among the sources: it is
    a parameter. *)
Definition plugin_unloaded {A} (LIB_NAME : string) (modules : gmap string A)
  : exn + gmap string A :=
  let to_pop :=
    foldl (fun to_pop mod_name =>
             if Str.contains LIB_NAME mod_name then to_pop ++ [mod_name] else to_pop)
          [] (map_to_list modules).*1 in
  foldl (fun acc mod_name =>
           match acc with
           | inr m => modules_pop mod_name m
           | inl e => inl e
           end)
        (inr modules) to_pop.

End hooks.

(** ** [isort_lib/sorter.py] *)

Module sorter.

(** The classes of the pattern
    [^[ \t\v]*#.*?coding[:=][ \t]*([-_.a-zA-Z0-9]+)]. *)
Definition is_blank (c : ascii) : bool :=
  let n := nat_of_ascii c in (n =? 32)%nat || (n =? 9)%nat || (n =? 11)%nat.

Definition is_space_or_tab (c : ascii) : bool :=
  let n := nat_of_ascii c in (n =? 32)%nat || (n =? 9)%nat.

Definition is_name_char (c : ascii) : bool :=
  let n := nat_of_ascii c in
  (n =? 45)%nat || (n =? 95)%nat || (n =? 46)%nat
  || ((97 <=? n) && (n <=? 122))%nat || ((65 <=? n) && (n <=? 90))%nat
  || ((48 <=? n) && (n <=? 57))%nat.

Fixpoint skip (p : ascii -> bool) (s : string) : string :=
  match s with
  | String c rest => if p c then skip p rest else s
  | EmptyString => EmptyString
  end.

Fixpoint take_while (p : ascii -> bool) (s : string) : string :=
  match s with
  | String c rest => if p c then String c (take_while p rest) else EmptyString
  | EmptyString => EmptyString
  end.

(** [coding[:=][ \t]*([-_.a-zA-Z0-9]+)] at the start of [s]: the group. *)
Definition match_coding (s : string) : option string :=
  match s with
  | String "c" (String "o" (String "d" (String "i" (String "n" (String "g"
      (String sep rest)))))) =>
      if Ascii.eqb sep ":" || Ascii.eqb sep "="
      then match take_while is_name_char (skip is_space_or_tab rest) with
           | EmptyString => None
           | name => Some name
           end
      else None
  | _ => None
  end.

(** [.*?] followed by the rest of the pattern: the first position, not
    beyond a line feed, at which the rest matches. *)
Fixpoint search (s : string) : option string :=
  match match_coding s with
  | Some name => Some name
  | None =>
      match s with
      | String c rest => if (nat_of_ascii c =? 10)%nat then None else search rest
      | EmptyString => None
      end
  end.

(** [ENCODING_PATTERN.findall(line)] *)
Definition findall (line : string) : list string :=
  match skip is_blank line with
  | String "#" rest =>
      match search rest with
      | Some name => [name]
      | None => []
      end
  | _ => []
  end.

(** [get_encoding_from_region(region, view)] *)
Definition get_encoding_from_region (region : isort_cmd.Region) (v : View) : option string :=
  let line := isort_cmd.substr region v in
  let enc := findall line in
  match enc with
  | e :: _ => Some e
  | [] => None
  end.

End sorter.

(** ** Vocabulary of the further properties *)

(** The components of the world a command that only reads settings and
    writes to the log may not touch. *)
Definition same_outside_settings (w0 w : World) : Prop :=
  the_buffer w = the_buffer w0 /\ self w = self w0 /\ console w = console w0
  /\ signals w = signals w0 /\ timeouts w = timeouts w0 /\ sys_path w = sys_path w0.

(** The settings object holds the handle [name] and the view [vw]. *)
Definition handle_is (name : string) (vw : option nat) (w : World) : Prop :=
  _settings (settings w) = Some name /\ view (settings w) = vw.

(** A host whose formatter never answers and does not exit when it is
    sent the termination signal. *)
Definition stubborn_host : Host :=
  {| NAME := "isort";
     load_settings := fun _ => ∅;
     view_settings := fun _ => ∅;
     view_window := fun _ => None;
     expand_variables := fun v _ => v;
     the_view := 0%nat;
     view_file_name := Some example_file;
     view_match_python := true;
     view_is_read_only := false;
     environ := ∅;
     isdir := fun _ => false;
     listdir := fun _ => [];
     popen := fun _ => inr 7%nat;
     communicate := fun _ _ _ => TimedOut;
     poll := fun _ => None;
     poll_after_wait := fun _ => None;
     terminate_lookup_error := fun _ => false;
     wait_result := fun _ => None;
     perf_counter_run := 0%Q;
     perf_counter_done := 1%Q;
     id_self := 1;
     id_settings := 2;
     int_of_str := Str.ascii_int;
     os_path_dirname := Path.dirname |}.

(** A host whose view is not a Python file. *)
Definition plain_text_host : Host :=
  {| NAME := "isort";
     load_settings := fun _ => ∅;
     view_settings := fun _ => ∅;
     view_window := fun _ => None;
     expand_variables := fun v _ => v;
     the_view := 0%nat;
     view_file_name := Some "/home/u/notes.txt";
     view_match_python := false;
     view_is_read_only := false;
     environ := ∅;
     isdir := fun _ => false;
     listdir := fun _ => [];
     popen := fun _ => inr 7%nat;
     communicate := fun _ _ _ => TimedOut;
     poll := fun _ => None;
     poll_after_wait := fun _ => None;
     terminate_lookup_error := fun _ => false;
     wait_result := fun _ => Some (-15);
     perf_counter_run := 0%Q;
     perf_counter_done := 1%Q;
     id_self := 1;
     id_settings := 2;
     int_of_str := Str.ascii_int;
     os_path_dirname := Path.dirname |}.

(** A host on which the formatter cannot be started. *)
Definition no_formatter_host : Host :=
  {| NAME := "isort";
     load_settings := fun _ => ∅;
     view_settings := fun _ => ∅;
     view_window := fun _ => None;
     expand_variables := fun v _ => v;
     the_view := 0%nat;
     view_file_name := Some example_file;
     view_match_python := true;
     view_is_read_only := false;
     environ := ∅;
     isdir := fun _ => false;
     listdir := fun _ => [];
     popen := fun _ => inl (Exn OSError "No such file or directory: 'isort'" []);
     communicate := fun _ _ _ => TimedOut;
     poll := fun _ => None;
     poll_after_wait := fun _ => None;
     terminate_lookup_error := fun _ => false;
     wait_result := fun _ => Some (-15);
     perf_counter_run := 0%Q;
     perf_counter_done := 1%Q;
     id_self := 1;
     id_settings := 2;
     int_of_str := Str.ascii_int;
     os_path_dirname := Path.dirname |}.

(** The signals sent so far begin with [l]. *)
Definition signals_begin (l : list (nat * signal)) (w : World) : Prop :=
  exists rest, signals w = l ++ rest.

(** * Properties *)

(** ** Strings and views *)

Lemma substring_all (s : string) : String.substring 0 (String.length s) s = s.
Proof. induction s as [|c s IH]; simpl; [reflexivity | by rewrite IH]. Qed.

Lemma substring_none (s : string) : String.substring (String.length s) 0 s = "".
Proof. induction s as [|c s IH]; simpl; [reflexivity | exact IH]. Qed.

Lemma substring_zero (s : string) : String.substring 0 0 s = "".
Proof. destruct s; reflexivity. Qed.

Lemma string_app_empty_r (s : string) : s +:+ "" = s.
Proof.
  induction s as [|c s IH]; [reflexivity|].
  change (String c (s +:+ "") = String c s). by rewrite IH.
Qed.

Lemma rev_app_rev_app (t acc acc' : string) :
  String.rev_app (String.rev_app t acc) acc' = String.rev_app acc (t +:+ acc').
Proof.
  revert acc. induction t as [|c t IH]; intros acc; [reflexivity|].
  cbn [String.rev_app]. rewrite IH. reflexivity.
Qed.

Lemma rev_rev (t : string) : String.rev (String.rev t) = t.
Proof.
  unfold String.rev. rewrite rev_app_rev_app. cbn [String.rev_app].
  apply string_app_empty_r.
Qed.

Lemma rev_app_In (t acc : string) (c : ascii) :
  In c (String.list_ascii_of_string (String.rev_app t acc))
  <-> In c (String.list_ascii_of_string t) \/ In c (String.list_ascii_of_string acc).
Proof.
  revert acc. induction t as [|c' t IH]; intros acc; cbn [String.rev_app].
  - simpl. tauto.
  - rewrite IH. simpl. tauto.
Qed.

Lemma app_In (s t : string) (c : ascii) :
  In c (String.list_ascii_of_string (s +:+ t))
  <-> In c (String.list_ascii_of_string s) \/ In c (String.list_ascii_of_string t).
Proof.
  induction s as [|c' s IH].
  - change ("" +:+ t) with t. simpl. tauto.
  - change (String c' s +:+ t) with (String c' (s +:+ t)). simpl. rewrite IH. tauto.
Qed.

Lemma string_app_assoc (s t u : string) : (s +:+ t) +:+ u = s +:+ (t +:+ u).
Proof.
  induction s as [|c s IH]; [reflexivity|].
  change (String c ((s +:+ t) +:+ u) = String c (s +:+ (t +:+ u))). by rewrite IH.
Qed.

Lemma rev_app_append (s acc : string) : String.rev_app s acc = String.rev s +:+ acc.
Proof.
  revert acc. induction s as [|c s IH]; intros acc; [reflexivity|].
  unfold String.rev. cbn [String.rev_app]. rewrite IH, (IH (String c "")).
  by rewrite string_app_assoc.
Qed.

Lemma rev_append (s t : string) : String.rev (s +:+ t) = String.rev t +:+ String.rev s.
Proof.
  induction s as [|c s IH].
  - change ("" +:+ t) with t. by rewrite string_app_empty_r.
  - change (String c s +:+ t) with (String c (s +:+ t)).
    unfold String.rev at 1 3. cbn [String.rev_app].
    rewrite !rev_app_append, IH. by rewrite string_app_assoc.
Qed.

(** The region [Region(0, view.size())] covers the whole text. *)
Lemma substr_whole (v : View) :
  isort_cmd.substr {| isort_cmd.a := 0; isort_cmd.b := isort_cmd.size v |} v = buffer v.
Proof.
  unfold isort_cmd.substr, isort_cmd.begin, isort_cmd.end_, isort_cmd.size; simpl.
  rewrite Nat.sub_0_r. apply substring_all.
Qed.

(** Replacing the whole region leaves exactly the new text. *)
Lemma replace_whole (v : View) (text : string) :
  buffer (isort_cmd.replace {| isort_cmd.a := 0; isort_cmd.b := isort_cmd.size v |} text v)
  = text.
Proof.
  unfold isort_cmd.replace, isort_cmd.begin, isort_cmd.end_, isort_cmd.size; simpl.
  rewrite Nat.sub_diag, substring_none, substring_zero. simpl.
  apply string_app_empty_r.
Qed.

(** ** The formatter's command line *)

(** ["/" in s], on the characters of [s]. *)
Lemma contains_slash_In (s : string) :
  Str.contains "/" s = true <-> In "/"%char (String.list_ascii_of_string s).
Proof.
  induction s as [|c s IH]; cbn [Str.contains String.list_ascii_of_string In].
  - split; [discriminate | tauto].
  - rewrite orb_true_iff, IH. cbn [String.prefix].
    destruct (ascii_dec "/" c) as [<-|Hne].
    + split; [by left | intros _; left; by destruct s].
    + split; [intros [?|?]; [discriminate | by right] | intros [?|?]; [done | by right]].
Qed.

Lemma drop_to_slash_rev_app (r t : string) :
  ~ In "/"%char (String.list_ascii_of_string r) ->
  Path.drop_to_slash_rev (r +:+ String "/" t) = String "/" t.
Proof.
  induction r as [|c r IH]; intros Hr; [reflexivity|].
  change (String c r +:+ String "/" t) with (String c (r +:+ String "/" t)).
  assert (Hc : c <> "/"%char) by (intros ->; apply Hr; by left).
  assert (Hr' : ~ In "/"%char (String.list_ascii_of_string r))
    by (intros H; apply Hr; by right).
  specialize (IH Hr'). revert IH. generalize (r +:+ String "/" t). intros u IH.
  destruct c as [[] [] [] [] [] [] [] []]; cbn [Path.drop_to_slash_rev];
    first [exact IH | by destruct Hc].
Qed.

Lemma rstrip_slash_rev_kept (r : string) :
  match r with String "/" _ => true | _ => false end = false ->
  Path.rstrip_slash_rev r = r.
Proof.
  destruct r as [|c r]; [reflexivity|].
  destruct c as [[] [] [] [] [] [] [] []]; cbn [Path.rstrip_slash_rev];
    first [reflexivity | discriminate].
Qed.

(** [posixpath.dirname] of [dir/name] is [dir], and of [/name] the root. *)
Lemma dirname_join (dir name : string) :
  Str.contains "/" name = false ->
  dir <> "" -> Path.ends_with_slash dir = false ->
  Path.dirname (dir +:+ "/" +:+ name) = dir.
Proof.
  intros Hname Hdir Hend.
  assert (Hrev : ~ In "/"%char (String.list_ascii_of_string (String.rev name))).
  { intros H. unfold String.rev in H. apply rev_app_In in H as [H|[]].
    apply contains_slash_In in H. congruence. }
  unfold Path.dirname. rewrite rev_append, rev_append, string_app_assoc.
  change (String.rev "/" +:+ String.rev dir) with (String "/" (String.rev dir)).
  rewrite (drop_to_slash_rev_app _ _ Hrev).
  cbn [Path.rstrip_slash_rev].
  unfold Path.ends_with_slash in Hend.
  rewrite (rstrip_slash_rev_kept (String.rev dir)) by exact Hend.
  destruct (String.rev dir) as [|c r] eqn:Hr.
  - destruct Hdir. by rewrite <- (rev_rev dir), Hr.
  - by rewrite <- Hr, rev_rev.
Qed.

Lemma dirname_root (name : string) :
  Str.contains "/" name = false -> Path.dirname ("/" +:+ name) = "/".
Proof.
  intros Hname.
  assert (Hrev : ~ In "/"%char (String.list_ascii_of_string (String.rev name))).
  { intros H. unfold String.rev in H. apply rev_app_In in H as [H|[]].
    apply contains_slash_In in H. congruence. }
  unfold Path.dirname. rewrite rev_append. change (String.rev "/") with "/".
  by rewrite (drop_to_slash_rev_app _ _ Hrev).
Qed.

Lemma drop_to_slash_rev_plain (r : string) :
  ~ In "/"%char (String.list_ascii_of_string r) -> Path.drop_to_slash_rev r = "".
Proof.
  induction r as [|c r IH]; intros Hr; [reflexivity|].
  assert (Hc : c <> "/"%char) by (intros ->; apply Hr; by left).
  assert (Hr' : ~ In "/"%char (String.list_ascii_of_string r))
    by (intros H; apply Hr; by right).
  specialize (IH Hr').
  destruct c as [[] [] [] [] [] [] [] []]; cbn [Path.drop_to_slash_rev];
    first [exact IH | by destruct Hc].
Qed.

(** A name without a slash has no directory part. *)
Lemma dirname_plain (name : string) :
  Str.contains "/" name = false -> Path.dirname name = "".
Proof.
  intros Hname.
  assert (Hrev : ~ In "/"%char (String.list_ascii_of_string (String.rev name))).
  { intros H. unfold String.rev in H. apply rev_app_In in H as [H|[]].
    apply contains_slash_In in H. congruence. }
  unfold Path.dirname. by rewrite (drop_to_slash_rev_plain _ Hrev).
Qed.

(** C8: [isort_file] spawns the formatter with exactly the arguments
    [exe, "--stdout", ("-c" in check mode only), "--filename", file, "-"]; the
    working directory is the given directory, and without one what
    [os.path.dirname] makes of the file, which on a POSIX system is [dir] for
    a file [dir/name], the root for a file [/name] and the empty path for a
    bare [name]; the process object returned is the one the host created for
    exactly this call. *)
Theorem isort_file_command_line (h : Host) (exe file : string) (check : bool)
    (verbose : value) (cwd : option string) (w : World) :
  let call := isort_cmd.isort_file_call h exe file check verbose cwd in
  pc_args call
    = exe :: "--stdout" :: (if check then ["-c"] else []) ++ ["--filename"; file; "-"]
  /\ pc_cwd call = match cwd with
                   | None => os_path_dirname h file
                   | Some d => d
                   end
  /\ ((forall p, os_path_dirname h p = Path.dirname p) -> cwd = None ->
      forall dir name,
        Str.contains "/" name = false ->
        (file = dir +:+ "/" +:+ name -> dir <> "" -> Path.ends_with_slash dir = false ->
         pc_cwd call = dir)
        /\ (file = "/" +:+ name -> pc_cwd call = "/")
        /\ (file = name -> pc_cwd call = ""))
  /\ pc_universal_newlines call = true /\ pc_stdin_pipe call = true
  /\ pc_stdout_pipe call = true /\ pc_stderr_pipe call = true
  /\ isort_cmd.isort_file h exe file check verbose cwd w
     = (match popen h call with
        | inl e => Raise e
        | inr n => Ok {| p_call := call; pid := n; returncode := None |}
        end, w).
Proof.
  intros call. split; [|split; [|split]].
  - subst call. destruct check; reflexivity.
  - reflexivity.
  - intros Hposix -> dir name Hname. subst call. cbn [isort_cmd.isort_file_call pc_cwd].
    rewrite Hposix. split; [|split].
    + intros -> Hdir Hend. by apply dirname_join.
    + intros ->. by apply dirname_root.
    + intros ->. by apply dirname_plain.
  - repeat split.
    unfold isort_cmd.isort_file. fold call. destruct (popen h call); reflexivity.
Qed.

Lemma isort_file_command_line_witness :
  pc_cwd (isort_cmd.isort_file_call (example_host ∅ ∅ (fun _ => TimedOut)) "isort"
            "/home/u/proj/a.py" false (VBool false) None) = "/home/u/proj".
Proof.
  destruct (isort_file_command_line (example_host ∅ ∅ (fun _ => TimedOut)) "isort"
              "/home/u/proj/a.py" false (VBool false) None (idle_world ""))
    as (_ & _ & Hposix & _).
  destruct (Hposix (fun _ => eq_refl) eq_refl "/home/u/proj" "a.py" eq_refl) as [Hdir _].
  apply Hdir; [reflexivity | discriminate | reflexivity].
Defined.

(** On the host of the examples, a POSIX system, the formatter runs in the
    directory of the file. *)
Example isort_file_example :
  pc_cwd (isort_cmd.isort_file_call (example_host ∅ ∅ (fun _ => TimedOut)) "isort"
            "/home/u/proj/a.py" false (VBool false) None) = "/home/u/proj"
  /\ pc_cwd (isort_cmd.isort_file_call (example_host ∅ ∅ (fun _ => TimedOut)) "isort"
               "/a.py" false (VBool false) None) = "/".
Proof. split; reflexivity. Qed.

(** ** Logger configuration *)

Lemma configure_logger_handlers (h : Host) (lg : Logging.Logger) :
  exists lg', utils.configure_logger h lg = inr lg'
    /\ Logging.level lg' = Logging.INFO
    /\ Logging.propagate lg' = false
    /\ Logging.records lg' = Logging.records lg
    /\ Logging.parent_level lg' = Logging.parent_level lg
    /\ exists h0,
         Logging.handlers lg'
         = [ Logging.setFormatter
               {| Logging.fmt := utils.logger_format h; Logging.style := "{";
                  Logging.datefmt := "%Y-%m-%d %H:%M:%S" |} h0 ].
Proof.
  destruct lg as [lv pl pr hs rs].
  destruct hs as [|h0 [|h1 hs]]; eexists; (split; [reflexivity|]);
    repeat split; eexists; reflexivity.
Qed.

(** C10: after [configure_logger] the logger has exactly one handler,
    whatever handlers it had before; the call never fails, and configuring a
    second time changes nothing. *)
Theorem configure_logger_one_handler (h : Host) (lg : Logging.Logger) :
  exists lg',
    utils.configure_logger h lg = inr lg'
    /\ length (Logging.handlers lg') = 1%nat
    /\ utils.configure_logger h lg' = inr lg'.
Proof.
  destruct lg as [lv pl pr hs rs].
  destruct hs as [|h0 [|h1 hs]]; eexists; (split; [reflexivity|]);
    split; reflexivity.
Qed.

(** ** Rules for [triple] and [inv] *)

Lemma triple_ret {A} (P : World -> Prop) (x : A) Q E :
  (forall w, P w -> Q x w) -> triple P (ret x) Q E.
Proof. intros H w Hw. simpl. auto. Qed.

Lemma triple_raise {A} (P : World -> Prop) (e : exn) (Q : A -> World -> Prop) E :
  (forall w, P w -> E e w) -> triple P (raise e) Q E.
Proof. intros H w Hw. simpl. auto. Qed.

Lemma triple_gets {A} (P : World -> Prop) (f : World -> A) Q E :
  (forall w, P w -> Q (f w) w) -> triple P (gets f) Q E.
Proof. intros H w Hw. simpl. auto. Qed.

Lemma triple_modify (P : World -> Prop) (f : World -> World) Q E :
  (forall w, P w -> Q tt (f w)) -> triple P (modify f) Q E.
Proof. intros H w Hw. simpl. auto. Qed.

Lemma triple_bind {A B} (P : World -> Prop) (m : M A) (k : A -> M B)
    (Q : A -> World -> Prop) (R : B -> World -> Prop) E :
  triple P m Q E -> (forall x, triple (Q x) (k x) R E) -> triple P (bind m k) R E.
Proof.
  intros Hm Hk w Hw. unfold bind. specialize (Hm w Hw).
  destruct (m w) as [[x|e] w']; [exact (Hk x w' Hm) | exact Hm].
Qed.

Lemma triple_try_except {A} (P : World -> Prop) (m : M A) (cls : exn_class)
    (hd : exn -> M A) (Pe : exn -> World -> Prop) Q E :
  triple P m Q (fun e w => if bool_decide (e_class e = cls) then Pe e w else E e w) ->
  (forall e, triple (Pe e) (hd e) Q E) ->
  triple P (try_except m cls hd) Q E.
Proof.
  intros Hm Hh w Hw. unfold try_except. specialize (Hm w Hw).
  destruct (m w) as [[x|e] w']; [exact Hm|].
  destruct (bool_decide (e_class e = cls)); [exact (Hh e w' Hm) | exact Hm].
Qed.

Lemma triple_weaken {A} (P P' : World -> Prop) (m : M A)
    (Q Q' : A -> World -> Prop) (E E' : exn -> World -> Prop) :
  triple P' m Q' E' ->
  (forall w, P w -> P' w) -> (forall x w, Q' x w -> Q x w) ->
  (forall e w, E' e w -> E e w) ->
  triple P m Q E.
Proof.
  intros Hm HP HQ HE w Hw. specialize (Hm w (HP w Hw)).
  destruct (m w) as [[x|e] w']; auto.
Qed.

Lemma inv_final {A} (I : World -> Prop) (m : M A) (w : World) :
  inv I m -> I w -> I (snd (m w)).
Proof. intros Hm Hw. specialize (Hm w Hw). destruct (m w) as [[x|e] w']; exact Hm. Qed.

Lemma inv_ret {A} I (x : A) : inv I (ret x).
Proof. apply triple_ret; auto. Qed.

Lemma inv_raise {A} I (e : exn) : inv I (raise e : M A).
Proof. apply triple_raise; auto. Qed.

Lemma inv_gets {A} I (f : World -> A) : inv I (gets f).
Proof. apply triple_gets; auto. Qed.

Lemma inv_modify I (f : World -> World) : (forall w, I w -> I (f w)) -> inv I (modify f).
Proof. intros H. apply triple_modify; auto. Qed.

Lemma inv_bind {A B} I (m : M A) (k : A -> M B) :
  inv I m -> (forall x, inv I (k x)) -> inv I (bind m k).
Proof. intros Hm Hk. eapply triple_bind; [exact Hm | exact Hk]. Qed.

Lemma inv_try_except {A} I (m : M A) cls (hd : exn -> M A) :
  inv I m -> (forall e, inv I (hd e)) -> inv I (try_except m cls hd).
Proof.
  intros Hm Hh. apply triple_try_except with (Pe := fun _ => I); [|exact Hh].
  eapply triple_weaken; [exact Hm | auto | auto |].
  intros e w Hw. destruct (bool_decide (e_class e = cls)); exact Hw.
Qed.

Lemma inv_for_each {A} I (xs : list A) (body : A -> M unit) :
  (forall x, x ∈ xs -> inv I (body x)) -> inv I (for_each xs body).
Proof.
  induction xs as [|x xs IH]; intros H; simpl.
  - apply inv_ret.
  - apply inv_bind.
    + apply H. left.
    + intros _. apply IH. intros y Hy. apply H. by right.
Qed.

Lemma inv_log_call I lvl fmt a : ignores_logger I -> inv I (log_call lvl fmt a).
Proof. intros H. apply inv_modify. intros w. apply H. Qed.

Lemma inv_print I s : ignores_console I -> inv I (print s).
Proof. intros H. apply inv_modify. intros w. apply H. Qed.
(** ** Invariants of the settings object *)

Section SettingsInvariant.

Context (h : Host) (I : World -> Prop).
Hypothesis I_logger : ignores_logger I.
Hypothesis I_handle : ignores_settings_handle I.
Hypothesis I_key :
  forall vw name key, key ∈ settings_py.default_keys ->
    inv I (settings_py.update_key h (flat_of h vw) (nested_of h vw)
             (load_settings h name) key).

Lemma lookup_current_inv key : inv I (settings_py.lookup_current key).
Proof.
  unfold settings_py.lookup_current. apply inv_bind; [apply inv_gets|].
  intros s. destruct (current_settings s !! key); [apply inv_ret | apply inv_raise].
Qed.

Lemma getattr_with_inv (reload : M unit) key :
  inv I reload -> inv I (settings_py.getattr_with reload key).
Proof.
  intros Hr. unfold settings_py.getattr_with.
  apply inv_bind; [apply inv_gets|]. intros s.
  apply inv_bind; [|intros _; apply lookup_current_inv].
  destruct (_settings s), (view s); auto using @inv_ret.
Qed.

Lemma logger_setLevel_inv lvl : inv I (settings_py.logger_setLevel lvl).
Proof.
  unfold settings_py.logger_setLevel. apply inv_bind; [apply inv_gets|]. intros lg.
  destruct (Logging.setLevel lvl lg); [apply inv_raise|].
  apply inv_modify. intros w. apply I_logger.
Qed.

Lemma set_log_level_with_inv (reload : M unit) :
  inv I reload -> inv I (settings_py.set_log_level_with reload).
Proof.
  intros Hr. unfold settings_py.set_log_level_with.
  apply inv_bind; [by apply getattr_with_inv|]. intros lvl.
  assert (Htry : inv I
    (try_except (settings_py.logger_setLevel lvl) ValueError
       (fun e =>
          modify (with_logger (Logging.log Logging.ERROR (Logging.OfExn e) [])) ;;;
          settings_py.logger_setLevel (VInt Logging.WARNING) ;;;
          log_error "Falling back to level=WARNING" []))).
  { apply inv_try_except; [apply logger_setLevel_inv|]. intros e.
    apply inv_bind; [apply inv_modify; intros w; apply I_logger|]. intros _.
    apply inv_bind; [apply logger_setLevel_inv|]. intros _.
    by apply inv_log_call. }
  destruct lvl; first [apply inv_ret | exact Htry].
Qed.

Lemma update_settings_with_inv (reload : M unit) :
  inv I reload -> inv I (settings_py.update_settings_with reload h).
Proof.
  intros Hr. unfold settings_py.update_settings_with.
  apply inv_bind; [by apply inv_log_call|]. intros _.
  apply inv_bind; [apply inv_gets|]. intros s.
  apply inv_bind.
  { destruct (_settings s); [apply inv_ret|].
    apply inv_bind; [by apply inv_log_call | intros _; apply inv_ret]. }
  intros name.
  apply inv_bind; [|intros _; by apply set_log_level_with_inv].
  apply inv_for_each. intros key Hkey.
  specialize (I_key (view s) name key Hkey).
  destruct (view s); exact I_key.
Qed.

Lemma _load_inv : inv I (settings_py._load h).
Proof.
  unfold settings_py._load. apply inv_modify. intros w. apply I_handle. reflexivity.
Qed.

Lemma load_with_inv (reload : M unit) vw force :
  inv I reload -> inv I (settings_py.load_with reload h vw force).
Proof.
  intros Hr. unfold settings_py.load_with.
  apply inv_bind.
  { destruct vw; [|apply inv_ret]. apply inv_modify. intros w. by apply I_handle. }
  intros _. apply inv_bind; [apply inv_gets|]. intros s.
  apply inv_bind.
  { destruct (_ || _ || _); [|apply inv_ret].
    apply inv_bind; [apply _load_inv|]. intros _. by apply update_settings_with_inv. }
  intros _. apply inv_bind; [apply inv_gets|]. intros s'.
  apply inv_bind; [by apply inv_log_call | intros _; apply inv_ret].
Qed.

Lemma load_inv vw force : inv I (settings_py.load h vw force).
Proof. apply load_with_inv, inv_raise. Qed.

Lemma reload_inv : inv I (settings_py.reload h).
Proof.
  unfold settings_py.reload. apply inv_bind; [apply load_inv | intros _; apply inv_ret].
Qed.

Lemma getattr_inv key : inv I (settings_py.__getattr__ h key).
Proof. apply getattr_with_inv, reload_inv. Qed.

Lemma set_log_level_inv : inv I (settings_py.set_log_level h).
Proof. apply set_log_level_with_inv, reload_inv. Qed.

Lemma update_settings_inv : inv I (settings_py.update_settings h).
Proof. apply update_settings_with_inv, reload_inv. Qed.

End SettingsInvariant.

(** [update_key] touches the settings and the logger only. *)
Lemma assign_inv h (I : World -> Prop) key v :
  ignores_settings I -> inv I (settings_py.assign h key v).
Proof. intros H. apply inv_modify. intros w. apply H. Qed.

Lemma value_get_inv (I : World -> Prop) obj key dflt :
  inv I (settings_py.value_get obj key dflt).
Proof. destruct obj; first [apply inv_ret | apply inv_raise]. Qed.

Lemma update_key_frame h (I : World -> Prop) flat nested store key :
  ignores_logger I -> ignores_settings I ->
  inv I (settings_py.update_key h flat nested store key).
Proof.
  intros HL HS. unfold settings_py.update_key.
  destruct (settings_py.is_set _).
  { apply inv_bind; [by apply inv_log_call | intros _; by apply assign_inv]. }
  apply inv_bind; [apply value_get_inv|]. intros v.
  destruct (settings_py.is_set v).
  { apply inv_bind; [by apply inv_log_call | intros _; by apply assign_inv]. }
  destruct (settings_py.is_set _); [|apply inv_ret].
  apply inv_bind; [by apply inv_log_call | intros _; by apply assign_inv].
Qed.

Lemma ignores_settings_handle_of (I : World -> Prop) :
  ignores_settings I -> ignores_settings_handle I.
Proof. intros H f w _. apply H. Qed.

(** ** Invariants of the command *)

Section CommandInvariant.

Context (h : Host) (I : World -> Prop).
Hypothesis I_logger : ignores_logger I.
Hypothesis I_settings : ignores_settings I.
Hypothesis I_self : ignores_self I.
Hypothesis I_console : ignores_console I.
Hypothesis I_signals : ignores_signals I.
Hypothesis I_timeouts : ignores_timeouts I.
Hypothesis I_status :
  forall key text w, I w -> I (with_view (isort_cmd.view_set_status key text) w).

Lemma cmd_load_inv vw force : inv I (settings_py.load h vw force).
Proof.
  apply load_inv; auto using ignores_settings_handle_of.
  intros. by apply update_key_frame.
Qed.

Lemma cmd_getattr_inv key : inv I (settings_py.__getattr__ h key).
Proof.
  apply getattr_inv; auto using ignores_settings_handle_of.
  intros. by apply update_key_frame.
Qed.

Lemma terminate_inv p : inv I (utils.terminate h p).
Proof.
  unfold utils.terminate. destruct (returncode (utils.polled h p)); [apply inv_ret|].
  apply inv_bind; [apply inv_modify; intros w; apply I_signals|]. intros _.
  destruct (terminate_lookup_error _ _); [apply inv_raise | apply inv_ret].
Qed.

Lemma kill_inv p : inv I (utils.kill h p).
Proof.
  unfold utils.kill. destruct (returncode (utils.polled_after_wait h p)); [apply inv_ret|].
  apply inv_modify; intros w; apply I_signals.
Qed.

Lemma wait_inv p : inv I (utils.wait h p).
Proof.
  unfold utils.wait. destruct (returncode p); [apply inv_ret|].
  destruct (wait_result _ _); [apply inv_ret | apply inv_raise].
Qed.

Lemma kill_proc_inv p : inv I (utils.kill_proc h p).
Proof.
  unfold utils.kill_proc. apply inv_bind.
  { apply inv_try_except; [|intros _; apply inv_ret].
    apply inv_bind; [apply terminate_inv | intros _; apply inv_ret]. }
  intros [|]; cbv zeta; [|apply inv_ret].
  apply inv_try_except; [apply wait_inv|]. intros _.
  apply inv_bind; [apply kill_inv | intros _; apply inv_ret].
Qed.

Lemma set_status_inv text : inv I (isort_cmd.set_status text).
Proof.
  unfold isort_cmd.set_status.
  apply inv_bind; [apply inv_modify; intros w; apply I_status|]. intros _.
  apply inv_modify; intros w; apply I_timeouts.
Qed.

Lemma cmd_kill_inv : inv I (isort_cmd.kill h).
Proof.
  unfold isort_cmd.kill. apply inv_bind; [apply inv_gets|]. intros c.
  destruct (proc c); [|apply inv_ret].
  apply inv_bind; [apply inv_modify; intros w; apply I_self|]. intros _.
  apply terminate_inv.
Qed.

Lemma get_active_file_inv : inv I (isort_cmd.get_active_file h).
Proof.
  unfold isort_cmd.get_active_file. destruct (negb _); [|apply inv_ret].
  apply inv_bind; [by apply inv_log_call | intros _; apply inv_ret].
Qed.

Lemma isort_file_inv exe file check verbose cwd :
  inv I (isort_cmd.isort_file h exe file check verbose cwd).
Proof.
  unfold isort_cmd.isort_file. destruct (popen _ _); [apply inv_raise | apply inv_ret].
Qed.

Lemma proc_communicate_inv p cts timeout :
  inv I (isort_cmd.proc_communicate h p cts timeout).
Proof.
  unfold isort_cmd.proc_communicate.
  destruct (communicate _ _ _ _); [|apply inv_raise..].
  apply inv_bind; [apply inv_modify; intros w; apply I_self | intros _; apply inv_ret].
Qed.

End CommandInvariant.

(** ** The text of the view *)

Lemma triple_pure {A} (F : Prop) (P : World -> Prop) (m : M A) Q E :
  (F -> triple P m Q E) -> triple (fun w => P w /\ F) m Q E.
Proof. intros H w [Hw HF]. exact (H HF w Hw). Qed.

Lemma buffer_is_ignores b :
  ignores_logger (buffer_is b) /\ ignores_settings (buffer_is b) /\
  ignores_self (buffer_is b) /\ ignores_console (buffer_is b) /\
  ignores_signals (buffer_is b) /\ ignores_timeouts (buffer_is b) /\
  (forall key text w, buffer_is b w ->
     buffer_is b (with_view (isort_cmd.view_set_status key text) w)).
Proof. repeat split; intros ? ?; intros; assumption. Qed.

Ltac buffer_frame :=
  match goal with
  | |- inv (buffer_is ?b) _ =>
      destruct (buffer_is_ignores b) as (? & ? & ? & ? & ? & ? & ?)
  | |- triple (buffer_is ?b) _ _ _ =>
      destruct (buffer_is_ignores b) as (? & ? & ? & ? & ? & ? & ?)
  end.

(** [do_isort] leaves the text alone in check mode, and also when the
    formatter returns the text it was given. *)
Lemma do_isort_keeps_buffer h file check b :
  check = true \/ formatter_echoes h b ->
  inv (buffer_is b) (isort_cmd.do_isort h file check).
Proof.
  intros Hside. buffer_frame. unfold isort_cmd.do_isort.
  apply inv_bind; [apply inv_gets|]. intros c.
  destruct (proc c) as [p|]; [|apply inv_ret].
  apply inv_bind; [by apply inv_log_call|]. intros _.
  apply inv_bind; [by apply cmd_getattr_inv|]. intros timeout.
  apply triple_bind with (Q := fun vw w => buffer_is b w /\ buffer vw = b).
  { apply triple_gets. intros w Hw. split; [exact Hw | exact Hw]. }
  intros vw. apply triple_pure. intros Hvw.
  rewrite substr_whole, Hvw.
  set (sel := {| isort_cmd.a := 0%nat; isort_cmd.b := isort_cmd.size vw |}).
  apply triple_bind with
    (Q := fun o w => buffer_is b w /\
            (check = true \/ forall out, isort_cmd.stdout o = Some out -> out = b)).
  { apply triple_try_except with (Pe := fun _ => buffer_is b).
    - apply triple_bind with
        (Q := fun r w => buffer_is b w /\ (check = true \/ fst r = b)).
      + unfold isort_cmd.proc_communicate.
        destruct (communicate h (pid p) b timeout) as [out err code| |e] eqn:Hc.
        * apply triple_bind with (Q := fun _ => buffer_is b).
          { apply triple_modify. intros w Hw. by apply H1. }
          intros _. apply triple_ret. intros w Hw. split; [exact Hw|].
          destruct Hside as [Hchk|He]; [by left | right].
          exact (He _ _ _ _ _ Hc).
        * apply triple_raise. intros w Hw. exact Hw.
        * apply triple_raise. intros w Hw.
          destruct (bool_decide (e_class e = TimeoutExpired)); exact Hw.
      + intros r. apply triple_ret. intros w [Hw Hr]. split; [exact Hw|].
        destruct Hr as [Hchk|Hr]; [by left | right].
        simpl. intros out' [= <-]. exact Hr.
    - intros e. eapply triple_bind; [by apply kill_proc_inv|]. intros p'.
      eapply triple_bind; [apply inv_modify; intros w; apply H1|]. intros ?.
      apply triple_ret. intros w Hw. split; [exact Hw | right]. simpl. by intros out. }
  intros o. apply triple_pure. intros Ho.
  apply inv_bind; [apply inv_gets|]. intros c'.
  apply inv_bind.
  { destruct (start_time c'); [apply inv_ret | apply inv_raise]. }
  intros elapsed.
  apply inv_bind; [by apply inv_log_call|]. intros _.
  apply inv_bind; [by apply inv_log_call|]. intros _.
  apply inv_bind.
  { destruct (_ && _); [by apply set_status_inv|].
    destruct (isort_cmd.timed_out o); [by apply set_status_inv|].
    destruct (isort_cmd.stderr o); [|apply inv_ret].
    apply inv_bind; [by apply inv_print|]. intros _.
    apply inv_bind; [by apply inv_log_call|]. intros _. by apply set_status_inv. }
  intros _. apply inv_bind; [|intros _; apply inv_modify; intros w; apply H1].
  destruct (isort_cmd.stdout o) as [out|]; [|apply inv_ret].
  destruct (negb (String.eqb out b) && negb check) eqn:Hcond; [|apply inv_ret].
  exfalso. apply andb_prop in Hcond as [Hne Hchk].
  destruct Ho as [Hchk'|Ho]; [rewrite Hchk' in Hchk; discriminate|].
  rewrite (Ho out eq_refl), String.eqb_refl in Hne. discriminate.
Qed.

(** The same for the whole command [run]. *)
Lemma run_keeps_buffer h check kill_flag b :
  check = true \/ formatter_echoes h b ->
  inv (buffer_is b) (isort_cmd.run h check kill_flag).
Proof.
  intros Hside. buffer_frame. unfold isort_cmd.run.
  apply inv_bind; [by apply cmd_load_inv|]. intros _.
  apply inv_bind; [by apply inv_log_call|]. intros _.
  destruct kill_flag; [by apply cmd_kill_inv|].
  apply inv_bind; [apply inv_gets|]. intros c.
  apply inv_bind.
  { destruct (proc c); [|apply inv_ret].
    apply inv_bind; [by apply kill_proc_inv|]. intros _.
    apply inv_modify. intros w. apply H1. }
  intros _. apply inv_bind; [by apply get_active_file_inv|]. intros [file|]; [|apply inv_ret].
  apply inv_bind; [apply inv_modify; intros w; apply H1|]. intros _.
  apply inv_bind; [by apply inv_log_call|]. intros _.
  apply inv_bind; [by apply cmd_getattr_inv|]. intros verbose.
  apply inv_bind; [by apply cmd_getattr_inv|]. intros path. cbv zeta.
  apply inv_bind; [apply inv_modify; intros w; apply H1|]. intros _.
  apply inv_bind.
  { destruct (if truthy path then path else VStr "isort");
      first [by apply isort_file_inv | apply inv_raise]. }
  intros p.
  apply inv_bind; [apply inv_modify; intros w; apply H1|]. intros _.
  by apply do_isort_keeps_buffer.
Qed.

(** C4: in check mode the text of the view is never modified: neither by
    [do_isort] nor by the whole command [run], whatever the formatter
    returns and however the command ends. *)
Theorem check_mode_keeps_buffer (h : Host) (file : string) (kill_flag : bool) (w : World) :
  buffer (the_buffer (snd (isort_cmd.do_isort h file true w))) = buffer (the_buffer w)
  /\ buffer (the_buffer (snd (isort_cmd.run h true kill_flag w))) = buffer (the_buffer w).
Proof.
  split.
  - apply (inv_final (buffer_is (buffer (the_buffer w)))); [|reflexivity].
    apply do_isort_keeps_buffer. by left.
  - apply (inv_final (buffer_is (buffer (the_buffer w)))); [|reflexivity].
    apply run_keeps_buffer. by left.
Qed.

(** C5: when the formatter returns exactly the text of the view, the text is
    not modified, in check mode or not: neither by [do_isort] nor by the whole
    command [run]. *)
Theorem same_output_keeps_buffer (h : Host) (file : string) (check kill_flag : bool)
    (w : World) :
  formatter_echoes h (buffer (the_buffer w)) ->
  buffer (the_buffer (snd (isort_cmd.do_isort h file check w))) = buffer (the_buffer w)
  /\ buffer (the_buffer (snd (isort_cmd.run h check kill_flag w))) = buffer (the_buffer w).
Proof.
  intros He. split.
  - apply (inv_final (buffer_is (buffer (the_buffer w)))); [|reflexivity].
    apply do_isort_keeps_buffer. by right.
  - apply (inv_final (buffer_is (buffer (the_buffer w)))); [|reflexivity].
    apply run_keeps_buffer. by right.
Qed.

(** ** Running [do_isort] *)

Lemma getattr_loaded h key w name v :
  _settings (settings w) = Some name ->
  current_settings (settings w) !! key = Some v ->
  settings_py.__getattr__ h key w = (Ok v, w).
Proof.
  intros Hs Hv.
  unfold settings_py.__getattr__, settings_py.getattr_with, settings_py.lookup_current,
    bind, gets.
  rewrite Hs. simpl. rewrite Hv. reflexivity.
Qed.

(** The poll leaves a process without exit code only when the process object
    held none and the process still runs. *)
Lemma polled_None h p :
  returncode (utils.polled h p) = None -> returncode p = None /\ poll h (pid p) = None.
Proof.
  unfold utils.polled, utils.poll_stores. destruct (returncode p) eqn:Hrc; [congruence|].
  destruct (poll h (pid p)); [discriminate | by rewrite Hrc].
Qed.

(** What [kill_proc] does, case by case: the signals it adds and the exit
    code the process object holds afterwards. *)
Lemma kill_proc_run h p w :
  exists p' extra,
    utils.kill_proc h p w = (Ok p', with_signals (fun s => s ++ extra) w)
    /\ extra
       = match returncode p with
         | Some _ => []
         | None =>
             match poll h (pid p) with
             | Some _ => []
             | None =>
                 if terminate_lookup_error h (pid p) then [(pid p, SIGTERM)]
                 else match wait_result h (pid p) with
                      | Some _ => [(pid p, SIGTERM)]
                      | None =>
                          match poll_after_wait h (pid p) with
                          | Some _ => [(pid p, SIGTERM)]
                          | None => [(pid p, SIGTERM); (pid p, SIGKILL)]
                          end
                      end
             end
         end
    /\ returncode p'
       = match returncode p with
         | Some rc => Some rc
         | None =>
             match poll h (pid p) with
             | Some rc => Some rc
             | None =>
                 if terminate_lookup_error h (pid p) then None
                 else match wait_result h (pid p) with
                      | Some rc => Some rc
                      | None => poll_after_wait h (pid p)
                      end
             end
         end.
Proof.
  destruct w as [st lg sf vw co sg ti sp].
  unfold utils.kill_proc, utils.terminate, utils.wait, utils.kill, utils.polled,
    utils.polled_after_wait, utils.poll_stores, bind, try_except, modify, with_signals.
  destruct (returncode p) as [rc|] eqn:Hrc;
    [|destruct (poll h (pid p)) as [rc|] eqn:Hpoll;
      [|destruct (terminate_lookup_error h (pid p)) eqn:Hl;
        [|destruct (wait_result h (pid p)) as [rc|] eqn:Hw;
          [|destruct (poll_after_wait h (pid p)) as [rc|] eqn:Hlate]]]];
    repeat (progress (simpl; rewrite ?Hrc, ?Hpoll, ?Hl, ?Hw, ?Hlate)).
  - exists p, []. rewrite app_nil_r. by repeat split.
  - eexists _, []. rewrite app_nil_r. by repeat split.
  - exists p, [(pid p, SIGTERM)]. by repeat split.
  - eexists _, [(pid p, SIGTERM)]. by repeat split.
  - eexists _, [(pid p, SIGTERM)]. by repeat split.
  - exists p, [(pid p, SIGTERM); (pid p, SIGKILL)].
    rewrite <- app_assoc. by repeat split.
Qed.

(** A process that still runs is sent the termination signal first. *)
Lemma kill_proc_running h p w :
  returncode p = None -> poll h (pid p) = None ->
  exists p' extra,
    utils.kill_proc h p w
    = (Ok p', with_signals (fun s => s ++ (pid p, SIGTERM) :: extra) w)
    /\ (extra = [] \/ extra = [(pid p, SIGKILL)]).
Proof.
  intros Hrc Hpoll. destruct (kill_proc_run h p w) as (p' & extra & Hk & He & _).
  rewrite Hrc, Hpoll in He. rewrite Hk.
  destruct (terminate_lookup_error h (pid p)).
  - exists p', []. rewrite He. split; [reflexivity | by left].
  - destruct (wait_result h (pid p)); [|destruct (poll_after_wait h (pid p))].
    + exists p', []. rewrite He. split; [reflexivity | by left].
    + exists p', []. rewrite He. split; [reflexivity | by left].
    + exists p', [(pid p, SIGKILL)]. rewrite He. split; [reflexivity | by right].
Qed.

Lemma bind_gets {A B} (f : World -> A) (k : A -> M B) w : bind (gets f) k w = k (f w) w.
Proof. reflexivity. Qed.

Lemma bind_modify {B} (f : World -> World) (k : unit -> M B) w :
  bind (modify f) k w = k tt (f w).
Proof. reflexivity. Qed.

Lemma bind_ret {A B} (x : A) (k : A -> M B) w : bind (ret x) k w = k x w.
Proof. reflexivity. Qed.

Lemma bind_raise {A B} (e : exn) (k : A -> M B) w : bind (raise e) k w = (Raise e, w).
Proof. reflexivity. Qed.

Lemma bind_log_call {B} lvl fmt a (k : unit -> M B) w :
  bind (log_call lvl fmt a) k w
  = k tt (with_logger (Logging.log lvl (Logging.Text fmt) a) w).
Proof. reflexivity. Qed.

Lemma bind_print {B} s (k : unit -> M B) w :
  bind (print s) k w = k tt (with_console (fun c => c ++ [s]) w).
Proof. reflexivity. Qed.

Lemma bind_ok {A B} (m : M A) (k : A -> M B) w x w' :
  m w = (Ok x, w') -> bind m k w = k x w'.
Proof. intros H. unfold bind. by rewrite H. Qed.

Lemma bind_assoc {A B C} (m : M A) (k : A -> M B) (k' : B -> M C) w :
  bind (bind m k) k' w = bind m (fun x => bind (k x) k') w.
Proof. unfold bind. destruct (m w) as [[x|e] w']; reflexivity. Qed.

Lemma try_except_ok {A} (m : M A) cls hd w x w' :
  m w = (Ok x, w') -> try_except m cls hd w = (Ok x, w').
Proof. intros H. unfold try_except. by rewrite H. Qed.

Lemma try_except_caught {A} (m : M A) cls hd w e w' :
  m w = (Raise e, w') -> e_class e = cls -> try_except m cls hd w = hd e w'.
Proof.
  intros H Hc. unfold try_except. rewrite H.
  by rewrite bool_decide_eq_true_2.
Qed.

#[local] Arguments Logging.log : simpl never.
#[local] Arguments isort_cmd.substr : simpl never.
#[local] Arguments isort_cmd.replace : simpl never.

Ltac run_step :=
  first
    [ rewrite bind_assoc
    | rewrite bind_gets
    | rewrite bind_log_call
    | rewrite bind_print
    | rewrite bind_modify
    | rewrite bind_ret
    | rewrite bind_raise ];
  cbv beta.


(** The signals [kill_proc] sends to a process whose exit code the process
    object does not hold: none when the poll of [terminate] finds that the
    process has exited; the termination signal otherwise, followed by the
    kill signal when the process does not exit within the wait, and the poll
    of [kill] finds it running still. *)
Lemma do_isort_timeout (h : Host) (file : string) (check : bool) (w : World)
    (p : Popen) (t0 : Q) (name : string) (tv : value) :
  proc (self w) = Some p -> returncode p = None -> start_time (self w) = Some t0 ->
  _settings (settings w) = Some name ->
  current_settings (settings w) !! "timeout" = Some tv ->
  communicate h (pid p) (buffer (the_buffer w)) tv = TimedOut ->
  exists p',
    isort_cmd.do_isort h file check w
    = (Ok tt,
       with_self (isort_cmd.set_proc None)
         (with_timeouts (fun t => t ++ [1000])
            (with_view (isort_cmd.view_set_status "isort" "isort(timeout)")
               (with_logger (emit [sorted_call h file t0;
                                   call Logging.INFO "[%s]" [VStr "Cancelled"]])
                  (with_self (isort_cmd.set_proc (Some p'))
                     (with_signals
                        (fun s =>
                           s ++ match poll h (pid p) with
                                | Some _ => []
                                | None =>
                                    if terminate_lookup_error h (pid p)
                                    then [(pid p, SIGTERM)]
                                    else match wait_result h (pid p) with
                                         | Some _ => [(pid p, SIGTERM)]
                                         | None =>
                                             match poll_after_wait h (pid p) with
                                             | Some _ => [(pid p, SIGTERM)]
                                             | None => [(pid p, SIGTERM); (pid p, SIGKILL)]
                                             end
                                         end
                                end)
                        (with_logger (emit [cmd_call p]) w))))))).
Proof.
  intros Hp Hrc Ht0 Hs Htv Hc.
  set (w1 := with_logger (emit [cmd_call p]) w).
  destruct (kill_proc_run h p w1) as (p' & extra & Hk & He & _).
  rewrite Hrc in He. subst extra.
  exists p'.
  unfold isort_cmd.do_isort, log_debug, log_info, log_warning, log_error.
  run_step. rewrite Hp. run_step.
  erewrite bind_ok; [|by apply getattr_loaded with (name := name)].
  run_step. simpl the_buffer. rewrite substr_whole.
  erewrite bind_ok; cycle 1.
  { erewrite try_except_caught; cycle 1.
    { unfold isort_cmd.proc_communicate. rewrite Hc. run_step. reflexivity. }
    { reflexivity. }
    cbv beta. erewrite bind_ok; [|exact Hk]. cbv beta. run_step. reflexivity. }
  run_step. simpl. rewrite Ht0, andb_false_r. repeat run_step.
  unfold isort_cmd.set_status. repeat run_step.
  reflexivity.
Qed.

(** C3: when the formatter does not answer within the timeout, the process
    is terminated: it is sent the termination signal, and the kill signal
    after it when it has not exited by the end of the wait, nor by the poll
    of [kill] after it; nothing is sent only to a process that the poll of
    [terminate] finds to have exited (an interpreter from 3.9 on).  The run is logged as cancelled at INFO level
    and nothing is logged above that level or printed, the status reads
    [isort(timeout)], and the text of the view is left as it was. *)
Theorem timeout_cancels (h : Host) (file : string) (check : bool) (w : World)
    (p : Popen) (t0 : Q) (name : string) (tv : value) :
  proc (self w) = Some p -> returncode p = None -> start_time (self w) = Some t0 ->
  _settings (settings w) = Some name ->
  current_settings (settings w) !! "timeout" = Some tv ->
  communicate h (pid p) (buffer (the_buffer w)) tv = TimedOut ->
  let r := isort_cmd.do_isort h file check w in
  fst r = Ok tt
  /\ signals (snd r)
     = signals w
       ++ match poll h (pid p) with
          | Some _ => []
          | None =>
              if terminate_lookup_error h (pid p) then [(pid p, SIGTERM)]
              else match wait_result h (pid p) with
                   | Some _ => [(pid p, SIGTERM)]
                   | None =>
                       match poll_after_wait h (pid p) with
                       | Some _ => [(pid p, SIGTERM)]
                       | None => [(pid p, SIGTERM); (pid p, SIGKILL)]
                       end
                   end
          end
  /\ logger (snd r)
     = emit [cmd_call p; sorted_call h file t0; call Logging.INFO "[%s]" [VStr "Cancelled"]]
            (logger w)
  /\ status (the_buffer (snd r)) = <["isort" := "isort(timeout)"]> (status (the_buffer w))
  /\ buffer (the_buffer (snd r)) = buffer (the_buffer w)
  /\ console (snd r) = console w
  /\ proc (self (snd r)) = None.
Proof.
  intros Hp Hrc Ht0 Hs Htv Hc r. subst r.
  destruct (do_isort_timeout h file check w p t0 name tv Hp Hrc Ht0 Hs Htv Hc)
    as (p' & ->).
  simpl. by repeat split.
Qed.

Lemma emit_app calls calls' lg : emit (calls ++ calls') lg = emit calls' (emit calls lg).
Proof. unfold emit. by rewrite foldl_app. Qed.

Lemma log_level lvl m a lg : Logging.level (Logging.log lvl m a lg) = Logging.level lg.
Proof. unfold Logging.log. by destruct (Logging.isEnabledFor lg lvl). Qed.



Lemma log_records lvl m a lg :
  Logging.records (Logging.log lvl m a lg)
  = Logging.records lg ++
    (if Logging.isEnabledFor lg lvl
     then [ {| Logging.levelno := lvl; Logging.msg := m; Logging.args := a |} ]
     else []).
Proof.
  unfold Logging.log. destruct (Logging.isEnabledFor lg lvl); simpl; [done|].
  by rewrite app_nil_r.
Qed.


(** What [do_isort] does when the formatter completes with a non-zero exit
    code.  [replaced] tells whether the text of the view is replaced. *)
Lemma do_isort_failed (h : Host) (file : string) (check : bool) (w : World)
    (p : Popen) (t0 : Q) (name : string) (tv : value) (out err : string) (code : Z) :
  proc (self w) = Some p -> start_time (self w) = Some t0 ->
  _settings (settings w) = Some name ->
  current_settings (settings w) !! "timeout" = Some tv ->
  communicate h (pid p) (buffer (the_buffer w)) tv = Completed out err code ->
  code <> 0 ->
  let replaced := negb (String.eqb out (buffer (the_buffer w))) && negb check in
  let sel := {| isort_cmd.a := 0%nat; isort_cmd.b := isort_cmd.size (the_buffer w) |} in
  isort_cmd.do_isort h file check w
  = (Ok tt,
     with_self (isort_cmd.set_proc None)
       ((if replaced
         then fun w' =>
                with_view (isort_cmd.replace sel out)
                  (with_logger (emit [call Logging.DEBUG "Replacing contents" []]) w')
         else fun w' => w')
          (with_timeouts (fun t => t ++ [1000])
             (with_view (isort_cmd.view_set_status "isort"
                           ("isort(err, " +:+ pretty code +:+ ")"))
                (with_logger
                   (emit [call Logging.WARNING
                            ("isort exited with code " +:+ pretty code) []])
                   (with_console (fun c => c ++ [Str.strip err])
                      (with_logger
                         (emit [sorted_call h file t0;
                                call Logging.DEBUG "[%s]" [VStr "Finished"]])
                         (with_self
                            (isort_cmd.set_proc
                               (Some {| p_call := p_call p; pid := pid p;
                                        returncode := Some code |}))
                            (with_logger (emit [cmd_call p]) w))))))))).
Proof.
  intros Hp Ht0 Hs Htv Hc Hcode replaced sel.
  unfold isort_cmd.do_isort, log_debug, log_info, log_warning, log_error.
  run_step. rewrite Hp. run_step.
  erewrite bind_ok; [|by apply getattr_loaded with (name := name)].
  run_step. simpl the_buffer. rewrite substr_whole.
  erewrite bind_ok; cycle 1.
  { erewrite try_except_ok; [reflexivity|].
    unfold isort_cmd.proc_communicate. rewrite Hc. repeat run_step. reflexivity. }
  run_step. simpl. rewrite Ht0. repeat run_step.
  assert (Hnz : (code =? 0)%Z = false) by (by apply Z.eqb_neq).
  rewrite Hnz. simpl. repeat run_step.
  unfold isort_cmd.set_status. repeat run_step.
  fold sel. fold replaced. destruct replaced; repeat run_step; reflexivity.
Qed.

(** X29: when the formatter completes with a non-zero exit code, [do_isort]
    returns normally, prints the stripped stderr text, logs a warning that
    names the exit code, and sets the status to [isort(err, code)]; in check
    mode, and when the output equals the text of the view, the text is left
    as it was. *)
Theorem nonzero_exit_reports_error (h : Host) (file : string) (check : bool) (w : World)
    (p : Popen) (t0 : Q) (name : string) (tv : value) (out err : string) (code : Z) :
  proc (self w) = Some p -> start_time (self w) = Some t0 ->
  _settings (settings w) = Some name ->
  current_settings (settings w) !! "timeout" = Some tv ->
  communicate h (pid p) (buffer (the_buffer w)) tv = Completed out err code ->
  code <> 0 ->
  let r := isort_cmd.do_isort h file check w in
  fst r = Ok tt
  /\ console (snd r) = console w ++ [Str.strip err]
  /\ status (the_buffer (snd r))
     = <["isort" := "isort(err, " +:+ pretty code +:+ ")"]> (status (the_buffer w))
  /\ (exists more,
        logger (snd r)
        = emit ([cmd_call p; sorted_call h file t0;
                 call Logging.DEBUG "[%s]" [VStr "Finished"];
                 call Logging.WARNING ("isort exited with code " +:+ pretty code) []]
                ++ more) (logger w))
  /\ (check = true \/ out = buffer (the_buffer w) ->
      buffer (the_buffer (snd r)) = buffer (the_buffer w)).
Proof.
  intros Hp Ht0 Hs Htv Hc Hcode r. subst r.
  rewrite (do_isort_failed h file check w p t0 name tv out err code Hp Ht0 Hs Htv Hc Hcode).
  destruct (negb (String.eqb out (buffer (the_buffer w))) && negb check) eqn:Hrep.
  - simpl. repeat split.
    + by exists [call Logging.DEBUG "Replacing contents" []].
    + intros Hside. apply andb_prop in Hrep as [Hne Hchk].
      destruct Hside as [->| ->]; [discriminate|].
      by rewrite String.eqb_refl in Hne.
  - simpl. repeat split. by exists [].
Qed.

Lemma nonzero_exit_reports_error_witness :
  let h := example_host ∅ ∅ (fun _ => Completed "import os" " boom " 1) in
  let r := isort_cmd.do_isort h example_file false (running_world "import os") in
  fst r = Ok tt
  /\ console (snd r) = [] ++ [Str.strip " boom "]
  /\ status (the_buffer (snd r)) = <["isort" := "isort(err, " +:+ pretty 1 +:+ ")"]> ∅
  /\ (exists more,
        logger (snd r)
        = emit ([cmd_call example_proc; sorted_call h example_file 0%Q;
                 call Logging.DEBUG "[%s]" [VStr "Finished"];
                 call Logging.WARNING ("isort exited with code " +:+ pretty 1) []]
                ++ more) example_logger)
  /\ (false = true \/ "import os" = "import os" ->
      buffer (the_buffer (snd r)) = "import os").
Proof.
  apply (nonzero_exit_reports_error
           (example_host ∅ ∅ (fun _ => Completed "import os" " boom " 1))
           example_file false (running_world "import os") example_proc 0%Q
           settings_file (VFloat 1%Q) "import os" " boom " 1);
    [reflexivity | reflexivity | reflexivity | reflexivity | reflexivity | lia].
Defined.

(** Outside check mode, an output that differs from the text replaces it,
    also after a non-zero exit. *)
Lemma nonzero_exit_replaces_buffer (h : Host) (file : string) (w : World)
    (p : Popen) (t0 : Q) (name : string) (tv : value) (out err : string) (code : Z) :
  proc (self w) = Some p -> start_time (self w) = Some t0 ->
  _settings (settings w) = Some name ->
  current_settings (settings w) !! "timeout" = Some tv ->
  communicate h (pid p) (buffer (the_buffer w)) tv = Completed out err code ->
  code <> 0 -> out <> buffer (the_buffer w) ->
  buffer (the_buffer (snd (isort_cmd.do_isort h file false w))) = out.
Proof.
  intros Hp Ht0 Hs Htv Hc Hcode Hne.
  rewrite (do_isort_failed h file false w p t0 name tv out err code Hp Ht0 Hs Htv Hc Hcode).
  apply String.eqb_neq in Hne. rewrite Hne. simpl. apply replace_whole.
Qed.

(** C1: a run that ends in a non-zero exit code reports the error and yet
    changes the text of the view.  A formatter that exits with code 1 after
    writing "boom" to stderr and nothing to stdout: [do_isort] returns
    normally, "boom" is printed and the status reads [isort(err, 1)], and the
    text of the view, which was "import os", is replaced by the empty output.
    The replace step looks at the output and at the check flag only; on a
    timeout there is no output, and the text is left alone. *)
Theorem nonzero_exit_overwrites_buffer :
  let h := example_host ∅ ∅ (fun _ => Completed "" "boom" 1) in
  let w := running_world "import os" in
  let r := isort_cmd.do_isort h example_file false w in
  fst r = Ok tt
  /\ console (snd r) = ["boom"]
  /\ status (the_buffer (snd r)) !! "isort" = Some "isort(err, 1)"
  /\ buffer (the_buffer w) = "import os"
  /\ buffer (the_buffer (snd r)) = "".
Proof. repeat split; vm_compute; reflexivity. Qed.

Lemma timeout_cancels_witness :
  let r := isort_cmd.do_isort stubborn_host example_file false
             (running_world "import os") in
  fst r = Ok tt
  /\ signals (snd r) = [] ++ [(7%nat, SIGTERM); (7%nat, SIGKILL)]
  /\ logger (snd r)
     = emit [cmd_call example_proc; sorted_call stubborn_host example_file 0%Q;
             call Logging.INFO "[%s]" [VStr "Cancelled"]] example_logger
  /\ status (the_buffer (snd r)) = <["isort" := "isort(timeout)"]> ∅
  /\ buffer (the_buffer (snd r)) = "import os"
  /\ console (snd r) = []
  /\ proc (self (snd r)) = None.
Proof.
  apply (timeout_cancels stubborn_host example_file false
           (running_world "import os") example_proc 0%Q settings_file (VFloat 1%Q));
    reflexivity.
Defined.

Lemma same_output_keeps_buffer_witness :
  let h := example_host ∅ ∅ (fun input => Completed input "" 0) in
  let w := idle_world "import os" in
  formatter_echoes h "import os"
  /\ buffer (the_buffer (snd (isort_cmd.do_isort h example_file false w))) = "import os"
  /\ buffer (the_buffer (snd (isort_cmd.run h false false w))) = "import os".
Proof.
  intros h w.
  assert (He : formatter_echoes h "import os").
  { intros n t out err code Hc. simpl in Hc. congruence. }
  split; [exact He|].
  exact (same_output_keeps_buffer h example_file false false w He).
Defined.

(** ** The log level *)


Lemma name_to_level_None (s : string) :
  Logging.name_to_level s = None
  <-> s ∉ ["CRITICAL"; "FATAL"; "ERROR"; "WARN"; "WARNING"; "INFO"; "DEBUG"; "NOTSET"].
Proof.
  unfold Logging.name_to_level.
  rewrite <- (not_elem_of_list_to_map (M := gmap string)). reflexivity.
Qed.



(** A level of [None] is skipped: nothing is logged and the level stays. *)
Lemma set_log_level_none (h : Host) (w : World) (name : string) :
  _settings (settings w) = Some name ->
  current_settings (settings w) !! "log_level" = Some VNone ->
  settings_py.set_log_level h w = (Ok tt, w).
Proof.
  intros Hs Hl.
  unfold settings_py.set_log_level, settings_py.set_log_level_with.
  fold (settings_py.__getattr__ h "log_level").
  erewrite bind_ok; [|by apply getattr_loaded with (name := name)].
  reflexivity.
Qed.

(** A level that is neither a string nor an integer makes [set_log_level]
    raise [TypeError], which nothing catches. *)
Lemma set_log_level_float (h : Host) (w : World) (name : string) (q : Q) :
  _settings (settings w) = Some name ->
  current_settings (settings w) !! "log_level" = Some (VFloat q) ->
  settings_py.set_log_level h w
  = (Raise (Exn TypeError "Level not an integer or a valid string: %r" [VFloat q]), w).
Proof.
  intros Hs Hl.
  unfold settings_py.set_log_level, settings_py.set_log_level_with.
  fold (settings_py.__getattr__ h "log_level").
  erewrite bind_ok; [|by apply getattr_loaded with (name := name)].
  cbv beta iota. unfold try_except, settings_py.logger_setLevel. run_step.
  reflexivity.
Qed.


(** ** The settings snapshot *)

Lemma is_set_true (x : value) : x <> VStr settings_py._UNSET -> settings_py.is_set x = true.
Proof.
  intros Hx. destruct x; try reflexivity. simpl.
  destruct (String.eqb_spec s settings_py._UNSET) as [->|]; [by destruct Hx | done].
Qed.

Lemma absent_not_set (d : gmap string value) (k : string) :
  absent d k ->
  settings_py.is_set (settings_py.dict_get d k (VStr settings_py._UNSET)) = false.
Proof. unfold settings_py.dict_get. intros [-> | ->]; reflexivity. Qed.

Lemma provides_get (d : gmap string value) (k : string) (x : value) :
  provides d k x ->
  settings_py.dict_get d k (VStr settings_py._UNSET) = x /\ settings_py.is_set x = true.
Proof.
  intros [Hd Hx]. unfold settings_py.dict_get. rewrite Hd. split; [done|].
  by apply is_set_true.
Qed.

Lemma inv_bind_ret {A B} I (x : A) (k : A -> M B) : inv I (k x) -> inv I (bind (ret x) k).
Proof. intros H. exact H. Qed.

Lemma inv_bind_raise {A B} (I : World -> Prop) (e : exn) (k : A -> M B) :
  inv I (bind (raise e) k).
Proof. intros w Hw. exact Hw. Qed.

Lemma update_key_inv h (I : World -> Prop) flat nested store key :
  ignores_logger I -> (forall v, inv I (settings_py.assign h key v)) ->
  inv I (settings_py.update_key h flat nested store key).
Proof.
  intros HL HA. unfold settings_py.update_key.
  destruct (settings_py.is_set _).
  { apply inv_bind; [by apply inv_log_call | intros _; apply HA]. }
  apply inv_bind; [apply value_get_inv|]. intros v.
  destruct (settings_py.is_set v).
  { apply inv_bind; [by apply inv_log_call | intros _; apply HA]. }
  destruct (settings_py.is_set _); [|apply inv_ret].
  apply inv_bind; [by apply inv_log_call | intros _; apply HA].
Qed.

Lemma default_keys_attrs : settings_py.default_keys = settings_py.settings_attrs.
Proof. reflexivity. Qed.

Lemma six_keys_assign h key v :
  key ∈ settings_py.default_keys -> inv six_keys (settings_py.assign h key v).
Proof.
  intros Hk. apply inv_modify. intros w Hw. unfold six_keys in *. simpl.
  rewrite dom_insert_L, Hw. rewrite default_keys_attrs in Hk.
  apply (elem_of_list_to_set (C := gset string)) in Hk.
  apply subseteq_union_1_L. by apply singleton_subseteq_l.
Qed.

Section SixKeys.

Context (h : Host).

Local Lemma six_logger : ignores_logger six_keys.
Proof. intros f w Hw. exact Hw. Qed.

Local Lemma six_handle : ignores_settings_handle six_keys.
Proof. intros f w Hf Hw. unfold six_keys in *. simpl. by rewrite Hf. Qed.

Local Lemma six_key vw name key :
  key ∈ settings_py.default_keys ->
  inv six_keys (settings_py.update_key h (flat_of h vw) (nested_of h vw)
                  (load_settings h name) key).
Proof. intros Hk. apply update_key_inv; [exact six_logger|]. intros v. by apply six_keys_assign. Qed.

Lemma load_six_keys vw force : inv six_keys (settings_py.load h vw force).
Proof. apply load_inv; auto using six_logger, six_handle, six_key. Qed.

Lemma update_settings_six_keys : inv six_keys (settings_py.update_settings h).
Proof. apply update_settings_inv; auto using six_logger, six_handle, six_key. Qed.

End SixKeys.

(** An option without a source keeps its value. *)
Section Retention.

Context (h : Host) (key0 : string) (x : option value).
Hypothesis Hno : no_source h key0.

Local Lemma keeps_logger : ignores_logger (holds_value key0 x).
Proof. intros f w Hw. exact Hw. Qed.

Local Lemma keeps_handle : ignores_settings_handle (holds_value key0 x).
Proof. intros f w Hf Hw. unfold holds_value in *. simpl. by rewrite Hf. Qed.

Local Lemma nested_absent vw d : nested_of h vw = VDict d -> absent d key0.
Proof.
  destruct Hno as (_ & Hnested & _). destruct vw as [v|]; simpl.
  - unfold settings_py.dict_get.
    destruct (view_settings h v !! NAME h) as [y|] eqn:Hy; simpl.
    + intros ->. by apply (Hnested v).
    + intros [= <-]. by left.
  - intros [= <-]. by left.
Qed.

Local Lemma keeps_key vw name key :
  key ∈ settings_py.default_keys ->
  inv (holds_value key0 x) (settings_py.update_key h (flat_of h vw) (nested_of h vw)
               (load_settings h name) key).
Proof.
  intros _. destruct (decide (key = key0)) as [->|Hne].
  - pose proof Hno as (Hflat & _ & Hstore).
    unfold settings_py.update_key.
    assert (Hf : settings_py.is_set
              (settings_py.dict_get (flat_of h vw) (settings_py.flat_key h key0)
                 (VStr settings_py._UNSET)) = false).
    { destruct vw as [v|]; [apply absent_not_set, Hflat | reflexivity]. }
    rewrite Hf.
    destruct (nested_of h vw) as [|b|n|q|s|l|d] eqn:Hn;
      unfold settings_py.value_get;
      try apply inv_bind_raise.
    apply inv_bind_ret.
    rewrite (absent_not_set d key0 (nested_absent vw d Hn)).
    rewrite (absent_not_set _ _ (Hstore name)).
    apply inv_ret.
  - apply update_key_inv; [exact keeps_logger|]. intros v.
    apply inv_modify. intros w Hw. unfold holds_value in *. simpl.
    by rewrite lookup_insert_ne.
Qed.

Lemma load_keeps vw force : inv (holds_value key0 x) (settings_py.load h vw force).
Proof. apply load_inv; auto using keeps_logger, keeps_handle, keeps_key. Qed.

Lemma update_settings_keeps : inv (holds_value key0 x) (settings_py.update_settings h).
Proof. apply update_settings_inv; auto using keeps_logger, keeps_handle, keeps_key. Qed.

End Retention.

Lemma settled_six_keys (w : World) : settled w -> six_keys w.
Proof.
  induction 1 as [w vw Hw|h vw force w _ IH|h w _ IH].
  - unfold six_keys. rewrite Hw. simpl. unfold settings_py.default_settings.
    by rewrite dom_list_to_map_L.
  - exact (inv_final six_keys _ w (load_six_keys h vw force) IH).
  - exact (inv_final six_keys _ w (update_settings_six_keys h) IH).
Qed.

(** C9: a freshly constructed settings object holds the documented defaults
    under exactly the six option keys; after any sequence of loads and
    updates the snapshot still has exactly these six keys; and an option for
    which no source has a value keeps the value it had. *)
Theorem snapshot_keys (h : Host) (vw : option nat) (force : bool) (w : World) :
  settled w ->
  (current_settings (settings_py.__init__ vw)
   = list_to_map [ ("verbose", VBool false); ("timeout", VFloat 1%Q); ("path", VNone);
                   ("log_level", VStr "INFO"); ("on_save", VBool false);
                   ("encoding", VStr "utf-8") ])
  /\ six_keys w
  /\ six_keys (snd (settings_py.load h vw force w))
  /\ six_keys (snd (settings_py.update_settings h w))
  /\ (forall key, no_source h key ->
        current_settings (settings (snd (settings_py.load h vw force w))) !! key
        = current_settings (settings w) !! key
        /\ current_settings (settings (snd (settings_py.update_settings h w))) !! key
           = current_settings (settings w) !! key).
Proof.
  intros Hw. split; [reflexivity|]. split; [by apply settled_six_keys|].
  split; [apply settled_six_keys; by constructor|].
  split; [apply settled_six_keys; by constructor|].
  intros key Hno. split.
  - exact (inv_final (holds_value key (current_settings (settings w) !! key)) _ w
             (load_keeps h key _ Hno vw force) eq_refl).
  - exact (inv_final (holds_value key (current_settings (settings w) !! key)) _ w
             (update_settings_keeps h key _ Hno) eq_refl).
Qed.

Lemma example_no_source (answer : string -> communicate_result) (key : string) :
  no_source (example_host ∅ ∅ answer) key.
Proof. repeat split; intros; simpl in *; by left. Qed.

Lemma snapshot_keys_witness :
  let h := example_host ∅ ∅ (fun _ => TimedOut) in
  let w := idle_world "import os" in
  settled w
  /\ six_keys w
  /\ six_keys (snd (settings_py.load h (Some 0%nat) false w))
  /\ six_keys (snd (settings_py.update_settings h w))
  /\ current_settings (settings (snd (settings_py.load h (Some 0%nat) false w))) !! "timeout"
     = Some (VFloat 1%Q).
Proof.
  intros h w.
  assert (Hw : settled w) by (by apply (settled_init w (Some 0%nat))).
  destruct (snapshot_keys h (Some 0%nat) false w Hw) as (_ & H1 & H2 & H3 & H4).
  split; [exact Hw|]. split; [exact H1|]. split; [exact H2|]. split; [exact H3|].
  destruct (H4 "timeout" (example_no_source _ "timeout")) as [-> _]. reflexivity.
Defined.

(** ** Precedence of the sources *)

Lemma update_key_dict h flat nd store key w :
  fst (settings_py.update_key h flat (VDict nd) store key w) = Ok tt
  /\ settings (snd (settings_py.update_key h flat (VDict nd) store key w))
     = match pick h flat nd store key with
       | Some v =>
           settings_py.set_current_settings
             (<[key := utils.expand h v (view (settings w))]> (current_settings (settings w)))
             (settings w)
       | None => settings w
       end.
Proof.
  unfold settings_py.update_key, pick, log_debug.
  destruct (settings_py.is_set (settings_py.dict_get flat _ _)); [by split|].
  cbn [settings_py.value_get]. run_step.
  destruct (settings_py.is_set (settings_py.dict_get nd _ _)); [by split|].
  destruct (settings_py.is_set (settings_py.dict_get store _ _)); by split.
Qed.

Lemma update_loop h flat nd store keys w :
  let r := for_each keys (settings_py.update_key h flat (VDict nd) store) w in
  fst r = Ok tt
  /\ _settings (settings (snd r)) = _settings (settings w)
  /\ view (settings (snd r)) = view (settings w)
  /\ forall k,
       current_settings (settings (snd r)) !! k
       = if decide (k ∈ keys)
         then match pick h flat nd store k with
              | Some v => Some (utils.expand h v (view (settings w)))
              | None => current_settings (settings w) !! k
              end
         else current_settings (settings w) !! k.
Proof.
  revert w. induction keys as [|key keys IH]; intros w r; subst r.
  - simpl. repeat split.
  - cbn [for_each].
    destruct (update_key_dict h flat nd store key w) as [Hok Hst].
    destruct (settings_py.update_key h flat (VDict nd) store key w) as [res w1] eqn:Hrun.
    simpl in Hok, Hst. subst res. rewrite (bind_ok _ _ _ _ _ Hrun).
    destruct (IH w1) as (Hok' & Hs' & Hv' & Hcur'). clear IH.
    assert (Hview : view (settings w1) = view (settings w)).
    { rewrite Hst. by destruct (pick h flat nd store key). }
    assert (Hset : _settings (settings w1) = _settings (settings w)).
    { rewrite Hst. by destruct (pick h flat nd store key). }
    split; [exact Hok'|]. split; [by rewrite Hs'|]. split; [by rewrite Hv'|].
    intros k. rewrite Hcur', Hview.
    assert (Hcur1 : current_settings (settings w1) !! k
                    = if decide (k = key)
                      then match pick h flat nd store k with
                           | Some v => Some (utils.expand h v (view (settings w)))
                           | None => current_settings (settings w) !! k
                           end
                      else current_settings (settings w) !! k).
    { rewrite Hst. destruct (decide (k = key)) as [->|Hne].
      - destruct (pick h flat nd store key); simpl; [by rewrite lookup_insert_eq | done].
      - destruct (pick h flat nd store key); simpl; [by rewrite lookup_insert_ne | done]. }
    destruct (decide (k ∈ keys)) as [Hin|Hnin].
    + rewrite decide_True by (by right).
      destruct (pick h flat nd store k); [done|].
      rewrite Hcur1. by destruct (decide (k = key)).
    + rewrite Hcur1. destruct (decide (k = key)) as [->|Hne].
      * rewrite decide_True by left. done.
      * rewrite decide_False; [done|]. intros Hin. apply elem_of_cons in Hin as [?|?]; done.
Qed.

Lemma load_resolves h v force w nd :
  nested_of h (Some v) = VDict nd ->
  forall k,
    current_settings (settings (snd (settings_py.load h (Some v) force w))) !! k
    = if decide (k ∈ settings_py.default_keys)
      then match pick h (view_settings h v) nd
                   (load_settings h (utils.SETTINGS_NAME h)) k with
           | Some x => Some (utils.expand h x (Some v))
           | None => current_settings (settings w) !! k
           end
      else current_settings (settings w) !! k.
Proof.
  intros Hnd k.
  unfold settings_py.load, settings_py.load_with.
  run_step. run_step.
  rewrite (bool_decide_eq_true_2 (is_Some (Some v))) by eauto.
  rewrite orb_true_r. cbn [orb].
  unfold settings_py._load. repeat run_step.
  unfold settings_py.update_settings_with, log_debug. repeat run_step.
  cbn [settings with_settings with_logger _settings view settings_py.set__settings
       settings_py.set_view settings_py.set_on_change].
  repeat run_step.
  simpl in Hnd. rewrite Hnd.
  match goal with
  | |- context [bind (for_each ?ks ?body) ?k ?w0] =>
      pose proof (update_loop h (view_settings h v) nd
                    (load_settings h (utils.SETTINGS_NAME h)) ks w0) as Hloop;
      destruct (for_each ks body w0) as [res w1] eqn:Hrun
  end.
  cbn zeta in Hloop. rewrite ?Hrun in Hloop.
  destruct Hloop as (Hok & _ & _ & Hcur). cbn [fst snd] in Hok, Hcur. subst res.
  cbn [settings with_settings with_logger view current_settings settings_py.set_view
       settings_py.set__settings settings_py.set_on_change] in Hcur.
  rewrite (bind_ok _ _ _ _ _ Hrun). cbv beta.
  match goal with
  | |- context [bind ?m ?k ?w0] =>
      assert (Hkeep : current_settings (settings (snd (m w1)))
                      = current_settings (settings w1));
      [ apply (inv_final
                 (fun w' => current_settings (settings w') = current_settings (settings w1)));
        [ apply set_log_level_with_inv; [by intros ? ? ? | apply inv_raise]
        | reflexivity ]
      | unfold bind at 1; destruct (m w1) as [[[]|e] w2] ]
  end; cbn [snd] in Hkeep.
  - run_step. run_step. unfold ret. cbn [snd settings with_logger]. by rewrite Hkeep, Hcur.
  - cbn [snd]. by rewrite Hkeep, Hcur.
Qed.

Lemma pick_flat h flat nd store key x :
  provides flat (settings_py.flat_key h key) x -> pick h flat nd store key = Some x.
Proof. intros Hp. unfold pick. destruct (provides_get _ _ _ Hp) as [-> ->]. reflexivity. Qed.

Lemma pick_nested h flat nd store key y :
  absent flat (settings_py.flat_key h key) -> provides nd key y ->
  pick h flat nd store key = Some y.
Proof.
  intros Ha Hp. unfold pick. rewrite (absent_not_set _ _ Ha).
  destruct (provides_get _ _ _ Hp) as [-> ->]. reflexivity.
Qed.

Lemma pick_global h flat nd store key z :
  absent flat (settings_py.flat_key h key) -> absent nd key ->
  provides store (settings_py.global_key key) z ->
  pick h flat nd store key = Some z.
Proof.
  intros Ha Hb Hp. unfold pick. rewrite (absent_not_set _ _ Ha), (absent_not_set _ _ Hb).
  destruct (provides_get _ _ _ Hp) as [-> ->]. reflexivity.
Qed.

Lemma pick_none h flat nd store key :
  absent flat (settings_py.flat_key h key) -> absent nd key ->
  absent store (settings_py.global_key key) ->
  pick h flat nd store key = None.
Proof.
  intros Ha Hb Hc. unfold pick.
  by rewrite (absent_not_set _ _ Ha), (absent_not_set _ _ Hb), (absent_not_set _ _ Hc).
Qed.

(** C2, amended: let what the view's settings hold under the plugin's name,
    if anything, be a mapping, and say that a source holds a value under a
    key when one is stored there that is not the sentinel string
    [__UNSET_SETTINGS_KEY__].  Then for each of the six options the snapshot
    built by [load] holds the expansion of the value of the flat key if the
    view's settings hold one, otherwise of the value in the nested mapping if
    it holds one, otherwise of the value of the prefixed key in the global
    store if it holds one, and otherwise the value it held before. *)
Theorem settings_precedence (h : Host) (v : nat) (force : bool) (w : World)
    (key : string) (nd : gmap string value) :
  key ∈ settings_py.default_keys ->
  nested_of h (Some v) = VDict nd ->
  let flat := view_settings h v in
  let store := load_settings h (utils.SETTINGS_NAME h) in
  let resolved :=
    current_settings (settings (snd (settings_py.load h (Some v) force w))) !! key in
  (forall x, provides flat (settings_py.flat_key h key) x ->
     resolved = Some (utils.expand h x (Some v)))
  /\ (forall y, absent flat (settings_py.flat_key h key) -> provides nd key y ->
        resolved = Some (utils.expand h y (Some v)))
  /\ (forall z, absent flat (settings_py.flat_key h key) -> absent nd key ->
        provides store (settings_py.global_key key) z ->
        resolved = Some (utils.expand h z (Some v)))
  /\ (absent flat (settings_py.flat_key h key) -> absent nd key ->
      absent store (settings_py.global_key key) ->
      resolved = current_settings (settings w) !! key).
Proof.
  intros Hkey Hnd flat store resolved. subst resolved.
  rewrite (load_resolves h v force w nd Hnd key), decide_True by exact Hkey.
  fold flat. fold store. repeat split.
  - intros x Hx. by rewrite (pick_flat h flat nd store key x Hx).
  - intros y Ha Hy. by rewrite (pick_nested h flat nd store key y Ha Hy).
  - intros z Ha Hb Hz. by rewrite (pick_global h flat nd store key z Ha Hb Hz).
  - intros Ha Hb Hc. by rewrite (pick_none h flat nd store key Ha Hb Hc).
Qed.

Lemma settings_precedence_witness :
  let h := example_host layered_flat layered_store (fun _ => TimedOut) in
  "timeout" ∈ settings_py.default_keys
  /\ nested_of h (Some 0%nat) = VDict {[ "timeout" := VInt 7 ]}
  /\ provides layered_flat "isort.timeout" (VInt 5)
  /\ current_settings
       (settings (snd (settings_py.load h (Some 0%nat) false (idle_world "import os"))))
     !! "timeout" = Some (VInt 5).
Proof.
  intros h.
  assert (Hk : "timeout" ∈ settings_py.default_keys) by (vm_compute; set_solver).
  assert (Hn : nested_of h (Some 0%nat) = VDict {[ "timeout" := VInt 7 ]}) by reflexivity.
  assert (Hp : provides layered_flat "isort.timeout" (VInt 5)) by (split; [reflexivity | discriminate]).
  split; [exact Hk|]. split; [exact Hn|]. split; [exact Hp|].
  destruct (settings_precedence h 0%nat false (idle_world "import os") "timeout" _ Hk Hn)
    as (Hflat & _).
  exact (Hflat (VInt 5) Hp).
Defined.

(** C2 as worded fails: the flat key for [path] is present, it holds the
    sentinel string, and the snapshot takes the value of the nested mapping. *)
Lemma precedence_counterexample :
  let h := example_host sentinel_flat ∅ (fun _ => TimedOut) in
  let w := idle_world "import os" in
  view_settings h 0%nat !! settings_py.flat_key h "path"
  = Some (VStr "__UNSET_SETTINGS_KEY__")
  /\ current_settings (settings (snd (settings_py.load h (Some 0%nat) false w))) !! "path"
     = Some (VStr "/opt/isort")
  /\ ~ precedence_claim h 0%nat w "path".
Proof.
  intros h w.
  assert (Hf : view_settings h 0%nat !! settings_py.flat_key h "path"
               = Some (VStr "__UNSET_SETTINGS_KEY__")) by reflexivity.
  assert (Hr : current_settings (settings (snd (settings_py.load h (Some 0%nat) false w)))
               !! "path" = Some (VStr "/opt/isort")).
  { rewrite (load_resolves h 0%nat false w {[ "path" := VStr "/opt/isort" ]} eq_refl).
    reflexivity. }
  split; [exact Hf|]. split; [exact Hr|].
  unfold precedence_claim. cbv zeta. rewrite Hf, Hr. discriminate.
Qed.

(** ** Package discovery *)

Lemma contains_app (needle a b : string) :
  Str.contains needle b = true -> Str.contains needle (a +:+ b) = true.
Proof.
  intros Hb. induction a as [|c a IH]; [exact Hb|].
  change (String c a +:+ b) with (String c (a +:+ b)).
  cbn [Str.contains]. rewrite IH. apply orb_true_r.
Qed.

Lemma join2_isort (a : string) : Str.contains "isort" (Path.join2 a "isort") = true.
Proof.
  unfold Path.join2. cbn [String.prefix].
  change (String.prefix "/" "isort") with false. cbv iota.
  destruct (String.eqb a "" || Path.ends_with_slash a).
  - by apply contains_app.
  - by apply contains_app, contains_app.
Qed.

Lemma foldl_max_spec (vs : list Z) (v : Z) :
  foldl Z.max v vs ∈ v :: vs /\ forall n, n ∈ v :: vs -> n <= foldl Z.max v vs.
Proof.
  revert v. induction vs as [|u vs IH]; intros v; simpl.
  - split; [left|]. intros n Hn. apply elem_of_cons in Hn as [->|Hn]; [lia|].
    by apply elem_of_nil in Hn.
  - destruct (IH (Z.max v u)) as [Hin Hle]. split.
    + apply elem_of_cons in Hin as [Heq|Hin].
      * rewrite Heq. destruct (Z.max_spec v u) as [[_ ->]|[_ ->]]; [right; left | left].
      * right. by right.
    + intros n Hn. apply elem_of_cons in Hn as [->|Hn].
      * etrans; [|apply Hle; left]. lia.
      * apply elem_of_cons in Hn as [->|Hn].
        -- etrans; [|apply Hle; left]. lia.
        -- apply Hle. by right.
Qed.

Lemma scan_versions_omap (h : Host) (names : list string) (acc : list Z) :
  foldl (fun versions name =>
           if String.prefix "python3" name
           then match int_of_str h (Str.last_field name) with
                | Some n => versions ++ [n]
                | None => versions
                end
           else versions) acc names
  = acc ++ omap (fun name => if String.prefix "python3" name
                             then int_of_str h (Str.last_field name) else None) names.
Proof.
  revert acc. induction names as [|name names IH]; intros acc; simpl.
  - by rewrite app_nil_r.
  - rewrite IH. destruct (String.prefix "python3" name); [|reflexivity].
    destruct (int_of_str h (Str.last_field name)); [|reflexivity].
    by rewrite <- app_assoc.
Qed.

(** The versions read off a [lib] directory: what [int] makes of the last
    dot-separated field of the names that begin with [python3]; a name
    whose last field [int] refuses contributes nothing. *)
Lemma scan_versions_elem (h : Host) (names : list string) (n : Z) :
  n ∈ utils.scan_versions h names
  <-> exists name, name ∈ names /\ String.prefix "python3" name = true
                   /\ int_of_str h (Str.last_field name) = Some n.
Proof.
  unfold utils.scan_versions. rewrite scan_versions_omap. cbn [app].
  rewrite list_elem_of_omap. split.
  - intros (name & Hin & Hn). exists name. split; [exact Hin|].
    destruct (String.prefix "python3" name); [by split | discriminate].
  - intros (name & Hin & Hpre & Hn). exists name. split; [exact Hin|].
    by rewrite Hpre.
Qed.

(** [find_package] answers with the package directory under the highest
    version number read off the [lib] directory. *)
Lemma find_package_highest (h : Host) (root pkg_name p : string) :
  utils.find_package h root pkg_name = Some p ->
  exists v vs,
    utils.scan_versions h (listdir h (Path.join root ["lib"])) = v :: vs
    /\ (let ver := foldl Z.max v vs in
        ver ∈ v :: vs
        /\ (forall n, n ∈ v :: vs -> n <= ver)
        /\ p = Path.join (Path.join (Path.join root ["lib"]) ["python3." +:+ pretty ver])
                 ["site-packages"; pkg_name])
    /\ isdir h p = true.
Proof.
  unfold utils.find_package. intros Hp.
  destruct (isdir h (Path.join root ["lib"])); [|discriminate]. cbn [negb] in Hp.
  destruct (utils.scan_versions h _) as [|v vs]; [discriminate|].
  destruct (isdir h (Path.join (Path.join root ["lib"]) _)); [|discriminate].
  cbn [negb] in Hp.
  destruct (isdir h (Path.join (Path.join _ _) ["site-packages"; pkg_name])) eqn:Hd;
    [|discriminate].
  cbn [negb] in Hp. injection Hp as <-.
  exists v, vs. split; [reflexivity|]. split; [|exact Hd].
  destruct (foldl_max_spec vs v) as [Hin Hle]. by repeat split.
Qed.

Lemma find_package_contains (h : Host) (root p : string) :
  utils.find_package h root "isort" = Some p -> Str.contains "isort" p = true.
Proof.
  intros Hp. destruct (find_package_highest h root "isort" p Hp) as (v & vs & _ & (_ & _ & ->) & _).
  apply join2_isort.
Qed.

Lemma first_package_contains (h : Host) (roots : list (option string)) (p : string) :
  utils.first_package h roots = Some p -> Str.contains "isort" p = true.
Proof.
  induction roots as [|[r|] roots IH]; simpl; intros Hp; [discriminate| |by apply IH].
  destruct (isdir h r); [|by apply IH].
  destruct (utils.find_package h r "isort") as [q|] eqn:Hq; [|by apply IH].
  injection Hp as <-. by apply find_package_contains in Hq.
Qed.

(** [first_package] answers with the package of the first root, in the
    order of the list, that is a directory in which [find_package] finds the
    package; and with nothing when no root is one. *)
Lemma first_package_first (h : Host) (roots : list (option string)) :
  match utils.first_package h roots with
  | Some pkg =>
      exists before root after,
        roots = before ++ Some root :: after
        /\ isdir h root = true
        /\ utils.find_package h root "isort" = Some pkg
        /\ forall r, Some r ∈ before ->
             isdir h r = false \/ utils.find_package h r "isort" = None
  | None =>
      forall r, Some r ∈ roots ->
        isdir h r = false \/ utils.find_package h r "isort" = None
  end.
Proof.
  induction roots as [|root roots IH]; cbn [utils.first_package].
  - intros r Hr. by apply elem_of_nil in Hr.
  - assert (Hskip :
      (forall r, root = Some r ->
         isdir h r = false \/ utils.find_package h r "isort" = None) ->
      match utils.first_package h roots with
      | Some pkg =>
          exists before root0 after,
            root :: roots = before ++ Some root0 :: after
            /\ isdir h root0 = true
            /\ utils.find_package h root0 "isort" = Some pkg
            /\ forall r, Some r ∈ before ->
                 isdir h r = false \/ utils.find_package h r "isort" = None
      | None =>
          forall r, Some r ∈ root :: roots ->
            isdir h r = false \/ utils.find_package h r "isort" = None
      end).
    { intros Hroot. destruct (utils.first_package h roots) as [pkg|].
      - destruct IH as (before & root0 & after & -> & Hd & Hf & Hb).
        exists (root :: before), root0, after. repeat split; try done.
        intros r Hr. apply elem_of_cons in Hr as [Hr|Hr]; [by apply Hroot | by apply Hb].
      - intros r Hr. apply elem_of_cons in Hr as [Hr|Hr]; [by apply Hroot | by apply IH]. }
    destruct root as [r0|]; [|apply Hskip; discriminate].
    destruct (isdir h r0) eqn:Hd; [|apply Hskip; intros r [= <-]; by left].
    destruct (utils.find_package h r0 "isort") as [pkg|] eqn:Hf;
      [|apply Hskip; intros r [= <-]; by right].
    exists [], r0, roots. repeat split; try done.
    intros r Hr. by apply elem_of_nil in Hr.
Qed.

Lemma list_insert_py_split {A} (i : Z) (x : A) (l : list A) :
  exists l1 l2, l = l1 ++ l2 /\ list_insert_py i x l = l1 ++ x :: l2.
Proof.
  unfold list_insert_py. eexists _, _. split; [|reflexivity].
  by rewrite take_drop.
Qed.

(** [l.insert(-1, x)] puts [x] in front of the last element. *)
Lemma list_insert_py_last {A} (x z : A) (l : list A) :
  list_insert_py (-1) x (l ++ [z]) = l ++ [x; z].
Proof.
  unfold list_insert_py. rewrite length_app. simpl length.
  change (-1 <? 0)%Z with true. cbv iota.
  replace (Z.to_nat (Z.max 0 (-1 + Z.of_nat (length l + 1)))) with (length l) by lia.
  rewrite take_app_length, drop_app_length. reflexivity.
Qed.

Lemma find_is_Some {A} (f : A -> bool) (l : list A) (x : A) :
  x ∈ l -> f x = true -> is_Some (List.find f l).
Proof.
  induction 1 as [x l|x y l _ IH]; intros Hx; simpl.
  - rewrite Hx. eauto.
  - destruct (f y); eauto.
Qed.

Lemma patch_path_patched (h : Host) (w : World) (path : string) :
  List.find (Str.contains "isort") (sys_path w) = Some path ->
  utils.patch_path h w
  = (Ok true, with_logger (emit [call Logging.DEBUG "Already in path (%s)" [VStr path]]) w).
Proof.
  intros Hf. unfold utils.patch_path, log_debug. run_step. rewrite Hf. run_step. reflexivity.
Qed.

Lemma patch_path_found (h : Host) (w : World) (pkg : string) :
  List.find (Str.contains "isort") (sys_path w) = None ->
  utils.first_package h (utils.patch_roots h) = Some pkg ->
  utils.patch_path h w
  = (Ok true,
     with_sys_path (list_insert_py (-1) pkg) (with_console (fun c => c ++ [pkg]) w)).
Proof.
  intros Hf Hp. unfold utils.patch_path. run_step. rewrite Hf, Hp.
  repeat run_step. reflexivity.
Qed.

Lemma patch_path_not_found (h : Host) (w : World) :
  List.find (Str.contains "isort") (sys_path w) = None ->
  utils.first_package h (utils.patch_roots h) = None ->
  utils.patch_path h w = (Ok false, w).
Proof.
  intros Hf Hp. unfold utils.patch_path. run_step. rewrite Hf, Hp. reflexivity.
Qed.

(** Where the package path goes: in front of the last entry of the search
    path. *)
Lemma patch_path_inserts_before_last (h : Host) (w : World) (pkg : string) :
  List.find (Str.contains "isort") (sys_path w) = None ->
  utils.first_package h (utils.patch_roots h) = Some pkg ->
  sys_path (snd (utils.patch_path h w)) = list_insert_py (-1) pkg (sys_path w).
Proof. intros Hf Hp. by rewrite (patch_path_found h w pkg Hf Hp). Qed.

(** The roots [patch_path] looks into, in their order: the two named by the
    environment, then the pipx environment of the formatter when it is a
    directory, under [PIPX_HOME] or else under [HOME/.local/pipx]. *)
Lemma patch_roots_order (h : Host) :
  exists pipx,
    utils.patch_roots h
    = environ h !! "VIRTUAL_ENV" :: environ h !! "PYENV_VIRTUAL_ENV" :: pipx
    /\ forall r0,
         Some r0 ∈ pipx
         <-> isdir h r0 = true
             /\ ((exists d, environ h !! "PIPX_HOME" = Some d
                            /\ r0 = Path.join d ["venvs"; "isort"])
                 \/ (environ h !! "PIPX_HOME" = None
                     /\ exists home,
                          environ h !! "HOME" = Some home
                          /\ r0 = Path.join (Path.join home [".local"; "pipx"])
                                    ["venvs"; "isort"])).
Proof.
  unfold utils.patch_roots.
  destruct (environ h !! "PIPX_HOME") as [d|] eqn:Hpipx;
    [|destruct (environ h !! "HOME") as [home|] eqn:Hhome]; cbv zeta.
  - destruct (isdir h (Path.join d ["venvs"; "isort"])) eqn:Hd;
      eexists; (split; [reflexivity|]); intros r0; split.
    + intros Hr. apply list_elem_of_singleton in Hr as [= ->].
      split; [exact Hd|]. left. by exists d.
    + intros [_ [(d' & [= <-] & ->)|[Hn _]]]; [apply list_elem_of_here | discriminate].
    + intros Hr. by apply elem_of_nil in Hr.
    + intros [Hr [(d' & [= <-] & ->)|[Hn _]]]; [congruence | discriminate].
  - destruct (isdir h (Path.join (Path.join home [".local"; "pipx"]) ["venvs"; "isort"]))
      eqn:Hd; eexists; (split; [reflexivity|]); intros r0; split.
    + intros Hr. apply list_elem_of_singleton in Hr as [= ->].
      split; [exact Hd|]. right. split; [reflexivity|]. by exists home.
    + intros [_ [(d' & Hn & _)|(_ & home' & [= <-] & ->)]];
        [discriminate | apply list_elem_of_here].
    + intros Hr. by apply elem_of_nil in Hr.
    + intros [Hr [(d' & Hn & _)|(_ & home' & [= <-] & ->)]]; [discriminate | congruence].
  - exists []. split; [reflexivity|]. intros r0. split.
    + intros Hr. by apply elem_of_nil in Hr.
    + intros [_ [(d' & Hn & _)|(_ & home' & Hn & _)]]; discriminate.
Qed.

(** C7, amended: [patch_path] looks into the roots named by [VIRTUAL_ENV] and
    [PYENV_VIRTUAL_ENV], then into the pipx environment of the formatter, in
    this order, and takes the package of the first root that is a directory
    in which [find_package] finds one.  The versions of a root are what
    [int] reads from the names in its [lib] directory that begin with
    [python3], and the package [find_package] answers with lies under the
    highest of them.  A search path with an entry that contains "isort" is
    left as it is.  Otherwise the package path is printed and inserted in
    front of the last entry of the search path (as the only entry of an
    empty one), and since that path contains "isort" no later call changes
    the search path again.  Without a package nothing changes. *)
Theorem patch_path_once (h : Host) (w : World) :
  let r := utils.patch_path h w in
  (exists pipx,
     utils.patch_roots h
     = environ h !! "VIRTUAL_ENV" :: environ h !! "PYENV_VIRTUAL_ENV" :: pipx
     /\ forall r0,
          Some r0 ∈ pipx
          <-> isdir h r0 = true
              /\ ((exists d, environ h !! "PIPX_HOME" = Some d
                             /\ r0 = Path.join d ["venvs"; "isort"])
                  \/ (environ h !! "PIPX_HOME" = None
                      /\ exists home,
                           environ h !! "HOME" = Some home
                           /\ r0 = Path.join (Path.join home [".local"; "pipx"])
                                     ["venvs"; "isort"])))
  /\ match utils.first_package h (utils.patch_roots h) with
     | Some pkg =>
         exists before root after,
           utils.patch_roots h = before ++ Some root :: after
           /\ isdir h root = true
           /\ utils.find_package h root "isort" = Some pkg
           /\ forall r0, Some r0 ∈ before ->
                isdir h r0 = false \/ utils.find_package h r0 "isort" = None
     | None =>
         forall r0, Some r0 ∈ utils.patch_roots h ->
           isdir h r0 = false \/ utils.find_package h r0 "isort" = None
     end
  /\ (forall names n,
        n ∈ utils.scan_versions h names
        <-> exists name, name ∈ names /\ String.prefix "python3" name = true
                         /\ int_of_str h (Str.last_field name) = Some n)
  /\ (forall root pkg_name p,
        utils.find_package h root pkg_name = Some p ->
        exists v vs,
          utils.scan_versions h (listdir h (Path.join root ["lib"])) = v :: vs
          /\ foldl Z.max v vs ∈ v :: vs
          /\ (forall n, n ∈ v :: vs -> n <= foldl Z.max v vs)
          /\ p = Path.join (Path.join (Path.join root ["lib"])
                              ["python3." +:+ pretty (foldl Z.max v vs)])
                   ["site-packages"; pkg_name]
          /\ isdir h p = true)
  /\ (forall path,
        List.find (Str.contains "isort") (sys_path w) = Some path ->
        fst r = Ok true /\ sys_path (snd r) = sys_path w /\ console (snd r) = console w)
  /\ (forall pkg,
        List.find (Str.contains "isort") (sys_path w) = None ->
        utils.first_package h (utils.patch_roots h) = Some pkg ->
        fst r = Ok true
        /\ console (snd r) = console w ++ [pkg]
        /\ sys_path (snd r) = list_insert_py (-1) pkg (sys_path w)
        /\ (forall init last, sys_path w = init ++ [last] ->
              sys_path (snd r) = init ++ [pkg; last])
        /\ (sys_path w = [] -> sys_path (snd r) = [pkg])
        /\ Str.contains "isort" pkg = true
        /\ forall h',
             fst (utils.patch_path h' (snd r)) = Ok true
             /\ sys_path (snd (utils.patch_path h' (snd r))) = sys_path (snd r))
  /\ (List.find (Str.contains "isort") (sys_path w) = None ->
      utils.first_package h (utils.patch_roots h) = None ->
      r = (Ok false, w)).
Proof.
  intros r. subst r. split; [|split; [|split; [|split; [|split; [|split]]]]].
  - apply patch_roots_order.
  - apply first_package_first.
  - apply scan_versions_elem.
  - intros root pkg_name p Hp.
    destruct (find_package_highest h root pkg_name p Hp)
      as (v & vs & Hs & (Hin & Hle & ->) & Hd).
    exists v, vs. by repeat split.
  - intros path Hf. by rewrite (patch_path_patched h w path Hf).
  - intros pkg Hf Hp. rewrite (patch_path_found h w pkg Hf Hp). cbn [fst snd].
    pose proof (first_package_contains h _ pkg Hp) as Hc.
    cbn [sys_path console with_sys_path with_console].
    split; [reflexivity|]. split; [reflexivity|]. split; [reflexivity|].
    split; [intros init last ->; apply list_insert_py_last|].
    split; [by intros ->|]. split; [exact Hc|].
    intros h'.
    set (w' := with_sys_path (list_insert_py (-1) pkg) (with_console (fun c => c ++ [pkg]) w)).
    destruct (find_is_Some (Str.contains "isort") (sys_path w') pkg) as [path Hpath];
      [|exact Hc|by rewrite (patch_path_patched h' w' path Hpath)].
    subst w'. cbn [sys_path with_sys_path with_console].
    destruct (list_insert_py_split (-1) pkg (sys_path w)) as (l1 & l2 & _ & ->).
    apply elem_of_app. right. left.
  - intros Hf Hp. by rewrite (patch_path_not_found h w Hf Hp).
Qed.

Lemma patch_path_once_witness :
  let w := path_world ["/a"; "/b"] in
  let pkg := "/venv/lib/python3.10/site-packages/isort" in
  let r := utils.patch_path venv_host w in
  List.find (Str.contains "isort") (sys_path w) = None
  /\ utils.first_package venv_host (utils.patch_roots venv_host) = Some pkg
  /\ fst r = Ok true
  /\ console (snd r) = [] ++ [pkg]
  /\ sys_path (snd r) = list_insert_py (-1) pkg ["/a"; "/b"]
  /\ (forall init last, ["/a"; "/b"] = init ++ [last] ->
        sys_path (snd r) = init ++ [pkg; last])
  /\ (["/a"; "/b"] = [] -> sys_path (snd r) = [pkg])
  /\ Str.contains "isort" pkg = true
  /\ forall h',
       fst (utils.patch_path h' (snd r)) = Ok true
       /\ sys_path (snd (utils.patch_path h' (snd r))) = sys_path (snd r).
Proof.
  intros w pkg r.
  assert (Hf : List.find (Str.contains "isort") (sys_path w) = None) by reflexivity.
  assert (Hp : utils.first_package venv_host (utils.patch_roots venv_host) = Some pkg)
    by (vm_compute; reflexivity).
  split; [exact Hf|]. split; [exact Hp|].
  destruct (patch_path_once venv_host w) as (_ & _ & _ & _ & _ & Hfound & _).
  exact (Hfound pkg Hf Hp).
Defined.

(** C7 as worded fails: with the search path ["/a"; "/b"] the package path
    ends up between the two entries, not in front of them. *)
Lemma prepend_counterexample :
  let w := path_world ["/a"; "/b"] in
  sys_path (snd (utils.patch_path venv_host w))
  = ["/a"; "/venv/lib/python3.10/site-packages/isort"; "/b"]
  /\ ~ prepend_claim venv_host w.
Proof.
  intros w.
  assert (Hr : sys_path (snd (utils.patch_path venv_host w))
               = ["/a"; "/venv/lib/python3.10/site-packages/isort"; "/b"])
    by (vm_compute; reflexivity).
  split; [exact Hr|].
  intros Hclaim.
  specialize (Hclaim "/venv/lib/python3.10/site-packages/isort").
  rewrite Hr in Hclaim. discriminate Hclaim; [reflexivity | vm_compute; reflexivity].
Qed.

(** ** [load] and [__getattr__] do not call each other for ever *)

Lemma bind_cong {A B} (m : M A) (k k' : A -> M B) (w : World) :
  (forall x w', m w = (Ok x, w') -> k x w' = k' x w') -> bind m k w = bind m k' w.
Proof. intros H. unfold bind. destruct (m w) as [[x|e] w']; auto. Qed.

Lemma getattr_with_loaded (r r' : M unit) (key : string) (w : World) :
  is_Some (_settings (settings w)) ->
  settings_py.getattr_with r key w = settings_py.getattr_with r' key w.
Proof.
  intros [name Hs]. unfold settings_py.getattr_with. rewrite !bind_gets, Hs. reflexivity.
Qed.

Lemma set_log_level_with_loaded (r r' : M unit) (w : World) :
  is_Some (_settings (settings w)) ->
  settings_py.set_log_level_with r w = settings_py.set_log_level_with r' w.
Proof.
  intros Hs. unfold settings_py.set_log_level_with, bind.
  by rewrite (getattr_with_loaded r r' "log_level" w Hs).
Qed.

Lemma update_key_keeps_handle h flat nested store key :
  inv (fun w => is_Some (_settings (settings w)))
      (settings_py.update_key h flat nested store key).
Proof.
  apply update_key_inv; [by intros ? ? ?|]. intros v. apply inv_modify. by intros w Hw.
Qed.

Lemma update_settings_with_loaded (r r' : M unit) (h : Host) (w : World) :
  is_Some (_settings (settings w)) ->
  settings_py.update_settings_with r h w = settings_py.update_settings_with r' h w.
Proof.
  intros Hs. unfold settings_py.update_settings_with, log_debug.
  rewrite !bind_log_call, !bind_gets. cbv beta.
  cbn [settings with_logger].
  destruct Hs as [name Hs]. rewrite Hs. rewrite !bind_ret.
  apply bind_cong. intros [] w1 Hrun.
  apply set_log_level_with_loaded.
  match type of Hrun with
  | ?m ?w0 = _ =>
      pose proof (inv_final (fun w' => is_Some (_settings (settings w'))) m w0) as Hinv
  end.
  rewrite Hrun in Hinv. apply Hinv.
  - apply inv_for_each. intros key _. apply update_key_keeps_handle.
  - cbn [settings with_logger]. rewrite Hs. eauto.
Qed.

(** Whatever stands for the inner call [self.load()], [load] behaves the
    same: the call is never made. *)
Lemma load_with_reload (r r' : M unit) (h : Host) (vw : option nat) (force : bool)
    (w : World) :
  settings_py.load_with r h vw force w = settings_py.load_with r' h vw force w.
Proof.
  unfold settings_py.load_with.
  assert (Hcore : forall w0,
    bind (bind (settings_py._load h) (fun _ => settings_py.update_settings_with r h))
         (fun _ => s <- gets settings ;;
                   log_debug "Settings %r" [VDict (current_settings s)] ;;;
                   ret (_settings s)) w0
    = bind (bind (settings_py._load h) (fun _ => settings_py.update_settings_with r' h))
         (fun _ => s <- gets settings ;;
                   log_debug "Settings %r" [VDict (current_settings s)] ;;;
                   ret (_settings s)) w0).
  { intros w0. rewrite !bind_assoc. unfold settings_py._load. rewrite !bind_modify.
    cbv beta. unfold bind.
    rewrite (update_settings_with_loaded r r' h); [reflexivity|].
    cbn [settings with_settings _settings settings_py.set__settings
         settings_py.set_on_change]. eauto. }
  destruct vw as [v|].
  - rewrite !bind_modify, !bind_gets. cbv beta.
    destruct (force || bool_decide (is_Some (Some v)) || _); [apply Hcore | reflexivity].
  - rewrite !bind_ret, !bind_gets. cbv beta.
    destruct (force || bool_decide (is_Some None) || _); [apply Hcore | reflexivity].
Qed.

(** Hence [load] satisfies the equation of the source, in which
    [__getattr__] calls [load] itself. *)
Lemma load_unfold (h : Host) (vw : option nat) (force : bool) (w : World) :
  settings_py.load h vw force w
  = settings_py.load_with (settings_py.reload h) h vw force w.
Proof. apply load_with_reload. Qed.

(** ** Sanity checks of the string and path functions *)

Example contains_example :
  Str.contains "isort" "/venv/lib/python3.8/site-packages/isort" = true
  /\ Str.contains "isort" "/usr/lib/python3" = false.
Proof. split; reflexivity. Qed.

Example strip_example : Str.strip "  boom " = "boom".
Proof. reflexivity. Qed.

(** White space outside ASCII: U+00A0 in front, U+2003 and U+3000 behind;
    the bytes of U+00E0, whose second byte is that of U+00A0, stay. *)
Example strip_unicode_example :
  let bytes := fold_right (fun n s => String (ascii_of_nat n) s) "" in
  Str.strip (bytes [194; 160; 98; 111; 111; 109; 195; 160; 226; 128; 131; 227; 128; 128]%nat)
  = bytes [98; 111; 111; 109; 195; 160]%nat.
Proof. vm_compute. reflexivity. Qed.

Example last_field_example :
  Str.last_field "python3.10" = "10" /\ Str.last_field "python3" = "python3".
Proof. split; reflexivity. Qed.

Example ascii_int_example :
  Str.ascii_int "10" = Some 10 /\ Str.ascii_int "python3" = None
  /\ Str.ascii_int "1_0" = Some 10 /\ Str.ascii_int "-3" = Some (-3)
  /\ Str.ascii_int "" = None.
Proof. repeat split; reflexivity. Qed.

Example dirname_example :
  Path.dirname "/home/u/a.py" = "/home/u" /\ Path.dirname "/a.py" = "/"
  /\ Path.dirname "a.py" = "" /\ Path.dirname "/home//a.py" = "/home".
Proof. repeat split; reflexivity. Qed.

Example join_example :
  Path.join "/venv" ["lib"; "python3.8"] = "/venv/lib/python3.8"
  /\ Path.join "/venv/" ["lib"] = "/venv/lib" /\ Path.join "/venv" ["/abs"] = "/abs".
Proof. repeat split; reflexivity. Qed.

Example scan_versions_example :
  utils.scan_versions venv_host ["python3.8"; "python3.10"; "python3"; "python2.7"]
  = [8; 10].
Proof. reflexivity. Qed.

Example list_insert_py_example :
  list_insert_py (-1) 9 [1; 2; 3] = [1; 2; 9; 3] /\ list_insert_py (-1) 9 [] = [9]
  /\ list_insert_py 0 9 [1; 2] = [9; 1; 2].
Proof. repeat split; reflexivity. Qed.

(** The example of the specification: the formatter sorts two imports and
    exits with 0 outside check mode; the view then holds the sorted text. *)
Example sorted_example :
  let h := example_host ∅ ∅ (fun _ => Completed "import a; import b" "" 0) in
  let r := isort_cmd.run h false false (idle_world "import b; import a") in
  fst r = Ok tt
  /\ buffer (the_buffer (snd r)) = "import a; import b"
  /\ status (the_buffer (snd r)) !! "isort" = Some "isort(sorted)".
Proof. vm_compute. repeat split; reflexivity. Qed.

(** * Further properties of the code *)

(** ** The command: cancelling, restarting, finishing *)

Lemma inv_True {A} (m : M A) : inv (fun _ => True) m.
Proof. intros w _. by destruct (m w) as [[x|e] w']. Qed.

Lemma triple_trivial {A} (P : World -> Prop) (m : M A) :
  triple P m (fun _ _ => True) (fun _ _ => True).
Proof. intros w _. by destruct (m w) as [[x|e] w']. Qed.

Lemma triple_of_inv {A} (I : World -> Prop) (m : M A) (E : exn -> World -> Prop) :
  inv I m -> (forall e w, I w -> E e w) -> triple I m (fun _ => I) E.
Proof. intros Hm HE. eapply triple_weaken; [exact Hm | auto | auto | exact HE]. Qed.

Lemma triple_final {A} (P R : World -> Prop) (m : M A) (w : World) :
  triple P m (fun _ => R) (fun _ => R) -> P w -> R (snd (m w)).
Proof. intros Hm Hw. specialize (Hm w Hw). by destruct (m w) as [[x|e] w']. Qed.

(** X1: A kill request never touches the view, never changes the process
    handle, prints nothing, and sends at most the termination signal to the
    process in flight. *)
Theorem kill_request_frame (h : Host) (check : bool) (w : World) :
  let r := isort_cmd.run h check true w in
  the_buffer (snd r) = the_buffer w
  /\ proc (self (snd r)) = proc (self w)
  /\ console (snd r) = console w
  /\ timeouts (snd r) = timeouts w
  /\ (signals (snd r) = signals w
      \/ exists p, proc (self w) = Some p /\ returncode p = None
                   /\ signals (snd r) = signals w ++ [(pid p, SIGTERM)]).
Proof.
  intros r. subst r.
  set (I := fun w' : World =>
    the_buffer w' = the_buffer w /\ proc (self w') = proc (self w)
    /\ console w' = console w /\ timeouts w' = timeouts w /\ signals w' = signals w).
  set (R := fun w' : World =>
    the_buffer w' = the_buffer w /\ proc (self w') = proc (self w)
    /\ console w' = console w /\ timeouts w' = timeouts w
    /\ (signals w' = signals w
        \/ exists p, proc (self w) = Some p /\ returncode p = None
                     /\ signals w' = signals w ++ [(pid p, SIGTERM)])).
  assert (HIR : forall w', I w' -> R w').
  { intros w' (H1 & H2 & H3 & H4 & H5). repeat split; auto. }
  assert (HL : ignores_logger I) by (intros f w' Hw'; exact Hw').
  assert (HS : ignores_settings I) by (intros f w' Hw'; exact Hw').
  apply (triple_final I R); [|by repeat split].
  unfold isort_cmd.run.
  apply triple_bind with (Q := fun _ => I).
  { apply triple_of_inv; [by apply cmd_load_inv | intros; by apply HIR]. }
  intros _. apply triple_bind with (Q := fun _ => I).
  { apply triple_of_inv; [by apply inv_log_call | intros; by apply HIR]. }
  intros _. intros w1 (H1 & H2 & H3 & H4 & H5).
  unfold isort_cmd.kill. rewrite bind_gets. cbv beta.
  destruct (proc (self w1)) as [p|] eqn:Hp; [|simpl; apply HIR; unfold I; simpl; repeat split; congruence].
  rewrite bind_modify. unfold utils.terminate.
  destruct (returncode (utils.polled h p)) eqn:Hpol;
    [simpl; apply HIR; unfold I; simpl; repeat split; congruence|].
  apply polled_None in Hpol as [Hrc _].
  rewrite bind_modify.
  assert (HR : R (with_signals (fun s => s ++ [(pid p, SIGTERM)])
                    (with_self (isort_cmd.set_killed true) w1))).
  { unfold R. simpl. repeat split; try congruence.
    right. exists p. repeat split; [congruence | exact Hrc | by rewrite H5]. }
  destruct (terminate_lookup_error h (pid p)); exact HR.
Qed.

(** X2: When [run] returns normally from a request that is not a kill request,
    the command holds no process handle any more. *)
Theorem run_leaves_no_process (h : Host) (check : bool) (w : World) :
  fst (isort_cmd.run h check false w) = Ok tt ->
  proc (self (snd (isort_cmd.run h check false w))) = None.
Proof.
  set (Q := fun w' : World => proc (self w') = None).
  assert (Hrun : triple (fun _ => True) (isort_cmd.run h check false)
                   (fun _ => Q) (fun _ _ => True)).
  { assert (HL : ignores_logger Q) by (intros f w' Hw'; exact Hw').
    assert (HS : ignores_settings Q) by (intros f w' Hw'; exact Hw').
    unfold isort_cmd.run.
    apply triple_bind with (Q := fun _ _ => True); [apply triple_trivial|]. intros _.
    apply triple_bind with (Q := fun _ _ => True); [apply triple_trivial|]. intros _.
    cbv iota.
    apply triple_bind with (Q := fun c w' => c = self w'); [by apply triple_gets|].
    intros c.
    apply triple_bind with (Q := fun _ => Q).
    { destruct (proc c) as [p|] eqn:Hp.
      - apply triple_bind with (Q := fun _ _ => True); [apply triple_trivial|]. intros _.
        by apply triple_modify.
      - apply triple_ret. intros w' ->. exact Hp. }
    intros _.
    apply triple_bind with (Q := fun _ => Q).
    { apply triple_of_inv; [by apply get_active_file_inv | done]. }
    intros [file|]; [|by apply triple_ret].
    eapply triple_weaken with (P' := fun _ => True) (Q' := fun _ => Q)
                              (E' := fun _ _ => True); auto.
    do 4 (apply triple_bind with (Q := fun _ _ => True); [apply triple_trivial|]; intros ?).
    cbv zeta.
    do 3 (apply triple_bind with (Q := fun _ _ => True); [apply triple_trivial|]; intros ?).
    unfold isort_cmd.do_isort.
    apply triple_bind with (Q := fun c w' => c = self w'); [by apply triple_gets|].
    intros c'. destruct (proc c') as [p'|] eqn:Hp.
    - repeat (apply triple_bind with (Q := fun _ _ => True); [apply triple_trivial|]; intros ?).
      by apply triple_modify.
    - apply triple_ret. intros w' ->. exact Hp. }
  intros Hok. specialize (Hrun w I).
  destruct (isort_cmd.run h check false w) as [[[]|e] w']; [exact Hrun | discriminate].
Qed.

(** X3: On a view that is not Python, or that has no file, [run] starts nothing:
    the view, the console and the pending status timers are as before. *)
Theorem run_skips_other_views (h : Host) (check : bool) (w : World) :
  view_match_python h = false \/ view_file_name h = None ->
  let r := isort_cmd.run h check false w in
  the_buffer (snd r) = the_buffer w /\ console (snd r) = console w
  /\ timeouts (snd r) = timeouts w /\ start_time (self (snd r)) = start_time (self w).
Proof.
  intros Hside r. subst r.
  set (I := fun w' : World =>
    the_buffer w' = the_buffer w /\ console w' = console w
    /\ timeouts w' = timeouts w /\ start_time (self w') = start_time (self w)).
  assert (HL : ignores_logger I) by (intros f w' Hw'; exact Hw').
  assert (HS : ignores_settings I) by (intros f w' Hw'; exact Hw').
  assert (HG : ignores_signals I) by (intros f w' Hw'; exact Hw').
  apply (triple_final I I); [|by repeat split].
  unfold isort_cmd.run.
  apply inv_bind; [by apply cmd_load_inv|]. intros _.
  apply inv_bind; [by apply inv_log_call|]. intros _. cbv iota.
  apply inv_bind; [apply inv_gets|]. intros c.
  apply inv_bind.
  { destruct (proc c); [|apply inv_ret].
    apply inv_bind; [by apply kill_proc_inv|]. intros _.
    apply inv_modify. by intros w' Hw'. }
  intros _.
  apply triple_bind with (Q := fun file w' => I w' /\ file = None).
  { unfold isort_cmd.get_active_file.
    destruct (view_match_python h) eqn:Hpy; cbn [negb].
    - destruct Hside as [?|Hf]; [discriminate|]. rewrite Hf. by apply triple_ret.
    - apply triple_bind with (Q := fun _ => I); [by apply inv_log_call|].
      intros _. by apply triple_ret. }
  intros file. apply triple_pure. intros ->. apply inv_ret.
Qed.

Lemma run_leaves_no_process_witness :
  let h := example_host ∅ ∅ (fun _ => Completed "import os" "" 0) in
  let r := isort_cmd.run h false false (idle_world "import os") in
  fst r = Ok tt /\ proc (self (snd r)) = None.
Proof.
  intros h r.
  assert (H : fst r = Ok tt) by (vm_compute; reflexivity).
  split; [exact H | exact (run_leaves_no_process h false (idle_world "import os") H)].
Defined.

Lemma run_skips_other_views_witness :
  let r := isort_cmd.run plain_text_host false false (idle_world "some notes") in
  (view_match_python plain_text_host = false \/ view_file_name plain_text_host = None)
  /\ the_buffer (snd r) = the_buffer (idle_world "some notes")
  /\ console (snd r) = [] /\ timeouts (snd r) = [] /\ start_time (self (snd r)) = None.
Proof.
  intros r.
  assert (H : view_match_python plain_text_host = false
              \/ view_file_name plain_text_host = None) by (left; reflexivity).
  split; [exact H|].
  exact (run_skips_other_views plain_text_host false (idle_world "some notes") H).
Defined.

(** What [do_isort] does when the formatter completes with exit code 0. *)
Lemma do_isort_succeeded (h : Host) (file : string) (check : bool) (w : World)
    (p : Popen) (t0 : Q) (name : string) (tv : value) (out err : string) :
  proc (self w) = Some p -> start_time (self w) = Some t0 ->
  _settings (settings w) = Some name ->
  current_settings (settings w) !! "timeout" = Some tv ->
  communicate h (pid p) (buffer (the_buffer w)) tv = Completed out err 0 ->
  let replaced := negb (String.eqb out (buffer (the_buffer w))) && negb check in
  let sel := {| isort_cmd.a := 0%nat; isort_cmd.b := isort_cmd.size (the_buffer w) |} in
  isort_cmd.do_isort h file check w
  = (Ok tt,
     with_self (isort_cmd.set_proc None)
       ((if replaced
         then fun w' =>
                with_view (isort_cmd.replace sel out)
                  (with_logger (emit [call Logging.DEBUG "Replacing contents" []]) w')
         else fun w' => w')
          (with_timeouts (fun t => t ++ [1000])
             (with_view (isort_cmd.view_set_status "isort" "isort(sorted)")
                (with_logger
                   (emit [sorted_call h file t0;
                          call Logging.DEBUG "[%s]" [VStr "Finished"]])
                   (with_self
                      (isort_cmd.set_proc
                         (Some {| p_call := p_call p; pid := pid p;
                                  returncode := Some 0 |}))
                      (with_logger (emit [cmd_call p]) w))))))).
Proof.
  intros Hp Ht0 Hs Htv Hc replaced sel.
  unfold isort_cmd.do_isort, log_debug, log_info, log_warning, log_error.
  run_step. rewrite Hp. run_step.
  erewrite bind_ok; [|by apply getattr_loaded with (name := name)].
  run_step. simpl the_buffer. rewrite substr_whole.
  erewrite bind_ok; cycle 1.
  { erewrite try_except_ok; [reflexivity|].
    unfold isort_cmd.proc_communicate. rewrite Hc. repeat run_step. reflexivity. }
  run_step. simpl. rewrite Ht0. repeat run_step.
  unfold isort_cmd.set_status. repeat run_step.
  fold sel. fold replaced. destruct replaced; repeat run_step; reflexivity.
Qed.

(** X4: After a run that completes with exit code 0 the status reads
    [isort(sorted)], nothing is printed, the process handle is dropped, and
    the text of the view is the formatter's output unless the command runs in
    check mode. *)
Theorem zero_exit_applies_output (h : Host) (file : string) (check : bool) (w : World)
    (p : Popen) (t0 : Q) (name : string) (tv : value) (out err : string) :
  proc (self w) = Some p -> start_time (self w) = Some t0 ->
  _settings (settings w) = Some name ->
  current_settings (settings w) !! "timeout" = Some tv ->
  communicate h (pid p) (buffer (the_buffer w)) tv = Completed out err 0 ->
  let r := isort_cmd.do_isort h file check w in
  fst r = Ok tt
  /\ buffer (the_buffer (snd r)) = (if check then buffer (the_buffer w) else out)
  /\ status (the_buffer (snd r)) = <["isort" := "isort(sorted)"]> (status (the_buffer w))
  /\ console (snd r) = console w
  /\ timeouts (snd r) = timeouts w ++ [1000]
  /\ proc (self (snd r)) = None.
Proof.
  intros Hp Ht0 Hs Htv Hc r. subst r.
  rewrite (do_isort_succeeded h file check w p t0 name tv out err Hp Ht0 Hs Htv Hc).
  destruct (String.eqb_spec out (buffer (the_buffer w))) as [->|Hne]; destruct check;
    simpl; repeat split; try reflexivity.
  apply replace_whole.
Qed.

Lemma zero_exit_applies_output_witness :
  let h := example_host ∅ ∅ (fun _ => Completed "import a; import b" "" 0) in
  let r := isort_cmd.do_isort h example_file false (running_world "import b; import a") in
  fst r = Ok tt
  /\ buffer (the_buffer (snd r)) = "import a; import b"
  /\ status (the_buffer (snd r)) = <["isort" := "isort(sorted)"]> ∅
  /\ console (snd r) = []
  /\ timeouts (snd r) = [] ++ [1000]
  /\ proc (self (snd r)) = None.
Proof.
  apply (zero_exit_applies_output
           (example_host ∅ ∅ (fun _ => Completed "import a; import b" "" 0))
           example_file false (running_world "import b; import a") example_proc 0%Q
           settings_file (VFloat 1%Q) "import a; import b" ""); reflexivity.
Defined.

(** [do_isort] without a process handle does nothing at all. *)
Lemma do_isort_idle (h : Host) (file : string) (check : bool) (w : World) :
  proc (self w) = None -> isort_cmd.do_isort h file check w = (Ok tt, w).
Proof. intros Hp. unfold isort_cmd.do_isort. rewrite bind_gets, Hp. reflexivity. Qed.

(** ** Killing a process *)

(** X5: [kill_proc] never raises and touches nothing but the signals.  It
    sends nothing to a process whose exit code the process object holds, or
    which the poll of [terminate] finds to have exited (an interpreter from
    3.9 on); to any other process it sends the termination signal, and the
    kill signal after it exactly when the termination went through, the
    process did not exit within the wait, and the poll of [kill] finds it
    running still.  The process object holds afterwards the exit code it
    held, or the one found by a poll or by the wait. *)
Theorem kill_proc_signals (h : Host) (p : Popen) (w : World) :
  exists p' extra,
    utils.kill_proc h p w = (Ok p', with_signals (fun s => s ++ extra) w)
    /\ extra
       = match returncode p with
         | Some _ => []
         | None =>
             match poll h (pid p) with
             | Some _ => []
             | None =>
                 if terminate_lookup_error h (pid p) then [(pid p, SIGTERM)]
                 else match wait_result h (pid p) with
                      | Some _ => [(pid p, SIGTERM)]
                      | None =>
                          match poll_after_wait h (pid p) with
                          | Some _ => [(pid p, SIGTERM)]
                          | None => [(pid p, SIGTERM); (pid p, SIGKILL)]
                          end
                      end
             end
         end
    /\ returncode p'
       = match returncode p with
         | Some rc => Some rc
         | None =>
             match poll h (pid p) with
             | Some rc => Some rc
             | None =>
                 if terminate_lookup_error h (pid p) then None
                 else match wait_result h (pid p) with
                      | Some rc => Some rc
                      | None => poll_after_wait h (pid p)
                      end
             end
         end.
Proof. apply kill_proc_run. Qed.

(** ** The status entry *)

(** X6: Setting the status and clearing it again leaves no entry under the key
    [isort], keeps every other status entry and the text, and leaves one
    pending timer. *)
Theorem status_set_then_cleared (text : string) (w : World) :
  let w' := snd (isort_cmd.clear_status (snd (isort_cmd.set_status text w))) in
  status (the_buffer w') !! "isort" = None
  /\ (forall key, key <> "isort" ->
        status (the_buffer w') !! key = status (the_buffer w) !! key)
  /\ buffer (the_buffer w') = buffer (the_buffer w)
  /\ timeouts w' = timeouts w ++ [1000].
Proof.
  simpl. repeat split.
  - apply lookup_delete_eq.
  - intros key Hk. rewrite lookup_delete_ne, lookup_insert_ne; done.
Qed.

(** ** Configuring and unconfiguring the logger *)

(** X7: [unconfigure_logger] undoes [configure_logger]: no handler is left, and
    configuring again installs a new stream handler with the formatter. *)
Theorem unconfigure_after_configure (h : Host) (lg : Logging.Logger) :
  exists lg',
    utils.configure_logger h lg = inr lg'
    /\ Logging.handlers (utils.unconfigure_logger lg') = []
    /\ exists lg'',
         utils.configure_logger h (utils.unconfigure_logger lg') = inr lg''
         /\ Logging.handlers lg''
            = [ {| Logging.h_class := Logging.StreamHandler;
                   Logging.formatter :=
                     Some {| Logging.fmt := utils.logger_format h; Logging.style := "{";
                             Logging.datefmt := "%Y-%m-%d %H:%M:%S" |} |} ].
Proof.
  destruct lg as [lv pl pr hs rs].
  destruct hs as [|h0 [|h1 hs]]; eexists; (split; [reflexivity|]);
    (split; [reflexivity|]); eexists; split; reflexivity.
Qed.

(** [unconfigure_logger] removes the first handler only, and does nothing to
    a logger without handlers. *)
Lemma unconfigure_logger_handlers (lg : Logging.Logger) :
  Logging.handlers (utils.unconfigure_logger lg) = tail (Logging.handlers lg)
  /\ Logging.level (utils.unconfigure_logger lg) = Logging.level lg
  /\ Logging.records (utils.unconfigure_logger lg) = Logging.records lg.
Proof. destruct lg as [lv pl pr [|h0 hs] rs]; by repeat split. Qed.

(** X8: [plugin_loaded] never fails: it leaves the logger at INFO level with one
    handler and propagation off, logs exactly one record, at INFO level, and
    touches nothing else. *)
Theorem plugin_loaded_logs (h : Host) (__name__ : string) (w : World) :
  let r := isort_cmd.plugin_loaded h __name__ w in
  fst r = Ok tt
  /\ Logging.level (logger (snd r)) = Logging.INFO
  /\ Logging.propagate (logger (snd r)) = false
  /\ length (Logging.handlers (logger (snd r))) = 1%nat
  /\ Logging.records (logger (snd r))
     = Logging.records (logger w)
       ++ [call Logging.INFO "Loaded isort plugin (%s)." [VStr __name__]]
  /\ same_outside_settings w (snd r)
  /\ settings (snd r) = settings w.
Proof.
  intros r. subst r. unfold isort_cmd.plugin_loaded, log_info.
  rewrite bind_gets. cbv beta.
  destruct (configure_logger_handlers h (logger w))
    as (lg' & Hc & Hlv & Hpr & Hrec & Hpl & h0 & Hh).
  rewrite Hc. unfold log_call. repeat run_step. unfold modify.
  destruct w as [st lg sf vw co sg ti sp].
  cbn [fst snd logger with_logger settings self the_buffer console signals timeouts
       sys_path] in *.
  assert (Hen : Logging.isEnabledFor lg' Logging.INFO = true).
  { unfold Logging.isEnabledFor, Logging.getEffectiveLevel. by rewrite Hlv. }
  split; [reflexivity|].
  rewrite log_level, log_records, Hen, Hlv, Hrec.
  unfold Logging.log. rewrite Hen. cbn [Logging.propagate Logging.handlers].
  rewrite Hpr, Hh. by repeat split.
Qed.

(** ** Applying a known log level *)

(** X9: A configured level that the logging library knows by name becomes the
    level of the logger; nothing is logged. *)
Theorem known_level_applied (h : Host) (w : World) (name s : string) (n : Z) :
  _settings (settings w) = Some name ->
  current_settings (settings w) !! "log_level" = Some (VStr s) ->
  Logging.name_to_level s = Some n ->
  settings_py.set_log_level h w = (Ok tt, with_logger (Logging.set_level n) w).
Proof.
  intros Hs Hl Hn.
  unfold settings_py.set_log_level, settings_py.set_log_level_with.
  fold (settings_py.__getattr__ h "log_level").
  erewrite bind_ok; [|by apply getattr_loaded with (name := name)].
  cbv beta iota.
  erewrite try_except_ok; [reflexivity|].
  unfold settings_py.logger_setLevel. run_step.
  unfold Logging.setLevel, Logging._checkLevel. rewrite Hn. reflexivity.
Qed.

Lemma known_level_applied_witness :
  settings_py.set_log_level (example_host ∅ ∅ (fun _ => TimedOut))
    (configured_world (VStr "DEBUG"))
  = (Ok tt, with_logger (Logging.set_level 10) (configured_world (VStr "DEBUG"))).
Proof.
  apply (known_level_applied (example_host ∅ ∅ (fun _ => TimedOut))
           (configured_world (VStr "DEBUG")) settings_file "DEBUG" 10); reflexivity.
Defined.

(** ** The settings object: caching, lazy loading, snapshots *)

(** X10: A call of [load] without a view and without [force] on an object that
    holds a settings handle reads no source: it logs the snapshot and
    returns the handle. *)
Theorem load_cached (h : Host) (w : World) (name : string) :
  _settings (settings w) = Some name ->
  settings_py.load h None false w
  = (Ok (Some name),
     with_logger
       (emit [call Logging.DEBUG "Settings %r" [VDict (current_settings (settings w))]])
       w).
Proof.
  intros Hs. unfold settings_py.load, settings_py.load_with, log_debug.
  run_step. run_step. rewrite Hs.
  rewrite (bool_decide_eq_false_2 (is_Some None)) by (intros [? ?]; discriminate).
  rewrite (bool_decide_eq_false_2 (Some name = None)) by discriminate.
  cbn [orb]. repeat run_step. cbn [settings with_logger]. rewrite Hs. reflexivity.
Qed.

Lemma load_cached_witness :
  settings_py.load (example_host layered_flat layered_store (fun _ => TimedOut)) None false
    (running_world "import os")
  = (Ok (Some settings_file),
     with_logger
       (emit [call Logging.DEBUG "Settings %r"
                [VDict (current_settings (settings (running_world "import os")))]])
       (running_world "import os")).
Proof.
  apply (load_cached (example_host layered_flat layered_store (fun _ => TimedOut))
           (running_world "import os") settings_file).
  reflexivity.
Defined.

(** When the object holds a handle, or has no view, an attribute look-up
    goes straight to the snapshot, whatever [self.load()] would do. *)
Lemma getattr_with_skip (r : M unit) (key : string) (w : World) :
  _settings (settings w) <> None \/ view (settings w) = None ->
  settings_py.getattr_with r key w = settings_py.lookup_current key w.
Proof.
  intros H. unfold settings_py.getattr_with. rewrite bind_gets.
  destruct (_settings (settings w)) as [n|], (view (settings w)) as [v|];
    try reflexivity.
  destruct H as [H|H]; [by destruct H | discriminate].
Qed.

Lemma set_log_level_with_skip (r r' : M unit) (w : World) :
  _settings (settings w) <> None \/ view (settings w) = None ->
  settings_py.set_log_level_with r w = settings_py.set_log_level_with r' w.
Proof.
  intros H. unfold settings_py.set_log_level_with, bind.
  by rewrite !(getattr_with_skip _ "log_level" w H).
Qed.

(** X11: An attribute look-up on an object that holds a handle, or has no view,
    reads nothing and changes nothing: it yields the value of the snapshot,
    and raises [AttributeError] for a name the snapshot does not have. *)
Theorem getattr_without_load (h : Host) (key : string) (w : World) :
  _settings (settings w) <> None \/ view (settings w) = None ->
  exists res,
    settings_py.__getattr__ h key w = (res, w)
    /\ match current_settings (settings w) !! key with
       | Some v => res = Ok v
       | None => exists e, res = Raise e /\ e_class e = AttributeError
       end.
Proof.
  intros H. unfold settings_py.__getattr__. rewrite (getattr_with_skip _ key w H).
  unfold settings_py.lookup_current. rewrite bind_gets.
  destruct (current_settings (settings w) !! key); eexists; (split; [reflexivity|]);
    [reflexivity | by eexists].
Qed.

Lemma getattr_without_load_witness :
  exists res,
    settings_py.__getattr__ (example_host ∅ ∅ (fun _ => TimedOut)) "colour"
      (running_world "import os")
    = (res, running_world "import os")
    /\ exists e, res = Raise e /\ e_class e = AttributeError.
Proof.
  apply (getattr_without_load (example_host ∅ ∅ (fun _ => TimedOut)) "colour"
           (running_world "import os")).
  left. discriminate.
Defined.

Lemma handle_is_logger name vw : ignores_logger (handle_is name vw).
Proof. intros f w Hw. exact Hw. Qed.

Lemma handle_is_assign h name vw key v :
  inv (handle_is name vw) (settings_py.assign h key v).
Proof. apply inv_modify. intros w Hw. exact Hw. Qed.

Lemma handle_is_update_settings (r : M unit) h name vw :
  inv (handle_is name vw) r ->
  inv (handle_is name vw) (settings_py.update_settings_with r h).
Proof.
  intros Hr. apply update_settings_with_inv; [apply handle_is_logger| |exact Hr].
  intros vw' name' key _. apply update_key_inv; [apply handle_is_logger|].
  intros v. apply handle_is_assign.
Qed.

(** A [load] that goes through [_load] leaves the handle of the settings
    file on the object, also when it ends in an exception. *)
Lemma load_sets_handle (h : Host) (vw : option nat) (force : bool) (w : World) :
  force = true \/ is_Some vw \/ _settings (settings w) = None ->
  handle_is (utils.SETTINGS_NAME h)
    (match vw with Some v => Some v | None => view (settings w) end)
    (snd (settings_py.load h vw force w)).
Proof.
  intros Hc.
  set (J := handle_is (utils.SETTINGS_NAME h)
              (match vw with Some v => Some v | None => view (settings w) end)).
  unfold settings_py.load, settings_py.load_with.
  set (w0 := match vw with
             | Some _ => with_settings (settings_py.set_view vw) w
             | None => w
             end).
  assert (Hstart : forall (k : unit -> M (option string)),
            bind (match vw with
                  | Some _ => modify (with_settings (settings_py.set_view vw))
                  | None => ret tt
                  end) k w = k tt w0).
  { intros k. subst w0. by destruct vw. }
  rewrite Hstart. rewrite bind_gets. cbv beta.
  assert (Hcond : force || bool_decide (is_Some vw)
                  || bool_decide (_settings (settings w0) = None) = true).
  { destruct Hc as [->|[Hv|Hn]]; [reflexivity| |].
    - rewrite (bool_decide_eq_true_2 _ Hv). by rewrite orb_true_r.
    - assert (Hn0 : _settings (settings w0) = None) by (subst w0; by destruct vw).
      rewrite (bool_decide_eq_true_2 _ Hn0). by rewrite orb_true_r. }
  rewrite Hcond. rewrite !bind_assoc. unfold settings_py._load at 1.
  rewrite bind_modify. cbv beta.
  match goal with
  | |- J (snd (bind ?m ?k ?w1)) =>
      assert (Hw1 : J w1) by (subst J w0; unfold handle_is; by destruct vw);
      generalize Hw1; generalize w1
  end.
  clear Hw1. intros w1 Hw1.
  apply (triple_final J J); [|exact Hw1].
  apply inv_bind.
  { apply handle_is_update_settings, inv_raise. }
  intros _. apply inv_bind; [apply inv_gets|]. intros s.
  apply inv_bind; [apply inv_log_call, handle_is_logger | intros _; apply inv_ret].
Qed.

(** X12: The first attribute look-up on an object that has a view and no handle
    loads the settings: afterwards the object holds the handle of the
    settings file, also when the look-up fails, and no later look-up loads
    again. *)
Theorem getattr_loads_once (h : Host) (key : string) (w : World) (v : nat) :
  _settings (settings w) = None -> view (settings w) = Some v ->
  let w' := snd (settings_py.__getattr__ h key w) in
  _settings (settings w') = Some (utils.SETTINGS_NAME h)
  /\ view (settings w') = Some v
  /\ forall key', snd (settings_py.__getattr__ h key' w') = w'.
Proof.
  intros Hs Hv w'.
  assert (HJ : handle_is (utils.SETTINGS_NAME h) (Some v) w').
  { subst w'. unfold settings_py.__getattr__, settings_py.getattr_with.
    rewrite bind_gets, Hs, Hv. unfold settings_py.reload. rewrite !bind_assoc.
    pose proof (load_sets_handle h None false w (or_intror (or_intror Hs))) as HL.
    rewrite Hv in HL. unfold bind.
    destruct (settings_py.load h None false w) as [[x|e] w1]; [|exact HL].
    simpl in HL. simpl. unfold settings_py.lookup_current, bind, gets.
    by destruct (current_settings (settings w1) !! key). }
  destruct HJ as [HJ1 HJ2]. split; [exact HJ1|]. split; [exact HJ2|].
  intros key'. unfold settings_py.__getattr__.
  rewrite getattr_with_skip by (left; by rewrite HJ1).
  unfold settings_py.lookup_current, bind, gets.
  by destruct (current_settings (settings w') !! key').
Qed.

Lemma getattr_loads_once_witness :
  let h := example_host layered_flat layered_store (fun _ => TimedOut) in
  let r := settings_py.__getattr__ h "timeout" (idle_world "import os") in
  fst r = Ok (VInt 5)
  /\ _settings (settings (snd r)) = Some settings_file
  /\ view (settings (snd r)) = Some 0%nat
  /\ forall key', snd (settings_py.__getattr__ h key' (snd r)) = snd r.
Proof.
  intros h r. split; [vm_compute; reflexivity|].
  apply (getattr_loads_once h "timeout" (idle_world "import os") 0%nat); reflexivity.
Defined.

Lemma as_dict_loop (h : Host) (w : World) (keys : list string) :
  _settings (settings w) <> None \/ view (settings w) = None ->
  (forall k, k ∈ keys -> is_Some (current_settings (settings w) !! k)) ->
  (fix go (keys : list string) : M (list (string * value)) :=
     match keys with
     | [] => ret []
     | k :: rest =>
         v <- settings_py.__getattr__ h k ;;
         tl <- go rest ;;
         ret ((k, v) :: tl)
     end) keys w
  = (Ok ((fun k => (k, default VNone (current_settings (settings w) !! k))) <$> keys), w).
Proof.
  intros Hn. induction keys as [|k keys IH]; intros Hin; [reflexivity|].
  destruct (Hin k) as [x Hx]; [left|].
  assert (Hget : settings_py.__getattr__ h k w = (Ok x, w)).
  { unfold settings_py.__getattr__. rewrite (getattr_with_skip _ k w Hn).
    unfold settings_py.lookup_current. rewrite bind_gets. by rewrite Hx. }
  rewrite (bind_ok _ _ _ _ _ Hget).
  rewrite (bind_ok _ _ _ _ _ (IH (fun k' Hk' => Hin k' (list_elem_of_further _ _ _ Hk')))).
  simpl. by rewrite Hx.
Qed.

(** X13: [as_dict] on an object that needs no load returns the snapshot: the six
    options in the order of the defaults, with the values the snapshot
    holds. *)
Theorem as_dict_snapshot (h : Host) (w : World) :
  _settings (settings w) <> None \/ view (settings w) = None ->
  six_keys w ->
  exists items,
    settings_py.as_dict h w = (Ok items, w)
    /\ items.*1 = settings_py.default_keys
    /\ list_to_map items = current_settings (settings w).
Proof.
  intros Hn Hsix.
  assert (Hin : forall k, k ∈ settings_py.default_keys ->
                  is_Some (current_settings (settings w) !! k)).
  { intros k Hk. apply elem_of_dom. unfold six_keys in Hsix. rewrite Hsix.
    by apply elem_of_list_to_set. }
  eexists. split; [exact (as_dict_loop h w settings_py.default_keys Hn Hin)|].
  split.
  { rewrite <- list_fmap_compose. apply list_fmap_id. }
  apply map_eq. intros k.
  destruct (decide (k ∈ settings_py.default_keys)) as [Hk|Hk].
  - destruct (Hin k Hk) as [x Hx]. rewrite Hx.
    apply elem_of_list_to_map_1.
    + rewrite <- list_fmap_compose.
      change (NoDup (id <$> settings_py.default_keys)). rewrite list_fmap_id.
      apply (bool_decide_unpack (NoDup settings_py.default_keys)). by vm_compute.
    + apply list_elem_of_fmap. exists k. by rewrite Hx.
  - transitivity (@None value).
    + apply not_elem_of_list_to_map. rewrite <- list_fmap_compose.
      change (k ∉ id <$> settings_py.default_keys). by rewrite list_fmap_id.
    + symmetry. apply not_elem_of_dom. unfold six_keys in Hsix. rewrite Hsix.
      by rewrite elem_of_list_to_set.
Qed.

Lemma as_dict_snapshot_witness :
  exists items,
    settings_py.as_dict (example_host ∅ ∅ (fun _ => TimedOut)) (running_world "import os")
    = (Ok items, running_world "import os")
    /\ items.*1 = settings_py.default_keys
    /\ list_to_map items = current_settings (settings (running_world "import os")).
Proof.
  apply (as_dict_snapshot (example_host ∅ ∅ (fun _ => TimedOut))
           (running_world "import os")).
  - left. discriminate.
  - unfold six_keys. simpl. unfold settings_py.default_settings.
    by rewrite dom_list_to_map_L.
Defined.

(** X14: Loading again for the same view, from the same sources, gives the same
    snapshot: what a load stores comes from the sources, not from what the
    snapshot held. *)
Theorem load_twice (h : Host) (v : nat) (f1 f2 : bool) (w : World)
    (nd : gmap string value) :
  nested_of h (Some v) = VDict nd ->
  let w1 := snd (settings_py.load h (Some v) f1 w) in
  current_settings (settings (snd (settings_py.load h (Some v) f2 w1)))
  = current_settings (settings w1).
Proof.
  intros Hnd w1. apply map_eq. intros k.
  rewrite (load_resolves h v f2 w1 nd Hnd k).
  destruct (decide (k ∈ settings_py.default_keys)) as [Hk|Hk]; [|reflexivity].
  destruct (pick h (view_settings h v) nd (load_settings h (utils.SETTINGS_NAME h)) k)
    as [x|] eqn:Hp; [|reflexivity].
  subst w1. rewrite (load_resolves h v f1 w nd Hnd k).
  rewrite decide_True by exact Hk. by rewrite Hp.
Qed.

Lemma load_twice_witness :
  let h := example_host layered_flat layered_store (fun _ => TimedOut) in
  let w1 := snd (settings_py.load h (Some 0%nat) false (idle_world "import os")) in
  nested_of h (Some 0%nat) = VDict {[ "timeout" := VInt 7 ]}
  /\ current_settings (settings (snd (settings_py.load h (Some 0%nat) true w1)))
     = current_settings (settings w1).
Proof.
  intros h w1. split; [reflexivity|].
  apply (load_twice h 0%nat false true (idle_world "import os") {[ "timeout" := VInt 7 ]}).
  reflexivity.
Defined.

Lemma set_log_level_keeps_settings (r : M unit) (w : World) :
  _settings (settings w) <> None \/ view (settings w) = None ->
  settings (snd (settings_py.set_log_level_with r w)) = settings w.
Proof.
  intros H. rewrite (set_log_level_with_skip r (ret tt) w H).
  apply (inv_final (fun w' => settings w' = settings w)); [|reflexivity].
  apply set_log_level_with_inv; [|apply inv_ret].
  intros f w' Hw'. exact Hw'.
Qed.

(** X15: [update_settings] on an object without a view consults the settings
    file only: an option takes the value stored there under its prefixed
    key, expanded without a view, and keeps its value when none is stored. *)
Theorem update_without_view (h : Host) (w : World) (key : string) :
  view (settings w) = None -> key ∈ settings_py.default_keys ->
  let store :=
    load_settings h (default (utils.SETTINGS_NAME h) (_settings (settings w))) in
  let resolved :=
    current_settings (settings (snd (settings_py.update_settings h w))) !! key in
  (forall z, provides store (settings_py.global_key key) z ->
     resolved = Some (utils.expand h z None))
  /\ (absent store (settings_py.global_key key) ->
      resolved = current_settings (settings w) !! key).
Proof.
  intros Hv Hkey store resolved.
  assert (Hres : resolved
                 = match pick h ∅ ∅ store key with
                   | Some x => Some (utils.expand h x None)
                   | None => current_settings (settings w) !! key
                   end).
  { subst resolved.
    unfold settings_py.update_settings, settings_py.update_settings_with, log_debug.
    rewrite bind_log_call, bind_gets. cbv beta. cbn [settings with_logger].
    rewrite Hv.
    set (w0 := with_logger _ w).
    assert (Hstep : forall (k : string -> M unit),
              bind (match _settings (settings w) with
                    | Some name => ret name
                    | None =>
                        log_call Logging.DEBUG "Loading settings (%r)"
                          [VStr (utils.SETTINGS_NAME h)] ;;;
                        ret (utils.SETTINGS_NAME h)
                    end) k w0
              = k (default (utils.SETTINGS_NAME h) (_settings (settings w)))
                  (match _settings (settings w) with
                   | Some _ => w0
                   | None =>
                       with_logger
                         (Logging.log Logging.DEBUG (Logging.Text "Loading settings (%r)")
                            [VStr (utils.SETTINGS_NAME h)]) w0
                   end)).
    { intros k. by destruct (_settings (settings w)). }
    rewrite Hstep. fold store.
    set (w1 := match _settings (settings w) with Some _ => w0 | None => _ end).
    assert (Hw1 : settings w1 = settings w) by (subst w1 w0; by destruct (_settings (settings w))).
    destruct (update_loop h ∅ ∅ store settings_py.default_keys w1)
      as (Hok & Hs & Hvw & Hcur).
    destruct (for_each settings_py.default_keys
                (settings_py.update_key h ∅ (VDict ∅) store) w1) as [res w2] eqn:Hrun.
    simpl in Hok, Hs, Hvw, Hcur. subst res.
    rewrite (bind_ok _ _ _ _ _ Hrun).
    rewrite set_log_level_keeps_settings by (right; by rewrite Hvw, Hw1).
    rewrite Hcur, decide_True by exact Hkey. by rewrite Hw1, Hv. }
  assert (Hflat : absent (∅ : gmap string value) (settings_py.flat_key h key)) by (by left).
  assert (Hnest : absent (∅ : gmap string value) key) by (by left).
  split.
  - intros z Hz. by rewrite Hres, (pick_global h ∅ ∅ store key z Hflat Hnest Hz).
  - intros Ha. by rewrite Hres, (pick_none h ∅ ∅ store key Hflat Hnest Ha).
Qed.

Lemma update_without_view_witness :
  let h := example_host layered_flat layered_store (fun _ => TimedOut) in
  let w := with_settings (settings_py.set_view None) (idle_world "import os") in
  current_settings (settings (snd (settings_py.update_settings h w))) !! "timeout"
  = Some (VInt 9).
Proof.
  intros h w.
  assert (Hk : "timeout" ∈ settings_py.default_keys) by (right; left).
  destruct (update_without_view h w "timeout" eq_refl Hk) as [Hp _].
  apply (Hp (VInt 9)). split; [reflexivity | discriminate].
Defined.

(** ** Merging dictionaries and expanding variables *)

Lemma merge_fold_lookup (ds : list (gmap string string)) (d : gmap string string)
    (k : string) :
  foldl (fun res x => x ∪ res) d ds !! k
  = head (omap (fun x : gmap string string => x !! k) (reverse (d :: ds))).
Proof.
  revert d. induction ds as [|x ds IH]; intros d.
  - simpl. by destruct (d !! k).
  - cbn [foldl]. rewrite IH. rewrite !reverse_cons, !omap_app.
    destruct (omap (fun x0 : gmap string string => x0 !! k) (reverse ds)) as [|a l];
      [|reflexivity].
    simpl. rewrite lookup_union. by destruct (x !! k), (d !! k).
Qed.

(** X16: [merge] without arguments is [None]; otherwise every key is bound to
    its value in the last dictionary that has it. *)
Theorem merge_last_wins (d : gmap string string) (ds : list (gmap string string)) :
  utils.merge [] = None
  /\ exists m,
       utils.merge (d :: ds) = Some m
       /\ forall k,
            m !! k = head (omap (fun x : gmap string string => x !! k) (reverse (d :: ds))).
Proof.
  split; [reflexivity|]. eexists. split; [reflexivity|].
  intros k. apply merge_fold_lookup.
Qed.

(** X17: The variables [expand] substitutes: those of the environment, and those
    of the window of the view for the names the environment does not
    define; without a view, or for a view without a window, those of the
    environment alone. *)
Theorem expand_environment_wins (h : Host) (v : value) (vw : option nat) :
  exists m,
    utils.expand h v vw = expand_variables h v (Some m)
    /\ (forall k x, environ h !! k = Some x -> m !! k = Some x)
    /\ (forall k, environ h !! k = None ->
          m !! k = match vw with
                   | Some i =>
                       match view_window h i with
                       | Some vars => vars !! k
                       | None => None
                       end
                   | None => None
                   end).
Proof.
  unfold utils.expand, utils.merge. cbn [foldl]. eexists. split; [reflexivity|].
  split.
  - intros k x Hk. by apply lookup_union_Some_l.
  - intros k Hk. rewrite lookup_union_r by exact Hk.
    destruct vw as [i|]; [|apply lookup_empty].
    destruct (view_window h i); [reflexivity | apply lookup_empty].
Qed.

(** ** Unloading the plugin *)

Lemma collect_filter {A} (p : A -> bool) (l acc : list A) :
  foldl (fun to_pop x => if p x then to_pop ++ [x] else to_pop) acc l
  = acc ++ List.filter p l.
Proof.
  revert acc. induction l as [|x l IH]; intros acc; simpl.
  - by rewrite app_nil_r.
  - rewrite IH. destruct (p x); [by rewrite <- app_assoc | reflexivity].
Qed.

Lemma pop_all {A} (l : list string) (m : gmap string A) :
  NoDup l -> (forall k, k ∈ l -> is_Some (m !! k)) ->
  exists m',
    foldl (fun acc mod_name =>
             match acc with
             | inr m0 => hooks.modules_pop mod_name m0
             | inl e => inl e
             end) (inr m) l = inr m'
    /\ forall k, m' !! k = if decide (k ∈ l) then None else m !! k.
Proof.
  revert m. induction l as [|x l IH]; intros m Hnd Hin.
  - exists m. split; [reflexivity|]. intros k. rewrite decide_False; [done|].
    apply not_elem_of_nil.
  - apply NoDup_cons in Hnd as [Hx Hnd].
    destruct (Hin x) as [y Hy]; [left|].
    cbn [foldl]. unfold hooks.modules_pop at 2. rewrite Hy.
    destruct (IH (delete x m) Hnd) as (m' & Hrun & Hm').
    { intros k Hk. rewrite lookup_delete_ne; [apply Hin; by right|].
      intros ->. by apply Hx. }
    exists m'. split; [exact Hrun|]. intros k. rewrite Hm'.
    destruct (decide (k = x)) as [->|Hne].
    + rewrite decide_False by exact Hx. rewrite decide_True by left.
      apply lookup_delete_eq.
    + rewrite lookup_delete_ne by done.
      destruct (decide (k ∈ l)) as [Hk|Hk].
      * rewrite decide_True; [done | by right].
      * rewrite decide_False; [done|]. intros Hk'.
        apply elem_of_cons in Hk' as [?|?]; done.
Qed.

(** X18: [plugin_unloaded] never fails: it removes from the module table the
    modules whose name contains [LIB_NAME], and keeps every other entry. *)
Theorem plugin_unloaded_removes {A} (LIB_NAME : string) (modules : gmap string A) :
  exists modules',
    hooks.plugin_unloaded LIB_NAME modules = inr modules'
    /\ forall k,
         modules' !! k = if Str.contains LIB_NAME k then None else modules !! k.
Proof.
  unfold hooks.plugin_unloaded. rewrite collect_filter. cbn [app].
  set (names := (map_to_list modules).*1).
  assert (Hnd : NoDup names) by apply NoDup_fst_map_to_list.
  assert (Hin : forall k, k ∈ names <-> is_Some (modules !! k)).
  { intros k. subst names. rewrite list_elem_of_fmap. split.
    - intros ([k' x] & -> & Hx). apply elem_of_map_to_list in Hx. by exists x.
    - intros [x Hx]. exists (k, x). split; [done|]. by apply elem_of_map_to_list. }
  destruct (pop_all (List.filter (Str.contains LIB_NAME) names) modules)
    as (m' & Hrun & Hm').
  { apply NoDup_ListNoDup, List.NoDup_filter, NoDup_ListNoDup, Hnd. }
  { intros k Hk. apply Hin. apply list_elem_of_In in Hk.
    apply List.filter_In in Hk as [Hk _]. by apply list_elem_of_In. }
  exists m'. split; [exact Hrun|]. intros k. rewrite Hm'.
  destruct (Str.contains LIB_NAME k) eqn:Hc.
  - destruct (decide (k ∈ List.filter (Str.contains LIB_NAME) names)) as [Hk|Hk];
      [reflexivity|].
    destruct (modules !! k) as [x|] eqn:Hx; [|reflexivity].
    destruct Hk. apply list_elem_of_In, List.filter_In. split; [|exact Hc].
    apply list_elem_of_In, Hin. by exists x.
  - rewrite decide_False; [done|]. intros Hk. apply list_elem_of_In in Hk.
    apply List.filter_In in Hk as [_ Hk]. congruence.
Qed.

(** ** Saving a file *)

(** X19: [on_pre_save] works on a settings object of its own: the attributes of
    the command's settings object, the text and the status of the view, the
    command and the signals stay as they are, for every outcome.  It does
    nothing at all for a view that is not a Python file, and what it prints
    is at most the one line it prints when [on_save] is set. *)
Theorem on_pre_save_frame (h : Host) (w : World) :
  let r := hooks.on_pre_save h w in
  _settings (settings (snd r)) = _settings (settings w)
  /\ current_settings (settings (snd r)) = current_settings (settings w)
  /\ view (settings (snd r)) = view (settings w)
  /\ the_buffer (snd r) = the_buffer w
  /\ self (snd r) = self w
  /\ signals (snd r) = signals w
  /\ timeouts (snd r) = timeouts w
  /\ (console (snd r) = console w
      \/ view_match_python h = true
         /\ console (snd r) = console w ++ ["Python and isorting on save."])
  /\ (view_match_python h = false -> r = (Ok tt, w)).
Proof.
  intros r. subst r. unfold hooks.on_pre_save.
  destruct (view_match_python h) eqn:Hpy; cbn [negb];
    [|repeat split; try reflexivity; by left].
  unfold hooks.with_local_settings.
  set (w0 := with_settings (fun _ => settings_py.__init__ (Some (the_view h))) w).
  set (I := fun w' : World =>
    the_buffer w' = the_buffer w /\ self w' = self w /\ signals w' = signals w
    /\ timeouts w' = timeouts w /\ console w' = console w).
  set (R := fun w' : World =>
    the_buffer w' = the_buffer w /\ self w' = self w /\ signals w' = signals w
    /\ timeouts w' = timeouts w
    /\ (console w' = console w
        \/ console w' = console w ++ ["Python and isorting on save."])).
  assert (HIR : forall w', I w' -> R w').
  { intros w' (H1 & H2 & H3 & H4 & H5). repeat split; auto. }
  assert (HL : ignores_logger I) by (intros f w' Hw'; exact Hw').
  assert (HS : ignores_settings I) by (intros f w' Hw'; exact Hw').
  match goal with
  | |- context [match ?m w0 with _ => _ end] =>
      assert (HR : R (snd (m w0)));
      [|destruct (m w0) as [res w1]; simpl in HR;
        destruct HR as (H1 & H2 & H3 & H4 & H5); simpl;
        repeat split; try assumption; try discriminate;
        destruct H5 as [H5|H5]; [by left | right; by split]]
  end.
  apply (triple_final I R); [|by repeat split].
  apply triple_bind with (Q := fun _ => I).
  { apply triple_of_inv; [by apply cmd_load_inv | intros; by apply HIR]. }
  intros _. apply triple_bind with (Q := fun _ => I).
  { apply triple_of_inv; [by apply cmd_getattr_inv | intros; by apply HIR]. }
  intros on_save. destruct (truthy on_save); cbn [negb].
  - apply triple_modify. intros w' (H1 & H2 & H3 & H4 & H5).
    unfold R. simpl. repeat split; try assumption. right. by rewrite H5.
  - apply triple_ret. exact HIR.
Qed.

(** ** The encoding declaration *)

Lemma take_while_all (p : ascii -> bool) (s : string) (c : ascii) :
  In c (String.list_ascii_of_string (sorter.take_while p s)) -> p c = true.
Proof.
  induction s as [|c' s IH]; simpl; [tauto|].
  destruct (p c') eqn:Hc; simpl; [|tauto].
  intros [<-|H]; auto.
Qed.

Lemma match_coding_name (s e : string) :
  sorter.match_coding s = Some e ->
  e <> "" /\ forall c, In c (String.list_ascii_of_string e) -> sorter.is_name_char c = true.
Proof.
  unfold sorter.match_coding. intros H.
  repeat match type of H with
         | match ?x with _ => _ end = Some _ => destruct x eqn:?; try discriminate
         | (if ?x then _ else _) = Some _ => destruct x eqn:?; try discriminate
         end.
  injection H as <-. split; [discriminate|]. intros c Hc.
  match goal with
  | Heq : sorter.take_while _ _ = _ |- _ => rewrite <- Heq in Hc
  end.
  eapply take_while_all; eassumption.
Qed.

Lemma search_name (s e : string) :
  sorter.search s = Some e ->
  e <> "" /\ forall c, In c (String.list_ascii_of_string e) -> sorter.is_name_char c = true.
Proof.
  induction s as [|c s IH]; cbn [sorter.search].
  - destruct (sorter.match_coding "") eqn:Hm; [|discriminate].
    intros [= <-]. by apply match_coding_name in Hm.
  - destruct (sorter.match_coding (String c s)) eqn:Hm.
    + intros [= <-]. by apply match_coding_name in Hm.
    + destruct (nat_of_ascii c =? 10)%nat; [discriminate | exact IH].
Qed.

(** X20: The encoding read off a region, when there is one, is a non-empty name
    made of letters, digits, hyphens, underscores and full stops only. *)
Theorem encoding_is_name (region : isort_cmd.Region) (v : View) (e : string) :
  sorter.get_encoding_from_region region v = Some e ->
  e <> "" /\ forall c, In c (String.list_ascii_of_string e) -> sorter.is_name_char c = true.
Proof.
  unfold sorter.get_encoding_from_region, sorter.findall.
  destruct (sorter.skip sorter.is_blank (isort_cmd.substr region v)) as [|c rest];
    [discriminate|].
  destruct (Ascii.eqb_spec c "#") as [->|Hne].
  - destruct (sorter.search rest) as [name|] eqn:Hs; [|discriminate].
    intros [= <-]. by apply search_name in Hs.
  - intros H. exfalso. revert H.
    destruct c as [[] [] [] [] [] [] [] []]; try discriminate. by destruct Hne.
Qed.

Lemma encoding_is_name_witness :
  let v := {| buffer := "# -*- coding: utf-8 -*-"; status := ∅ |} in
  let region := {| isort_cmd.a := 0; isort_cmd.b := 23 |} in
  sorter.get_encoding_from_region region v = Some "utf-8"
  /\ "utf-8" <> ""
  /\ forall c, In c (String.list_ascii_of_string "utf-8") -> sorter.is_name_char c = true.
Proof.
  intros v region.
  assert (He : sorter.get_encoding_from_region region v = Some "utf-8")
    by (vm_compute; reflexivity).
  split; [exact He|]. exact (encoding_is_name region v "utf-8" He).
Defined.

Lemma name_char_not_space (c : ascii) :
  sorter.is_name_char c = true -> sorter.is_space_or_tab c = false.
Proof.
  destruct c as [[] [] [] [] [] [] [] []]; vm_compute; congruence.
Qed.

Lemma take_while_name (name tail : string) :
  (forall c, In c (String.list_ascii_of_string name) -> sorter.is_name_char c = true) ->
  match tail with
  | String c _ => sorter.is_name_char c = false
  | EmptyString => True
  end ->
  sorter.take_while sorter.is_name_char (name +:+ tail) = name.
Proof.
  intros Hname Htail. induction name as [|c name IH].
  - change ("" +:+ tail) with tail. destruct tail as [|c t]; [reflexivity|].
    cbn [sorter.take_while]. by rewrite Htail.
  - change (String c name +:+ tail) with (String c (name +:+ tail)).
    cbn [sorter.take_while]. rewrite (Hname c) by (by left).
    rewrite IH; [reflexivity|]. intros c' Hc'. apply Hname. by right.
Qed.

(** X21: A first line of the form [# -*- coding: <name> -*-] declares the
    encoding [<name>]: the name is read up to the first character that
    cannot be part of one. *)
Theorem coding_comment_recognised (name tail : string) (v : View) :
  name <> "" ->
  (forall c, In c (String.list_ascii_of_string name) -> sorter.is_name_char c = true) ->
  match tail with
  | String c _ => sorter.is_name_char c = false
  | EmptyString => True
  end ->
  buffer v = "# -*- coding: " +:+ name +:+ tail ->
  sorter.get_encoding_from_region
    {| isort_cmd.a := 0; isort_cmd.b := isort_cmd.size v |} v = Some name.
Proof.
  intros Hne Hname Htail Hbuf.
  unfold sorter.get_encoding_from_region. rewrite substr_whole, Hbuf.
  pose proof (take_while_name name tail Hname Htail) as Htake.
  destruct name as [|c0 name]; [done|].
  assert (Hc0 : sorter.is_space_or_tab c0 = false).
  { apply name_char_not_space, Hname. by left. }
  change (String c0 name +:+ tail) with (String c0 (name +:+ tail)) in *.
  set (X := name +:+ tail) in *.
  assert (Hcons : forall c s t, String c s +:+ t = String c (s +:+ t)) by reflexivity.
  rewrite !Hcons. change ("" +:+ String c0 X) with (String c0 X). clear Hcons.
  unfold sorter.findall. cbn [sorter.skip].
  change (sorter.is_blank "#") with false. cbv iota.
  do 5 (cbn [sorter.search]; change (sorter.match_coding _) with (@None string) at 1;
        cbv iota; match goal with
                  | |- context [(nat_of_ascii ?c =? 10)%nat] =>
                      change (nat_of_ascii c =? 10)%nat with false
                  end; cbv iota).
  cbn [sorter.search sorter.match_coding].
  change (Ascii.eqb ":" ":" || Ascii.eqb ":" "=") with true. cbv iota.
  cbn [sorter.skip]. change (sorter.is_space_or_tab " ") with true. cbv iota.
  rewrite Hc0. rewrite Htake. reflexivity.
Qed.

Lemma coding_comment_recognised_witness :
  let v := {| buffer := "# -*- coding: latin-1 -*-"; status := ∅ |} in
  sorter.get_encoding_from_region
    {| isort_cmd.a := 0; isort_cmd.b := isort_cmd.size v |} v = Some "latin-1".
Proof.
  intros v.
  apply (coding_comment_recognised "latin-1" " -*-" v).
  - discriminate.
  - intros c Hc. simpl in Hc.
    repeat (destruct Hc as [<-|Hc]; [reflexivity|]). destruct Hc.
  - reflexivity.
  - reflexivity.
Defined.

(** ** Starting the formatter *)

(** X22: When the formatter cannot be started, [run] ends in an exception: no
    status is shown, nothing is printed, and the view is as it was. *)
Theorem run_spawn_failure (h : Host) (check : bool) (w : World) (file : string) :
  view_match_python h = true -> view_file_name h = Some file ->
  (forall c, exists e, popen h c = inl e) ->
  let r := isort_cmd.run h check false w in
  (exists e, fst r = Raise e)
  /\ the_buffer (snd r) = the_buffer w
  /\ console (snd r) = console w
  /\ timeouts (snd r) = timeouts w.
Proof.
  intros Hpy Hfile Hpopen r. subst r.
  set (I := fun w' : World =>
    the_buffer w' = the_buffer w /\ console w' = console w /\ timeouts w' = timeouts w).
  assert (HL : ignores_logger I) by (intros f w' Hw'; exact Hw').
  assert (HS : ignores_settings I) by (intros f w' Hw'; exact Hw').
  assert (HG : ignores_signals I) by (intros f w' Hw'; exact Hw').
  assert (Hrun : triple I (isort_cmd.run h check false) (fun _ _ => False) (fun _ => I)).
  { unfold isort_cmd.run.
    apply triple_bind with (Q := fun _ => I); [apply triple_of_inv; [by apply cmd_load_inv | done]|].
    intros _.
    apply triple_bind with (Q := fun _ => I); [apply triple_of_inv; [by apply inv_log_call | done]|].
    intros _. cbv iota.
    apply triple_bind with (Q := fun _ => I); [by apply triple_gets|]. intros c.
    apply triple_bind with (Q := fun _ => I).
    { apply triple_of_inv; [|done].
      destruct (proc c); [|apply inv_ret].
      apply inv_bind; [by apply kill_proc_inv|]. intros _.
      apply inv_modify. by intros w' Hw'. }
    intros _.
    unfold isort_cmd.get_active_file. rewrite Hpy, Hfile. cbn [negb].
    apply triple_bind with (Q := fun f w' => I w' /\ f = Some file); [by apply triple_ret|].
    intros f. apply triple_pure. intros ->.
    apply triple_bind with (Q := fun _ => I); [by apply triple_modify|]. intros _.
    apply triple_bind with (Q := fun _ => I); [apply triple_of_inv; [by apply inv_log_call | done]|].
    intros _.
    apply triple_bind with (Q := fun _ => I); [apply triple_of_inv; [by apply cmd_getattr_inv | done]|].
    intros verbose.
    apply triple_bind with (Q := fun _ => I); [apply triple_of_inv; [by apply cmd_getattr_inv | done]|].
    intros path. cbv zeta.
    apply triple_bind with (Q := fun _ => I); [by apply triple_modify|]. intros _.
    apply triple_bind with (Q := fun _ _ => False).
    { destruct (if truthy path then path else VStr "isort") as [|b|n|q|exe|l|d];
        try by apply triple_raise.
      unfold isort_cmd.isort_file.
      destruct (Hpopen (isort_cmd.isort_file_call h exe file check verbose
                          (isort_cmd.get_cwd h))) as [e ->].
      by apply triple_raise. }
    intros p w' []. }
  specialize (Hrun w).
  destruct (isort_cmd.run h check false w) as [[x|e] w'].
  - destruct Hrun. by repeat split.
  - destruct Hrun as (H1 & H2 & H3); [by repeat split|].
    split; [by exists e|]. by repeat split.
Qed.

Lemma run_spawn_failure_witness :
  let r := isort_cmd.run no_formatter_host false false (idle_world "import os") in
  (exists e, fst r = Raise e)
  /\ the_buffer (snd r) = the_buffer (idle_world "import os")
  /\ console (snd r) = []
  /\ timeouts (snd r) = [].
Proof.
  apply (run_spawn_failure no_formatter_host false (idle_world "import os") example_file).
  - reflexivity.
  - reflexivity.
  - intros c. eexists. reflexivity.
Defined.

(** [kill_proc] only adds to the signals sent. *)
Lemma kill_proc_begin (h : Host) (l : list (nat * signal)) (p : Popen) :
  inv (signals_begin l) (utils.kill_proc h p).
Proof.
  assert (Hadd : forall x, inv (signals_begin l)
                   (modify (with_signals (fun s => s ++ [x])))).
  { intros x. apply inv_modify. intros w [rest Hw]. exists (rest ++ [x]).
    simpl. by rewrite Hw, app_assoc. }
  unfold utils.kill_proc. apply inv_bind.
  { apply inv_try_except; [|intros _; apply inv_ret].
    apply inv_bind; [|intros _; apply inv_ret].
    unfold utils.terminate. destruct (returncode (utils.polled h p)); [apply inv_ret|].
    apply inv_bind; [apply Hadd|]. intros _.
    destruct (terminate_lookup_error _ _); [apply inv_raise | apply inv_ret]. }
  intros [|]; cbv zeta; [|apply inv_ret].
  apply inv_try_except.
  { unfold utils.wait. destruct (returncode (utils.polled h p)); [apply inv_ret|].
    destruct (wait_result _ _); [apply inv_ret | apply inv_raise]. }
  intros _. apply inv_bind; [|intros _; apply inv_ret].
  unfold utils.kill. destruct (returncode (utils.polled_after_wait h _));
    [apply inv_ret | apply Hadd].
Qed.

(** [do_isort] keeps every assertion that [kill_proc] keeps and that does
    not look at the log, the settings, the command, the console, the timers
    or the view. *)
Lemma do_isort_inv (h : Host) (I : World -> Prop) (file : string) (check : bool) :
  ignores_logger I -> ignores_settings I -> ignores_self I -> ignores_console I ->
  ignores_timeouts I -> (forall f w, I w -> I (with_view f w)) ->
  (forall p, inv I (utils.kill_proc h p)) ->
  inv I (isort_cmd.do_isort h file check).
Proof.
  intros HL HS HF HC HT HV HK. unfold isort_cmd.do_isort.
  apply inv_bind; [apply inv_gets|]. intros c.
  destruct (proc c) as [p|]; [|apply inv_ret].
  apply inv_bind; [by apply inv_log_call|]. intros _.
  apply inv_bind; [by apply cmd_getattr_inv|]. intros timeout.
  apply inv_bind; [apply inv_gets|]. intros vw.
  apply inv_bind.
  { apply inv_try_except.
    - apply inv_bind; [|intros r; apply inv_ret].
      unfold isort_cmd.proc_communicate.
      destruct (communicate _ _ _ _); [|apply inv_raise..].
      apply inv_bind; [apply inv_modify; intros w; apply HF | intros _; apply inv_ret].
    - intros e. apply inv_bind; [apply HK|]. intros p'.
      apply inv_bind; [apply inv_modify; intros w; apply HF | intros _; apply inv_ret]. }
  intros o.
  apply inv_bind; [apply inv_gets|]. intros c'.
  apply inv_bind.
  { destruct (start_time c'); [apply inv_ret | apply inv_raise]. }
  intros elapsed.
  apply inv_bind; [by apply inv_log_call|]. intros _.
  apply inv_bind; [by apply inv_log_call|]. intros _.
  assert (Hstatus : forall text, inv I (isort_cmd.set_status text)).
  { intros text. unfold isort_cmd.set_status.
    apply inv_bind; [apply inv_modify; intros w; apply HV|]. intros _.
    apply inv_modify; intros w; apply HT. }
  apply inv_bind.
  { destruct (_ && _); [apply Hstatus|].
    destruct (isort_cmd.timed_out o); [apply Hstatus|].
    destruct (isort_cmd.stderr o); [|apply inv_ret].
    apply inv_bind; [by apply inv_print|]. intros _.
    apply inv_bind; [by apply inv_log_call|]. intros _. apply Hstatus. }
  intros _. apply inv_bind; [|intros _; apply inv_modify; intros w; apply HF].
  destruct (isort_cmd.stdout o) as [out|]; [|apply inv_ret].
  destruct (_ && _); [|apply inv_ret].
  apply inv_bind; [by apply inv_log_call|]. intros _.
  apply inv_modify; intros w; apply HV.
Qed.

(** X23: A run that is not a kill request, once the settings are loaded, first
    sends the termination signal to the process an earlier run has left
    running (the process object holds no exit code, and the process has not
    exited); whatever else it signals comes after. *)
Theorem run_terminates_previous (h : Host) (check : bool) (w : World) (p : Popen)
    (handle : option string) :
  proc (self w) = Some p -> returncode p = None -> poll h (pid p) = None ->
  fst (settings_py.load h (Some (the_view h)) false w) = Ok handle ->
  exists rest,
    signals (snd (isort_cmd.run h check false w)) = signals w ++ (pid p, SIGTERM) :: rest.
Proof.
  intros Hp Hrc Hpoll Hload.
  set (L := signals w ++ [(pid p, SIGTERM)]).
  cut (signals_begin L (snd (isort_cmd.run h check false w))).
  { intros [rest Hr]. exists rest. rewrite Hr. subst L. by rewrite <- app_assoc. }
  set (I0 := fun w' : World => signals w' = signals w /\ self w' = self w).
  assert (HL0 : ignores_logger I0) by (intros f w' Hw'; exact Hw').
  assert (HS0 : ignores_settings I0) by (intros f w' Hw'; exact Hw').
  pose proof (inv_final I0 _ w (cmd_load_inv h I0 HL0 HS0 (Some (the_view h)) false)
                (conj eq_refl eq_refl)) as Hw1.
  destruct (settings_py.load h (Some (the_view h)) false w) as [res w1] eqn:Hl.
  simpl in Hload, Hw1. subst res. destruct Hw1 as [Hsig Hself].
  unfold isort_cmd.run, log_debug. rewrite (bind_ok _ _ _ _ _ Hl).
  rewrite bind_log_call. cbv iota. rewrite bind_gets. cbv beta.
  cbn [self with_logger]. rewrite Hself, Hp. rewrite !bind_assoc.
  match goal with
  | |- context [bind (utils.kill_proc h p) _ ?w0] =>
      destruct (kill_proc_running h p w0 Hrc Hpoll) as (p' & extra & Hk & _);
      rewrite (bind_ok _ _ _ _ _ Hk)
  end.
  rewrite bind_modify.
  assert (HL : ignores_logger (signals_begin L)) by (intros f w' Hw'; exact Hw').
  assert (HS : ignores_settings (signals_begin L)) by (intros f w' Hw'; exact Hw').
  assert (HF : ignores_self (signals_begin L)) by (intros f w' Hw'; exact Hw').
  assert (HC : ignores_console (signals_begin L)) by (intros f w' Hw'; exact Hw').
  assert (HT : ignores_timeouts (signals_begin L)) by (intros f w' Hw'; exact Hw').
  assert (HV : forall f w', signals_begin L w' -> signals_begin L (with_view f w'))
    by (intros f w' Hw'; exact Hw').
  apply (triple_final (signals_begin L) (signals_begin L)).
  2:{ exists extra. simpl. rewrite Hsig. subst L. by rewrite <- app_assoc. }
  apply inv_bind; [by apply get_active_file_inv|]. intros [file|]; [|apply inv_ret].
  apply inv_bind; [apply inv_modify; intros w'; apply HF|]. intros _.
  apply inv_bind; [by apply inv_log_call|]. intros _.
  apply inv_bind; [by apply cmd_getattr_inv|]. intros verbose.
  apply inv_bind; [by apply cmd_getattr_inv|]. intros path. cbv zeta.
  apply inv_bind; [apply inv_modify; intros w'; apply HF|]. intros _.
  apply inv_bind.
  { destruct (if truthy path then path else VStr "isort");
      first [apply isort_file_inv | apply inv_raise]. }
  intros q.
  apply inv_bind; [apply inv_modify; intros w'; apply HF|]. intros _.
  apply do_isort_inv; auto. intros q'. apply kill_proc_begin.
Qed.

Lemma run_terminates_previous_witness :
  let h := example_host ∅ ∅ (fun _ => Completed "import os" "" 0) in
  exists rest,
    signals (snd (isort_cmd.run h false false (running_world "import os")))
    = [] ++ (7%nat, SIGTERM) :: rest.
Proof.
  intros h.
  apply (run_terminates_previous h false (running_world "import os") example_proc
           (Some settings_file)); reflexivity.
Defined.

(** ** What [configure_logger] never logs *)

(** X25: [configure_logger] sets the level to INFO before it logs at DEBUG level:
    its own message is never recorded, whatever the level of the logger or
    of its parent was. *)
Theorem configure_logger_silent (h : Host) (lg : Logging.Logger) :
  exists lg',
    utils.configure_logger h lg = inr lg'
    /\ Logging.records lg' = Logging.records lg
    /\ Logging.level lg' = Logging.INFO
    /\ Logging.propagate lg' = false.
Proof.
  destruct (configure_logger_handlers h lg) as (lg' & Hc & Hlv & Hpr & Hrec & _).
  exists lg'. by repeat split.
Qed.

(** ** Which views the command works on *)

(** X26: On a view for which the command is enabled, [get_active_file] returns
    the file name of the view and logs nothing. *)
Theorem enabled_view_is_active (h : Host) (w : World) :
  isort_cmd.is_enabled h = true ->
  isort_cmd.get_active_file h w = (Ok (view_file_name h), w).
Proof.
  unfold isort_cmd.is_enabled, isort_cmd.get_active_file. intros He.
  apply andb_prop in He as [_ ->]. reflexivity.
Qed.

Lemma enabled_view_is_active_witness :
  isort_cmd.get_active_file (example_host ∅ ∅ (fun _ => TimedOut)) (idle_world "import os")
  = (Ok (Some example_file), idle_world "import os").
Proof.
  apply (enabled_view_is_active (example_host ∅ ∅ (fun _ => TimedOut))
           (idle_world "import os")).
  reflexivity.
Defined.

(** ** Stripping white space from a file *)

Lemma white_sub_no_white (data : string) (c : ascii) :
  In c (String.list_ascii_of_string (utils.white_sub data)) -> utils.WHITE_RE c = false.
Proof.
  induction data as [|c' data IH]; simpl; [tauto|].
  destruct (utils.WHITE_RE c') eqn:Hc; [exact IH|].
  simpl. intros [<-|H]; auto.
Qed.

Lemma white_sub_fixed (data : string) :
  (forall c, In c (String.list_ascii_of_string data) -> utils.WHITE_RE c = false) ->
  utils.white_sub data = data.
Proof.
  induction data as [|c data IH]; simpl; intros H; [reflexivity|].
  rewrite (H c) by (by left). rewrite IH; [reflexivity|]. intros c' Hc'. apply H. by right.
Qed.

(** X27: [strip_file] fails exactly when the file cannot be read.  What it
    returns holds no white space byte, keeps a file without white space as
    it is, and is not changed by stripping again. *)
Theorem strip_file_no_white (read_file_cts : string -> exn + string) (file : string) :
  match read_file_cts file with
  | inl e => utils.strip_file read_file_cts file = inl e
  | inr data =>
      exists out,
        utils.strip_file read_file_cts file = inr out
        /\ (forall c, In c (String.list_ascii_of_string out) -> utils.WHITE_RE c = false)
        /\ ((forall c, In c (String.list_ascii_of_string data) -> utils.WHITE_RE c = false) ->
            out = data)
        /\ utils.strip_file (fun _ => inr out) file = inr out
  end.
Proof.
  unfold utils.strip_file. destruct (read_file_cts file) as [e|data]; [reflexivity|].
  exists (utils.white_sub data). split; [reflexivity|].
  split; [apply white_sub_no_white|]. split; [apply white_sub_fixed|].
  f_equal. apply white_sub_fixed, white_sub_no_white.
Qed.

(** ** Version numbers written and read back *)

Lemma digit_char (d : N) :
  (d < 10)%N ->
  Str.is_digit (pretty_N_char d) = true
  /\ Z.of_nat (nat_of_ascii (pretty_N_char d)) - 48 = Z.of_N d.
Proof.
  intros Hd.
  assert (Hcases : (d = 0 \/ d = 1 \/ d = 2 \/ d = 3 \/ d = 4 \/ d = 5 \/ d = 6
                    \/ d = 7 \/ d = 8 \/ d = 9)%N) by lia.
  repeat (destruct Hcases as [->|Hcases]; [by split|]). subst d. by split.
Qed.

(** A decimal digit is neither white space nor a full stop. *)
Lemma digits_not_space (c : ascii) : Str.is_digit c = true -> Str.is_space c = false.
Proof. destruct c as [[] [] [] [] [] [] [] []]; vm_compute; congruence. Qed.

Lemma digits_not_dot (c : ascii) : Str.is_digit c = true -> Ascii.eqb c "." = false.
Proof. destruct c as [[] [] [] [] [] [] [] []]; vm_compute; congruence. Qed.

(** What [pretty] writes for a positive number: a non-empty string of
    digits, which the digit reader of [int] reads back as the number. *)
Lemma pretty_N_go_digits (x : N) :
  (0 < x)%N ->
  exists ds k,
    0 <= k /\ ds <> ""
    /\ (forall c, In c (String.list_ascii_of_string ds) -> Str.is_digit c = true)
    /\ (forall s, pretty_N_go x s = ds +:+ s)
    /\ forall acc b s,
         Str.digits_go acc b (ds +:+ s) = Str.digits_go (acc * 10 ^ k + Z.of_N x) true s.
Proof.
  induction x as [x IH] using (well_founded_induction N.lt_wf_0). intros Hx.
  assert (Hd : (x `mod` 10 < 10)%N) by (apply N.mod_lt; lia).
  destruct (digit_char _ Hd) as [Hdig Hval].
  assert (Hstep : forall acc b s,
            Str.digits_go acc b (String (pretty_N_char (x `mod` 10)) s)
            = Str.digits_go (10 * acc + Z.of_N (x `mod` 10)) true s).
  { intros acc b s. cbn [Str.digits_go]. by rewrite Hdig, Hval. }
  destruct (decide (x `div` 10 = 0)%N) as [Hz|Hnz].
  - exists (String (pretty_N_char (x `mod` 10)) ""), 1.
    split; [lia|]. split; [discriminate|]. split.
    { intros c [<-|[]]. exact Hdig. }
    split.
    { intros s. rewrite pretty_N_go_step by exact Hx. rewrite Hz. apply pretty_N_go_0. }
    intros acc b s. change (String ?c "" +:+ s) with (String c s). rewrite Hstep.
    f_equal. rewrite Z.pow_1_r. pose proof (N.div_mod' x 10) as Hdm.
    rewrite Hz in Hdm. change (10 * 0 + x `mod` 10)%N with (x `mod` 10)%N in Hdm.
    rewrite <- Hdm. ring.
  - destruct (IH (x `div` 10)%N) as (ds & k & Hk & Hne & Hall & Hpre & Hread).
    { apply N.div_lt; [exact Hx | reflexivity]. }
    { by apply N.neq_0_lt_0. }
    exists (ds +:+ String (pretty_N_char (x `mod` 10)) ""), (k + 1).
    split; [lia|]. split.
    { destruct ds; [done | discriminate]. }
    split.
    { intros c Hc. apply app_In in Hc as [Hc|[<-|[]]]; [by apply Hall | exact Hdig]. }
    split.
    { intros s. rewrite pretty_N_go_step by exact Hx. rewrite Hpre.
      by rewrite string_app_assoc. }
    intros acc b s. rewrite string_app_assoc.
    change (String ?c "" +:+ s) with (String c s). rewrite Hread, Hstep.
    f_equal.
    rewrite Z.pow_add_r, Z.pow_1_r by lia. pose proof (N.div_mod' x 10) as Hdm.
    assert (Hx10 : Z.of_N x = 10 * Z.of_N (x `div` 10) + Z.of_N (x `mod` 10)).
    { rewrite Hdm at 1. rewrite N2Z.inj_add, N2Z.inj_mul. reflexivity. }
    rewrite Hx10. ring.
Qed.

Lemma pretty_nonneg (n : Z) :
  0 <= n ->
  pretty n <> ""
  /\ (forall c, In c (String.list_ascii_of_string (pretty n)) -> Str.is_digit c = true)
  /\ Str.digits_go 0 false (pretty n) = Some n.
Proof.
  intros Hn. destruct n as [|p|p]; [| |lia].
  - split; [discriminate|]. split; [|reflexivity].
    intros c [<-|[]]. reflexivity.
  - change (pretty (Z.pos p)) with (pretty_N_go (N.pos p) "").
    destruct (pretty_N_go_digits (N.pos p)) as (ds & k & Hk & Hne & Hall & Hpre & Hread);
      [reflexivity|].
    rewrite (Hpre ""), string_app_empty_r.
    split; [exact Hne|]. split; [exact Hall|].
    specialize (Hread 0 false ""). rewrite string_app_empty_r in Hread.
    rewrite Hread. reflexivity.
Qed.

Lemma digit_range (c : ascii) :
  Str.is_digit c = true -> (48 <= nat_of_ascii c <= 57)%nat.
Proof.
  unfold Str.is_digit. cbv zeta. intros H.
  apply andb_true_iff in H as [H1 H2].
  apply Nat.leb_le in H1. apply Nat.leb_le in H2. lia.
Qed.

(** Nor is it a byte of a white space character of two or three bytes. *)
Lemma digit_not_space2 (c d : ascii) :
  Str.is_digit c = true \/ Str.is_digit d = true -> Str.is_space2 c d = false.
Proof.
  unfold Str.is_space2. cbv zeta. intros [H|H]; apply digit_range in H.
  - rewrite (proj2 (Nat.eqb_neq (nat_of_ascii c) 194)) by lia. reflexivity.
  - rewrite (proj2 (Nat.eqb_neq (nat_of_ascii d) 133)) by lia.
    rewrite (proj2 (Nat.eqb_neq (nat_of_ascii d) 160)) by lia.
    apply andb_false_r.
Qed.

Lemma digit_not_space3 (c d e : ascii) :
  Str.is_digit c = true \/ Str.is_digit e = true -> Str.is_space3 c d e = false.
Proof.
  unfold Str.is_space3. cbv zeta. intros [H|H]; apply digit_range in H.
  - rewrite (proj2 (Nat.eqb_neq (nat_of_ascii c) 225)) by lia.
    rewrite (proj2 (Nat.eqb_neq (nat_of_ascii c) 226)) by lia.
    rewrite (proj2 (Nat.eqb_neq (nat_of_ascii c) 227)) by lia.
    reflexivity.
  - rewrite (proj2 (Nat.eqb_neq (nat_of_ascii e) 128)) by lia.
    rewrite (proj2 (Nat.eqb_neq (nat_of_ascii e) 168)) by lia.
    rewrite (proj2 (Nat.eqb_neq (nat_of_ascii e) 169)) by lia.
    rewrite (proj2 (Nat.eqb_neq (nat_of_ascii e) 175)) by lia.
    rewrite (proj2 (Nat.eqb_neq (nat_of_ascii e) 159)) by lia.
    rewrite (proj2 (Nat.leb_gt 128 (nat_of_ascii e))) by lia.
    rewrite !andb_false_r. reflexivity.
Qed.

Lemma lstrip_digits (ds : string) :
  (forall c, In c (String.list_ascii_of_string ds) -> Str.is_digit c = true) ->
  Str.lstrip ds = ds.
Proof.
  destruct ds as [|c ds]; [reflexivity|]. intros H.
  assert (Hc : Str.is_digit c = true) by (apply H; by left).
  cbn [Str.lstrip]. rewrite (digits_not_space c Hc).
  destruct ds as [|d ds]; [reflexivity|].
  rewrite digit_not_space2 by (by left).
  destruct ds as [|e ds]; [reflexivity|].
  by rewrite digit_not_space3 by (by left).
Qed.

Lemma lstrip_rev_digits (ds : string) :
  (forall c, In c (String.list_ascii_of_string ds) -> Str.is_digit c = true) ->
  Str.lstrip_rev ds = ds.
Proof.
  destruct ds as [|e ds]; [reflexivity|]. intros H.
  assert (He : Str.is_digit e = true) by (apply H; by left).
  cbn [Str.lstrip_rev]. rewrite (digits_not_space e He).
  destruct ds as [|d ds]; [reflexivity|].
  rewrite digit_not_space2 by (by right).
  destruct ds as [|c ds]; [reflexivity|].
  by rewrite digit_not_space3 by (by right).
Qed.

Lemma strip_digits (ds : string) :
  (forall c, In c (String.list_ascii_of_string ds) -> Str.is_digit c = true) ->
  Str.strip ds = ds.
Proof.
  intros H. unfold Str.strip, Str.rstrip. rewrite (lstrip_digits ds H).
  rewrite lstrip_rev_digits; [apply rev_rev|].
  intros c Hc. unfold String.rev in Hc. apply rev_app_In in Hc as [Hc|[]]. by apply H.
Qed.

Lemma ascii_int_digits (ds : string) :
  (forall c, In c (String.list_ascii_of_string ds) -> Str.is_digit c = true) ->
  Str.ascii_int ds = Str.digits_go 0 false ds.
Proof.
  intros H. unfold Str.ascii_int. rewrite (strip_digits ds H).
  destruct ds as [|c ds]; [reflexivity|].
  assert (Hc : Str.is_digit c = true) by (apply H; by left). clear H.
  destruct c as [[] [] [] [] [] [] [] []]; try reflexivity; vm_compute in Hc; discriminate.
Qed.

(** The [int] of the hosts of the examples reads back every number that
    [pretty] writes. *)
Lemma ascii_int_pretty (n : Z) : 0 <= n -> Str.ascii_int (pretty n) = Some n.
Proof.
  intros Hn. destruct (pretty_nonneg n Hn) as (_ & Hall & Hread).
  by rewrite (ascii_int_digits _ Hall).
Qed.

Lemma last_field_go_digits (ds acc : string) :
  (forall c, In c (String.list_ascii_of_string ds) -> Str.is_digit c = true) ->
  Str.last_field_go acc ds = String.rev (String.rev_app ds acc).
Proof.
  revert acc. induction ds as [|c ds IH]; intros acc H; [reflexivity|].
  cbn [Str.last_field_go String.rev_app].
  rewrite digits_not_dot by (apply H; by left).
  apply IH. intros c' Hc'. apply H. by right.
Qed.

Lemma last_field_version (ds : string) :
  (forall c, In c (String.list_ascii_of_string ds) -> Str.is_digit c = true) ->
  Str.last_field ("python3." +:+ ds) = ds.
Proof.
  intros H.
  assert (Hcons : forall c s t, String c s +:+ t = String c (s +:+ t)) by reflexivity.
  rewrite !Hcons. change ("" +:+ ds) with ds. clear Hcons.
  unfold Str.last_field. cbn [Str.last_field_go].
  repeat match goal with
         | |- context [Ascii.eqb ?a ?b] =>
             let r := eval vm_compute in (Ascii.eqb a b) in
             change (Ascii.eqb a b) with r; cbv iota
         end.
  rewrite (last_field_go_digits ds "" H). apply rev_rev.
Qed.

(** The name [find_package] builds for a version begins with [python3], and
    its last field is the version as [pretty] writes it. *)
Lemma version_name_field (n : Z) :
  0 <= n ->
  String.prefix "python3" ("python3." +:+ pretty n) = true
  /\ Str.last_field ("python3." +:+ pretty n) = pretty n.
Proof.
  intros Hn. destruct (pretty_nonneg n Hn) as (Hne & Hall & Hread).
  split.
  - assert (Hcons : forall c s t, String c s +:+ t = String c (s +:+ t)) by reflexivity.
    rewrite !Hcons. reflexivity.
  - exact (last_field_version _ Hall).
Qed.

(** X28: [find_package] finds the package of the highest version: when the
    [int] of the interpreter reads the decimal numeral of [n] as [n], the
    [lib] directory of the root lists [python3.<n>], no version that [int]
    reads off the entries beginning with [python3] is higher than [n], and
    the directories of that version and of the package in it exist, the
    result is the package directory. *)
Theorem find_package_finds (h : Host) (root pkg_name : string) (n : Z) :
  let lib := Path.join root ["lib"] in
  let version_path := Path.join lib ["python3." +:+ pretty n] in
  let pkg_path := Path.join version_path ["site-packages"; pkg_name] in
  0 <= n ->
  int_of_str h (pretty n) = Some n ->
  isdir h lib = true ->
  "python3." +:+ pretty n ∈ listdir h lib ->
  (forall m, m ∈ utils.scan_versions h (listdir h lib) -> m <= n) ->
  isdir h version_path = true ->
  isdir h pkg_path = true ->
  utils.find_package h root pkg_name = Some pkg_path.
Proof.
  intros lib version_path pkg_path Hn Hint Hlib Hin Hmax Hver Hpkg.
  destruct (version_name_field n Hn) as [Hpre Hfield].
  assert (Hmem : n ∈ utils.scan_versions h (listdir h lib)).
  { apply scan_versions_elem. exists ("python3." +:+ pretty n).
    split; [exact Hin|]. split; [exact Hpre|]. by rewrite Hfield. }
  unfold utils.find_package. fold lib. rewrite Hlib. cbn [negb].
  destruct (utils.scan_versions h (listdir h lib)) as [|v vs] eqn:Hscan.
  { by apply elem_of_nil in Hmem. }
  destruct (foldl_max_spec vs v) as [Hin_max Hle].
  assert (Heq : foldl Z.max v vs = n).
  { apply Z.le_antisymm; [by apply Hmax | by apply Hle]. }
  rewrite Heq. fold version_path. rewrite Hver. cbn [negb].
  fold pkg_path. by rewrite Hpkg.
Qed.

Lemma find_package_finds_witness :
  utils.find_package venv_host "/venv" "isort"
  = Some "/venv/lib/python3.10/site-packages/isort".
Proof.
  apply (find_package_finds venv_host "/venv" "isort" 10).
  - lia.
  - reflexivity.
  - reflexivity.
  - vm_compute. right. left.
  - intros m Hm. vm_compute in Hm.
    apply elem_of_cons in Hm as [->|Hm]; [lia|].
    apply elem_of_cons in Hm as [->|Hm]; [lia|].
    by apply elem_of_nil in Hm.
  - reflexivity.
  - reflexivity.
Defined.
